(** * AliceVision: intrinsics calibration, pair-angle estimation and histogram

    A shallow embedding of
    - [utils::Histogram<double>]                       (Histogram.hpp),
    - [estimatePairAngle], [computeScore] and the loop of [aliceVision_main]
      that chooses the pair                            (SfM bootstraping),
    - [computeV], [process_innerGrids], [process_basic] and [aliceVision_main]
                                                        (main_intrinsicsCalibration.cpp)
    and the properties of these functions.

    Conventions.
    - A C++ [double] is a binary64 number: Rocq's primitive [float], whose
      operations round as the hardware does.  NaN and the infinities are values.
    - [size_t] is [N] below [2^64], [IndexT] is [N] below [2^32]; arithmetic that
      can wrap is written with the wrap.
    - [std::map] is a [gmap]; where the source iterates a map the keys are
      visited in increasing order.
    - Reading a [std::vector] past its end, dereferencing a null pointer and
      calling [std::sort] with a comparator that is not a strict weak ordering
      are undefined in C++: a function in which this can happen returns an
      [option], [None] standing for undefined behaviour, or a [Run], which
      also has an outcome for an exception that leaves the function.
    - Eigen and libm, the camera model, the robust estimators, the track
      utilities, the bundle adjustment and [std::sort] are library code
      outside these sources: they are the fields of the classes [Numerics],
      [Camera], [Multiview], [Tracks], [Math], [Refinement] and [Algorithm],
      and every theorem holds for all their instances.  [std::sort] is known
      by what the standard says of it, a sorted permutation, and nothing is
      assumed on the order of equivalent elements.  The module [Sample] has
      instances and data to run the functions on concrete inputs. *)

From Stdlib Require Import ZArith NArith List Bool Lia Floats.
From stdpp Require Import base option list gmap fin_maps sorting.

Local Open Scope N_scope.

(** ** Machine numbers *)

Abbreviation double := float.

Definition size_t_modulus : N := 2 ^ 64.
Definition SIZE_MAX : N := size_t_modulus - 1.
Definition wrap_size_t (n : N) : N := n mod size_t_modulus.

Definition IndexT_modulus : N := 2 ^ 32.
Definition wrap_IndexT (n : N) : N := n mod IndexT_modulus.
(** [UndefinedIndexT = std::numeric_limits<IndexT>::max()] *)
Definition UndefinedIndexT : N := IndexT_modulus - 1.

(** [std::numeric_limits<double>::max()] *)
Definition DBL_MAX : double := 0x1.fffffffffffffp+1023%float.

(** Conversion of an unsigned integer to [double]: round to nearest even. *)
Definition double_of_N (n : N) : double :=
  SF2Prim (binary_normalize prec emax (Z.of_N n) 0 false).

(** [static_cast<size_t>(d)]: the fractional part is discarded; the behaviour
    is undefined ([None]) when the truncated value is not a [size_t], which
    includes NaN and the infinities. *)
Definition size_t_of_double (d : double) : option N :=
  match Prim2SF d with
  | S754_zero _ => Some 0
  | S754_finite s m e =>
      let q := (if (0 <=? e)%Z then Z.pos m * 2 ^ e else Z.pos m / 2 ^ (- e))%Z in
      if s then (if (q =? 0)%Z then Some 0 else None)
      else if (q <? Z.of_N size_t_modulus)%Z then Some (Z.to_N q) else None
  | S754_infinity _ | S754_nan => None
  end.

(** [std::min(a, b)] is [(b < a) ? b : a]; [std::max(a, b)] is [(a < b) ? b : a]. *)
Definition std_min (a b : double) : double := if (b <? a)%float then b else a.
Definition std_max (a b : double) : double := if (a <? b)%float then b else a.

(** The conversion of a [size_t] to the 32-bit [int], as in [int w = ...] and
    [int size = s.size()]: modulo [2^32], in two's complement. *)
Definition int_of_size_t (n : N) : Z :=
  let r := Z.of_N (n mod IndexT_modulus) in
  if (r <? 2 ^ 31)%Z then r else (r - 2 ^ 32)%Z.

(** Conversion of a signed integer to [double]. *)
Definition double_of_Z (z : Z) : double :=
  SF2Prim (binary_normalize prec emax z 0 false).

(** ** How a call ends *)

(** A call that can throw or run into undefined behaviour. *)
Inductive Run (A : Type) :=
  | Done (a : A)
  | Throws          (* an exception leaves the function *)
  | Undefined.      (* undefined behaviour *)
Arguments Done {A} a.
Arguments Throws {A}.
Arguments Undefined {A}.

#[global] Instance Run_ret : MRet Run := @Done.
#[global] Instance Run_bind : MBind Run := fun A B f m =>
  match m with Done a => f a | Throws => Throws | Undefined => Undefined end.

(** A loop whose body can throw or be undefined: it stops there. *)
Fixpoint foldM {A B} (f : A -> B -> Run A) (a : A) (l : list B) : Run A :=
  match l with
  | [] => Done a
  | b :: l' => a' ← f a b; foldM f a' l'
  end.

(** The same for a body whose only failure is undefined behaviour ([None]). *)
Fixpoint fold_defined {A B} (f : A -> B -> option A) (a : A) (l : list B) : option A :=
  match l with
  | [] => Some a
  | b :: l' => a' ← f a b; fold_defined f a' l'
  end.

(** ** utils::Histogram<double> *)

Module Histogram.

Record t := mk {
  Start : double;
  End : double;
  nBins_by_interval : double;
  nBins : N;           (* number of bins *)
  freq : list N;       (* histogram *)
  overflow : N;
  underflow : N        (* count under/over flow *)
}.

(** [Histogram(Start, End, nBins)] *)
Definition make (Start End : double) (nBins : N) : t :=
  {| Start := Start;
     End := End;
     nBins_by_interval := (double_of_N nBins / (End - Start))%float;
     nBins := nBins;
     freq := replicate (N.to_nat nBins) 0;
     overflow := 0;
     underflow := 0 |}.

Definition set_underflow (v : N) (h : t) : t :=
  mk (Start h) (End h) (nBins_by_interval h) (nBins h) (freq h) (overflow h) v.
Definition set_overflow (v : N) (h : t) : t :=
  mk (Start h) (End h) (nBins_by_interval h) (nBins h) (freq h) v (underflow h).
Definition set_freq (f : list N) (h : t) : t :=
  mk (Start h) (End h) (nBins_by_interval h) (nBins h) f (overflow h) (underflow h).

(** [++freq[k]]; [None] when [k] is past the end of the vector. *)
Definition incr_at (k : nat) (f : list N) : option (list N) :=
  match f !! k with
  | Some c => Some (<[k := wrap_size_t (c + 1)]> f)
  | None => None
  end.

(** [void Add(const T& x)].  [None] is undefined behaviour: a conversion to
    [size_t] that is not defined, or a write past the end of [freq]. *)
Definition Add (h : t) (x : double) : option t :=
  if (x <? Start h)%float then
    Some (set_underflow (wrap_size_t (underflow h + 1)) h)
  else if (End h <? x)%float then
    Some (set_overflow (wrap_size_t (overflow h + 1)) h)
  else
    match size_t_of_double ((x - Start h) * nBins_by_interval h)%float with
    | None => None
    | Some i =>
        (* clamp for the particular case when (x == End) *)
        let k := N.min i (wrap_size_t (nBins h + SIZE_MAX)) in
        match incr_at (N.to_nat k) (freq h) with
        | Some f => Some (set_freq f h)
        | None => None
        end
    end.

(** The three kinds of counter of a histogram. *)
Inductive Counter := Underflow | Overflow | Bin (k : nat).

Definition read (c : Counter) (h : t) : option N :=
  match c with
  | Underflow => Some (underflow h)
  | Overflow => Some (overflow h)
  | Bin k => freq h !! k
  end.

(** Underflow + overflow + the sum of all bin frequencies, as a number. *)
Definition total (h : t) : N :=
  underflow h + overflow h + foldr N.add 0 (freq h).

(** The vector has [nBins] counters. *)
Definition wf (h : t) : Prop :=
  length (freq h) = N.to_nat (nBins h) /\ 1 <= nBins h <= SIZE_MAX.

(** The counter the specification names for [x]: underflow if [x < Start],
    overflow if [x > End], otherwise the bin [min(i, nBins - 1)] where [i] is
    the scaled offset converted to [size_t] (none when there is no such [i]).
    The theorems compare it with what [Add] does. *)
Definition selected_counter (h : t) (x : double) : option Counter :=
  if (x <? Start h)%float then Some Underflow
  else if (End h <? x)%float then Some Overflow
  else match size_t_of_double ((x - Start h) * nBins_by_interval h)%float with
       | Some i => Some (Bin (N.to_nat (N.min i (nBins h - 1))))
       | None => None
       end.

(** [void Add(DataInputIterator begin, DataInputIterator end)] on a sequence
    of doubles: [Add] of each element in turn, converted to [T] (which is
    [double] here); it is undefined as soon as one of the calls is. *)
Fixpoint Add_range (h : t) (xs : list double) : option t :=
  match xs with
  | [] => Some h
  | x :: xs' => h' ← Add h x; Add_range h' xs'
  end.

(** [size_t GetTotalCount() const]:
    [std::accumulate(freq.begin(), freq.end(), 0.0)].  The initial value is a
    [double], so every counter is converted to [double] and added in
    [double]; the sum is converted to [size_t] on return ([None] when that
    conversion is undefined). *)
Definition GetTotalCount (h : t) : option N :=
  size_t_of_double (foldl (fun acc c => (acc + double_of_N c)%float) 0%float (freq h)).

Definition GetOverflow (h : t) : N := overflow h.
Definition GetUnderflow (h : t) : N := underflow h.
Definition GetHist (h : t) : list N := freq h.
Definition GetStart (h : t) : double := Start h.
Definition GetEnd (h : t) : double := End h.

(** [std::vector<T> GetXbinsValue() const]: [nBins] values,
    [val * i + Start] with [val = (End - Start) / double(nBins - 1)], the
    difference [nBins - 1] being computed in [size_t]. *)
Definition GetXbinsValue (h : t) : list double :=
  let val := ((End h - Start h) / double_of_N (wrap_size_t (nBins h + SIZE_MAX)))%float in
  (fun i => (val * double_of_N (N.of_nat i) + Start h)%float) <$> seq 0 (N.to_nat (nBins h)).

#[global] Instance Counter_eq_dec : EqDecision Counter.
Proof. solve_decision. Defined.

(** The counter [Add] goes to for [x], with the clamp as [Add] computes it,
    and the increment of a counter: [Add] is the one followed by the other
    (lemma [Add_bump]). *)
Definition chosen (h : t) (x : double) : option Counter :=
  if (x <? Start h)%float then Some Underflow
  else if (End h <? x)%float then Some Overflow
  else match size_t_of_double ((x - Start h) * nBins_by_interval h)%float with
       | Some i => Some (Bin (N.to_nat (N.min i (wrap_size_t (nBins h + SIZE_MAX)))))
       | None => None
       end.

Definition bump (c : Counter) (h : t) : option t :=
  match c with
  | Underflow => Some (set_underflow (wrap_size_t (underflow h + 1)) h)
  | Overflow => Some (set_overflow (wrap_size_t (overflow h + 1)) h)
  | Bin k => f ← incr_at k (freq h); Some (set_freq f h)
  end.

(** The number of values of [xs] that go to the counter [c]. *)
Definition hits (h : t) (c : Counter) (xs : list double) : nat :=
  length (filter (fun x => selected_counter h x = Some c) xs).

(** Same range, scale and number of bins. *)
Definition same_bins (h h' : t) : Prop :=
  Start h' = Start h /\ End h' = End h /\ nBins_by_interval h' = nBins_by_interval h /\
  nBins h' = nBins h /\ length (freq h') = length (freq h).

End Histogram.

(** ** Vectors and matrices of doubles (Eigen fixed-size types) *)

Definition Vec2 : Type := double * double.
Definition Vec3 : Type := double * double * double.
Definition Vec6 : Type := double * double * double * double * double * double.
(** A matrix is the tuple of its rows. *)
Definition Mat3 : Type := Vec3 * Vec3 * Vec3.
Definition Mat34 : Type := (double * double * double * double) *
                           (double * double * double * double) *
                           (double * double * double * double).

Definition vec3_at (v : Vec3) (k : nat) : double :=
  let '(x, y, z) := v in match k with O => x | 1%nat => y | _ => z end.
(** [M(r, c)] *)
Definition mat3_at (M : Mat3) (r c : nat) : double :=
  let '(r0, r1, r2) := M in
  vec3_at (match r with O => r0 | 1%nat => r1 | _ => r2 end) c.
(** [M.col(c)] *)
Definition mat3_col (M : Mat3) (c : nat) : Vec3 :=
  (mat3_at M 0 c, mat3_at M 1 c, mat3_at M 2 c).
Definition mat3_of_cols (c0 c1 c2 : Vec3) : Mat3 :=
  ((vec3_at c0 0, vec3_at c1 0, vec3_at c2 0),
   (vec3_at c0 1, vec3_at c1 1, vec3_at c2 1),
   (vec3_at c0 2, vec3_at c1 2, vec3_at c2 2)).
Definition mat3_transpose (M : Mat3) : Mat3 :=
  mat3_of_cols (fst (fst M)) (snd (fst M)) (snd M).
Definition Identity3 : Mat3 := ((1, 0, 0), (0, 1, 0), (0, 0, 1))%float.

Definition vec2_sub (a b : Vec2) : Vec2 := (fst a - fst b, snd a - snd b)%float.
Definition vec3_sub (a b : Vec3) : Vec3 :=
  (vec3_at a 0 - vec3_at b 0, vec3_at a 1 - vec3_at b 1, vec3_at a 2 - vec3_at b 2)%float.
Definition vec3_opp (a : Vec3) : Vec3 :=
  (- vec3_at a 0, - vec3_at a 1, - vec3_at a 2)%float.
Definition vec3_scale (a : Vec3) (k : double) : Vec3 :=
  (vec3_at a 0 * k, vec3_at a 1 * k, vec3_at a 2 * k)%float.
Definition vec6_sub (a b : Vec6) : Vec6 :=
  let '(a0, a1, a2, a3, a4, a5) := a in
  let '(b0, b1, b2, b3, b4, b5) := b in
  (a0 - b0, a1 - b1, a2 - b2, a3 - b3, a4 - b4, a5 - b5)%float.
(** [v.homogeneous()] *)
Definition homogeneous (v : Vec2) : Vec3 := (fst v, snd v, 1%float).

Definition mat3_has_nan (M : Mat3) : bool :=
  let '((a, b, c), (d, e, f), (g, h, i)) := M in
  is_nan a || is_nan b || is_nan c || is_nan d || is_nan e || is_nan f
  || is_nan g || is_nan h || is_nan i.

(** ** The scene (sfmData) and the detector output *)

(** Modelled from the spec: the scene container and the detection sets
    (sfmData/SfMData.hpp, camera/Pinhole.hpp and calibration/checkerDetector.hpp
    are not among the sources).  "Views (id -> intrinsic id, pose id,
    width/height), intrinsics, poses (id -> rotation + translation), landmarks
    (id -> 3D point, descriptor tag, observation map)"; "a checkerboard is a
    2D grid of corner identifiers, a cell may be undefined".  The records
    have the fields the functions read or write. *)

Module View.
Record t := mk {
  viewId : N; poseId : N; intrinsicId : N; width : N; height : N
}.
Definition setViewId (i : N) (v : t) : t :=
  mk i (poseId v) (intrinsicId v) (width v) (height v).
Definition setPoseId (i : N) (v : t) : t :=
  mk (viewId v) i (intrinsicId v) (width v) (height v).
End View.

Record Pose3 := mkPose3 { rotation : Mat3; center : Vec3 }.
Record CameraPose := mkCameraPose { transform : Pose3; locked : bool }.
(** [sfmData::CameraPose()] *)
Definition default_CameraPose : CameraPose :=
  mkCameraPose (mkPose3 Identity3 (0, 0, 0)%float) false.

Inductive EImageDescriberType := UNINITIALIZED | SIFT.

Record Observation := mkObservation {
  obs_x : Vec2; id_feat : N; obs_scale : double
}.
Record Landmark := mkLandmark {
  X : Vec3; descType : EImageDescriberType; observations : gmap N Observation
}.
(** [sfmData::Landmark()] *)
Definition default_Landmark : Landmark :=
  mkLandmark (0, 0, 0)%float UNINITIALIZED ∅.

Inductive Distortion := DistortionParams (params : list double).

(** Modelled from the spec: [camera::Pinhole] (camera/Pinhole.hpp is not among
    the sources).  "A pinhole camera model holding a 3x3 calibration matrix, a
    principal-point offset, an optional distortion function, and image
    width/height", with scale accessors; each setter overwrites its field. *)
Module Pinhole.
Record t := mk {
  K : Mat3; scale : Vec2; offset : Vec2;
  distortion : option Distortion; ratioLocked : bool; w : N; h : N
}.
Definition setK (A : Mat3) (p : t) : t :=
  mk A (scale p) (offset p) (distortion p) (ratioLocked p) (w p) (h p).
Definition setScale (s : Vec2) (p : t) : t :=
  mk (K p) s (offset p) (distortion p) (ratioLocked p) (w p) (h p).
Definition setOffset (o : Vec2) (p : t) : t :=
  mk (K p) (scale p) o (distortion p) (ratioLocked p) (w p) (h p).
Definition setDistortionObject (d : option Distortion) (p : t) : t :=
  mk (K p) (scale p) (offset p) d (ratioLocked p) (w p) (h p).
Definition setRatioLocked (b : bool) (p : t) : t :=
  mk (K p) (scale p) (offset p) (distortion p) b (w p) (h p).
End Pinhole.

(** The dynamic type behind a [shared_ptr<camera::IntrinsicBase>]:
    [dynamic_pointer_cast<camera::Pinhole>] succeeds on [PinholeCam] only. *)
Inductive IntrinsicBase := PinholeCam (p : Pinhole.t) | OtherCam.

Definition as_pinhole (c : option IntrinsicBase) : option Pinhole.t :=
  match c with Some (PinholeCam p) => Some p | _ => None end.

Record SfMData := mkSfMData {
  views : gmap N View.t;
  poses : gmap N CameraPose;
  intrinsics : gmap N IntrinsicBase;
  landmarks : gmap N Landmark
}.
Definition set_views (v : gmap N View.t) (s : SfMData) : SfMData :=
  mkSfMData v (poses s) (intrinsics s) (landmarks s).
Definition set_poses (p : gmap N CameraPose) (s : SfMData) : SfMData :=
  mkSfMData (views s) p (intrinsics s) (landmarks s).
Definition set_intrinsics (i : gmap N IntrinsicBase) (s : SfMData) : SfMData :=
  mkSfMData (views s) (poses s) i (landmarks s).
Definition set_landmarks (l : gmap N Landmark) (s : SfMData) : SfMData :=
  mkSfMData (views s) (poses s) (intrinsics s) l.

(** The intrinsic object a [shared_ptr<camera::Pinhole>] taken from
    [getIntrinsics()[id]] designates, and an update through that pointer. *)
Definition pinhole_at (s : SfMData) (id : N) : option Pinhole.t :=
  as_pinhole (intrinsics s !! id).
Definition put_pinhole (id : N) (p : Pinhole.t) (s : SfMData) : SfMData :=
  set_intrinsics (<[id := PinholeCam p]> (intrinsics s)) s.

(** [calibration::CheckerDetector]: a board is a matrix of corner ids (the list
    of its rows), [UndefinedIndexT] where no corner was detected. *)
Definition CheckerBoard : Type := list (list N).
Record CheckerBoardCorner := mkCorner { corner_center : Vec2 }.
Record CheckerDetector := mkDetector {
  getBoards : list CheckerBoard;
  getCorners : list CheckerBoardCorner
}.
(** [calibration::CheckerDetector()] *)
Definition default_CheckerDetector : CheckerDetector := mkDetector [] [].

Definition rows (b : CheckerBoard) : nat := length b.
Definition cols (b : CheckerBoard) : nat :=
  match b with [] => O | r :: _ => length r end.
(** [b(i, j)] *)
Definition cell (b : CheckerBoard) (i j : nat) : N :=
  match b !! i with
  | Some r => default UndefinedIndexT (r !! j)
  | None => UndefinedIndexT
  end.
(** The index pairs visited by
    [for (i = 0; i < b.rows(); i++) for (j = 0; j < b.cols(); j++)]. *)
Definition cell_indices (b : CheckerBoard) : list (nat * nat) :=
  i ← seq 0 (rows b); j ← seq 0 (cols b); [(i, j)].

(** [corners[cid]]: the read of a [std::vector], undefined ([None]) past its
    end. *)
Definition corner_at (corners : list CheckerBoardCorner) (cid : N)
    : option CheckerBoardCorner :=
  corners !! N.to_nat cid.

(** Keys and values of a [std::map] in iteration order (increasing keys). *)
Definition key_le {A} (a b : N * A) : Prop := a.1 <= b.1.
#[global] Instance key_le_dec {A} (a b : N * A) : Decision (key_le a b) :=
  decide (a.1 <= b.1).
Definition items {A} (m : gmap N A) : list (N * A) :=
  merge_sort key_le (map_to_list m).

(** [a] is not after [b] for the comparator [less]. *)
Definition not_after {A} (less : A -> A -> bool) (a b : A) : Prop := less b a = false.

(** [less] is a strict weak ordering of the elements of [l]: irreflexive,
    transitive, and with a transitive equivalence "neither is less than the
    other".  It is what the standard asks of the comparator of [std::sort]. *)
Definition equivalent {A} (less : A -> A -> bool) (a b : A) : Prop :=
  less a b = false /\ less b a = false.
Definition strict_weak {A} (less : A -> A -> bool) (l : list A) : Prop :=
  Forall (fun x => less x x = false) l /\
  Forall (fun x => Forall (fun y => Forall (fun z =>
    less x y = true -> less y z = true -> less x z = true) l) l) l /\
  Forall (fun x => Forall (fun y => Forall (fun z =>
    equivalent less x y -> equivalent less y z -> equivalent less x z) l) l) l.
#[global] Instance strict_weak_dec {A} (less : A -> A -> bool) (l : list A) :
  Decision (strict_weak less l).
Proof. unfold strict_weak, equivalent. apply _. Defined.

(** A sort by insertion: the element of rank [k] of a range is the one it
    puts at [k]. *)
Fixpoint sort_insert {A} (less : A -> A -> bool) (x : A) (l : list A) : list A :=
  match l with
  | [] => [x]
  | y :: l' => if less x y then x :: y :: l' else y :: sort_insert less x l'
  end.
Definition insertion_sort {A} (less : A -> A -> bool) (l : list A) : list A :=
  foldr (sort_insert less) [] l.

(** ** Library code outside the sources *)

(** The standard library's [std::sort(first, last, comp)].  For a comparator
    that is a strict weak ordering of the range (anything else is undefined)
    the result is a permutation of the range in which no element is less than
    an earlier one; the order of equivalent elements is unspecified, and so is
    the algorithm. *)
Class Algorithm := {
  std_sort : forall {A : Type}, (A -> A -> bool) -> list A -> list A;
  std_sort_permutation : forall (A : Type) (less : A -> A -> bool) (l : list A),
    strict_weak less l -> std_sort less l ≡ₚ l;
  std_sort_ordered : forall (A : Type) (less : A -> A -> bool) (l : list A),
    strict_weak less l -> StronglySorted (not_after less) (std_sort less l)
}.

(** Eigen and libm. *)
Class Numerics := {
  (** [v.norm()] *)
  norm2 : Vec2 -> double;
  norm3 : Vec3 -> double;
  (** [v.normalized()] *)
  normalized : Vec3 -> Vec3;
  dot3 : Vec3 -> Vec3 -> double;
  cross : Vec3 -> Vec3 -> Vec3;
  mat3_mul : Mat3 -> Mat3 -> Mat3;
  mat3_mul_vec : Mat3 -> Vec3 -> Vec3;
  (** [k * M] *)
  mat3_scale : double -> Mat3 -> Mat3;
  (** [M.inverse()] *)
  inverse : Mat3 -> Mat3;
  (** [-R.transpose() * t] *)
  opp_transpose_mul : Mat3 -> Vec3 -> Vec3;
  (** The last column of [JacobiSVD(V, ComputeFullU | ComputeFullV).matrixV()]
      for a matrix [V] with six columns, given by its rows. *)
  svd_last_V_column : list Vec6 -> Vec6;
  (** [svd.matrixU() * svd.matrixV().transpose()] of [JacobiSVD(M)] *)
  svd_U_Vt : Mat3 -> Mat3;
  acos : double -> double;
  (** [clamp(v, lo, hi)] *)
  clamp : double -> double -> double -> double
}.

(** The camera model of [camera::Pinhole]. *)
Class Camera := {
  get_ud_pixel : Pinhole.t -> Vec2 -> Vec2;
  ima2cam : Pinhole.t -> Vec2 -> Vec2;
  cam2ima : Pinhole.t -> Vec2 -> Vec2;
  removeDistortion : Pinhole.t -> Vec2 -> Vec2;
  getPrincipalPoint : Pinhole.t -> Vec2
}.

(** multiview and robustEstimation. *)
Class Multiview := {
  (** [ACRANSAC] over [ResectionKernel_K<P3PSolver, ...>(Mcur, Mref, K)] with a
      default-seeded generator and 1000 iterations: the inliers and the model. *)
  ACRANSAC_resection : list Vec2 -> list Vec3 -> Mat3 -> list nat * Mat34;
  (** [ACRANSAC] over [RelativePoseKernel<Homography4PSolver, ...>(Mref, 1, 1,
      Mcur, w, h, false)] with a default-seeded generator and 1024 iterations. *)
  ACRANSAC_homography : list Vec2 -> list Vec2 -> N -> N -> list nat * Mat3;
  KRt_from_P : Mat34 -> Mat3 * Mat3 * Vec3;
  P_from_KRt : Mat3 -> Mat3 -> Vec3 -> Mat34;
  CrossProductMatrix : Vec3 -> Mat3;
  TriangulateDLT : Mat34 -> Vec2 -> Mat34 -> Vec2 -> Vec3;
  (** [geometry::Pose3(T)] for a 3x4 matrix given as rotation block and last column *)
  Pose3_of_Rt : Mat3 -> Vec3 -> Pose3
}.

Inductive ERefineOptions :=
  | REFINE_ROTATION | REFINE_TRANSLATION | REFINE_INTRINSICS_FOCAL
  | REFINE_INTRINSICS_DISTORTION | REFINE_INTRINSICS_ALL.

(** [sfm::BundleAdjustmentSymbolicCeres]: [adjust distance options scene]
    returns the success flag and the scene as the solver left it ([distance]
    is what [setDistance] was given, if it was called).  The solver changes
    poses, intrinsics and landmarks in place; it does not change the [View]
    objects the callers hold pointers to. *)
Class Refinement := {
  adjust : option double -> list ERefineOptions -> SfMData -> bool * SfMData
}.

(** ** main_intrinsicsCalibration.cpp *)

Section Calibration.
Context `{!Numerics, !Camera, !Multiview, !Refinement, !Algorithm}.

(** [computeV(H, i, j)] *)
Definition computeV (H : Mat3) (i j : nat) : Vec6 :=
  ((mat3_at H 0 i * mat3_at H 0 j,
    mat3_at H 0 i * mat3_at H 1 j + mat3_at H 1 i * mat3_at H 0 j,
    mat3_at H 1 i * mat3_at H 1 j,
    mat3_at H 2 i * mat3_at H 0 j + mat3_at H 0 i * mat3_at H 2 j,
    mat3_at H 2 i * mat3_at H 1 j + mat3_at H 1 i * mat3_at H 2 j,
    mat3_at H 2 i * mat3_at H 2 j))%float.

(** *** process_innerGrids *)

(** The body of the comparator's two loops: the least distance from a defined
    corner of the board to [center], [DBL_MAX] when no corner is defined.
    [at_corner] is the access [corners[cid]]. *)
Definition mindist_with (at_corner : N -> option CheckerBoardCorner) (center : Vec2)
    (b : CheckerBoard) : option double :=
  fold_defined (fun mindist '(i, j) =>
                  let cid := cell b i j in
                  if cid =? UndefinedIndexT then Some mindist
                  else
                    c ← at_corner cid;
                    let dist := norm2 (vec2_sub (corner_center c) center) in
                    Some (std_min dist mindist))
               DBL_MAX (cell_indices b).

Definition mindist (corners : list CheckerBoardCorner)
    : Vec2 -> CheckerBoard -> option double :=
  mindist_with (corner_at corners).

(** The comparator given to [std::sort]. *)
Definition closer_to_center (corners : list CheckerBoardCorner) (center : Vec2)
    (first second : CheckerBoard) : option bool :=
  mindist_first ← mindist corners center first;
  mindist_second ← mindist corners center second;
  Some (mindist_first <? mindist_second)%float.

(** Sort boards by their minimal distance to image center.  On fewer than two
    boards [std::sort] makes no comparison.  On two or more every board is
    compared: the call is undefined when a comparison is (a read past the end
    of [corners]) or when the comparator is not a strict weak ordering of the
    boards.  Past these two tests every comparison has a value, the one the
    comparator given to [std_sort] returns. *)
Definition sort_boards (corners : list CheckerBoardCorner) (center : Vec2)
    (boards : list CheckerBoard) : option (list CheckerBoard) :=
  if (length boards <? 2)%nat then Some boards
  else if decide (Forall (fun b => is_Some (mindist corners center b)) boards) then
    let comp first second :=
      default false (closer_to_center corners center first second) in
    if decide (strict_weak comp boards) then Some (std_sort comp boards) else None
  else None.

(** [int h = view->getHeight(); int w = view->getWidth();
     const Vec2 center = { 0.5 * w, 0.5 * h }] *)
Definition image_center (view : View.t) : Vec2 :=
  let h := int_of_size_t (View.height view) in
  let w := int_of_size_t (View.width view) in
  ((0.5 * double_of_Z w)%float, (0.5 * double_of_Z h)%float).

(** The first loop over the cells of a board: the number of defined corners. *)
Definition count_points (b : CheckerBoard) : N :=
  foldl (fun count '(i, j) =>
           if cell b i j =? UndefinedIndexT then count else wrap_size_t (count + 1))
        0 (cell_indices b).

(** What the loop over the boards carries from one board to the next. *)
Record LoopState := mkLoop {
  scene : SfMData;
  localSquareSize : double;
  idx_checkerboard_valid : N
}.

(** The second loop over the cells: one landmark with one observation per
    defined corner, and the two point lists given to the pose estimation. *)
Definition add_corner (pinhole : Pinhole.t) (corners : list CheckerBoardCorner)
    (useSimplePinhole : bool) (b : CheckerBoard) (cx cy : double) (st : LoopState)
    (acc : gmap N Landmark * list Vec3 * list Vec2) (ij : nat * nat)
    : option (gmap N Landmark * list Vec3 * list Vec2) :=
  let '(lms, refpts, points) := acc in
  let '(i, j) := ij in
  let cid := cell b i j in
  if cid =? UndefinedIndexT then Some acc
  else
    let refpt : Vec3 :=
      (((double_of_N (N.of_nat j) - cx) * localSquareSize st)%float,
       ((double_of_N (N.of_nat i) - cy) * localSquareSize st)%float,
       0%float) in
    let pos := N.of_nat (size lms) in
    (* Undistort image prior to compute everything *)
    c ← corner_at corners cid;
    let curpt := get_ud_pixel pinhole (corner_center c) in
    let campt := removeDistortion pinhole (ima2cam pinhole (corner_center c)) in
    let scale :=
      std_max 0x1.999999999999ap-2 (std_max (abs (fst campt)) (abs (snd campt))) in
    (* Add observation *)
    let nobs := if useSimplePinhole then curpt else corner_center c in
    let obs := mkObservation nobs (wrap_IndexT pos) (1 / scale)%float in
    let l := mkLandmark refpt SIFT
               (<[wrap_IndexT (idx_checkerboard_valid st) := obs]> ∅) in
    Some (<[wrap_IndexT pos := l]> lms, refpts ++ [refpt], points ++ [curpt]).

(** How one iteration of the loop over the boards ends. *)
Inductive Step :=
  | Continue (st : LoopState)      (* [continue], or the end of the body *)
  | ReturnFalse (s : SfMData)      (* [return false] *)
  | UndefinedRead.                 (* a read past the end of [corners] *)

(** The landmarks after the second loop over the cells of [board], and the
    lists [refpts] and [points]. *)
Definition board_points (pinhole : Pinhole.t) (corners : list CheckerBoardCorner)
    (useSimplePinhole : bool) (st : LoopState) (board : CheckerBoard)
    : option (gmap N Landmark * list Vec3 * list Vec2) :=
  let cx := double_of_N (N.of_nat (cols board) / 2) in
  let cy := double_of_N (N.of_nat (rows board) / 2) in
  fold_defined (add_corner pinhole corners useSimplePinhole board cx cy st)
               (landmarks (scene st), [], []) (cell_indices board).

(** The end of the body, once the pose estimation has enough inliers: the
    pose and the fake view are stored under the acceptance index, which
    advances, and the square size is updated. *)
Definition accept_board (view : View.t) (st : LoopState) (lms : gmap N Landmark)
    (model : Mat34) : LoopState :=
  let s1 := set_landmarks lms (scene st) in
  let '(_, R, t) := KRt_from_P model in
  (* Create pose *)
  let newPose := mkCameraPose (mkPose3 R (opp_transpose_mul R t)) false in
  let idx := wrap_IndexT (idx_checkerboard_valid st) in
  let s2 := set_poses (<[idx := newPose]> (poses s1)) s1 in
  (* Create new fake view *)
  let newView := View.setPoseId idx (View.setViewId idx view) in
  let s3 := set_views (<[idx := newView]> (views s2)) s2 in
  let size' := if idx_checkerboard_valid st <? 2
               then (localSquareSize st * 2)%float else localSquareSize st in
  mkLoop s3 size' (wrap_size_t (idx_checkerboard_valid st + 1)).

(** The body of [for (idx_checkerboard = 0; idx_checkerboard < boards.size(); ...)]. *)
Definition board_step (view : View.t) (pinhole : Pinhole.t)
    (corners : list CheckerBoardCorner) (useSimplePinhole : bool)
    (st : LoopState) (board : CheckerBoard) : Step :=
  if count_points board <? 30 then Continue st
  else
    match board_points pinhole corners useSimplePinhole st board with
    | None => UndefinedRead
    | Some (lms, refpts, points) =>
        (* since K calibration matrix is known, compute only [R|t] *)
        let '(vec_inliers, model) :=
          ACRANSAC_resection points refpts (Pinhole.K pinhole) in
        if (length vec_inliers <? 10)%nat then ReturnFalse (set_landmarks lms (scene st))
        else Continue (accept_board view st lms model)
    end.

(** The inliers of the pose estimation of [board] in state [st]. *)
Definition board_inliers (pinhole : Pinhole.t) (corners : list CheckerBoardCorner)
    (useSimplePinhole : bool) (st : LoopState) (board : CheckerBoard)
    : option (list nat) :=
  '(_, refpts, points) ← board_points pinhole corners useSimplePinhole st board;
  Some (ACRANSAC_resection points refpts (Pinhole.K pinhole)).1.

(** The pose stored for [board] when it is accepted in state [st]. *)
Definition estimated_pose (pinhole : Pinhole.t) (corners : list CheckerBoardCorner)
    (useSimplePinhole : bool) (st : LoopState) (board : CheckerBoard)
    : option CameraPose :=
  '(_, refpts, points) ← board_points pinhole corners useSimplePinhole st board;
  let '(_, R, t) :=
    KRt_from_P (ACRANSAC_resection points refpts (Pinhole.K pinhole)).2 in
  Some (mkCameraPose (mkPose3 R (opp_transpose_mul R t)) false).

(** The loop over the sorted boards; it stops at the first [return false]. *)
Fixpoint boards_loop (view : View.t) (pinhole : Pinhole.t)
    (corners : list CheckerBoardCorner) (useSimplePinhole : bool)
    (boards : list CheckerBoard) (st : LoopState) : Step :=
  match boards with
  | [] => Continue st
  | board :: rest =>
      match board_step view pinhole corners useSimplePinhole st board with
      | Continue st' => boards_loop view pinhole corners useSimplePinhole rest st'
      | ReturnFalse s => ReturnFalse s
      | UndefinedRead => UndefinedRead
      end
  end.

(** The state in which the loop over the boards starts. *)
Definition loop_start (s : SfMData) : LoopState := mkLoop s 0.25 0.

(** A board is accepted when it has at least 30 defined corners. *)
Definition accepted (board : CheckerBoard) : bool := negb (count_points board <? 30).

(** The square size in use once [n] boards have been accepted:
    0.25, 0.5, 1, 1, 1, ... *)
Definition size_after (n : nat) : double :=
  match n with O => 0.25 | 1%nat => 0.5 | _ => 1 end%float.

(** The options of both refinements of [process_innerGrids]. *)
Definition innerGrids_boptions : list ERefineOptions :=
  [REFINE_ROTATION; REFINE_TRANSLATION; REFINE_INTRINSICS_DISTORTION].

(** The rewrite of one observation in the simple-pinhole branch. *)
Definition equalize_observation (pinhole : Pinhole.t) (scale : Vec2) (o : Observation)
    : Observation :=
  let y := ((snd (obs_x o) - snd (getPrincipalPoint pinhole)) / snd scale)%float in
  let ny := (y * fst scale + snd (getPrincipalPoint pinhole))%float in
  mkObservation (fst (obs_x o), ny) (id_feat o) (obs_scale o).

(** The block [if (useSimplePinhole) { ... }] after the first refinement, up to
    [pinhole->setScale(scale)]: the vertical scale is made equal to the
    horizontal one and the observations follow. *)
Definition equalize_vertical_scale (pinhole : Pinhole.t) (lms : gmap N Landmark)
    : Pinhole.t * gmap N Landmark :=
  let pinhole := Pinhole.setRatioLocked true pinhole in
  let scale := Pinhole.scale pinhole in
  let lms' :=
    (fun l => mkLandmark (X l) (descType l)
                (equalize_observation pinhole scale <$> observations l)) <$> lms in
  let scale' := (fst scale, fst scale) in
  (Pinhole.setScale scale' pinhole, lms').

(** The end of [process_innerGrids]: one view and one pose are kept. *)
Definition finalize (viewId : N) (view : View.t) (s : SfMData) : SfMData :=
  let vs := <[viewId := view]> ∅ in
  let cp := default default_CameraPose (poses s !! 0) in
  let ps := <[viewId := cp]> ∅ in
  set_poses ps (set_views vs s).

(** The scene given to the first refinement: the one the loop over the boards
    left, with [setOffset] and [setDistortionObject] applied to the intrinsic
    in the simple-pinhole case. *)
Definition before_refinement (intrinsicId : N) (pinhole : Pinhole.t)
    (useSimplePinhole : bool) (s1 : SfMData) : SfMData :=
  if useSimplePinhole then
    put_pinhole intrinsicId
      (Pinhole.setDistortionObject None (Pinhole.setOffset (0, 0)%float pinhole)) s1
  else s1.

(** The scene given to the second refinement, in the simple-pinhole case:
    [pinhole] still points to the intrinsic stored under [intrinsicId], with
    the parameters the first refinement left. *)
Definition between_refinements (intrinsicId : N) (s3 : SfMData) : SfMData :=
  match pinhole_at s3 intrinsicId with
  | Some p =>
      let '(p', lms) := equalize_vertical_scale p (landmarks s3) in
      put_pinhole intrinsicId p' (set_landmarks lms s3)
  | None => s3
  end.

(** [process_innerGrids] from the end of the loop over the boards on. *)
Definition refine_and_finalize (viewId : N) (view : View.t) (intrinsicId : N)
    (pinhole : Pinhole.t) (distance : double) (useSimplePinhole : bool)
    (st : LoopState) : bool * SfMData :=
  let s2 := before_refinement intrinsicId pinhole useSimplePinhole (scene st) in
  (* Compute non linear refinement *)
  let '(ok, s3) := adjust (Some distance) innerGrids_boptions s2 in
  if negb ok then (false, s3)  (* Failed to calibrate *)
  else if useSimplePinhole then
    let s4 := between_refinements intrinsicId s3 in
    let '(ok', s5) := adjust (Some distance) innerGrids_boptions s4 in
    if negb ok' then (false, s5)
    else (true, finalize viewId view s5)
  else (true, finalize viewId view s3).

(** What [process_innerGrids] returns, by the way the loop over the boards
    ends. *)
Definition after_boards (viewId : N) (view : View.t) (intrinsicId : N)
    (pinhole : Pinhole.t) (distance : double) (useSimplePinhole : bool)
    (r : Step) : option (bool * SfMData) :=
  match r with
  | ReturnFalse s => Some (false, s)    (* Impossible to find pose *)
  | UndefinedRead => None
  | Continue st =>
      Some (refine_and_finalize viewId view intrinsicId pinhole distance
              useSimplePinhole st)
  end.

(** [process_innerGrids(sfmData, boardsAllImages, squareSize, distance,
    useSimplePinhole)]: the returned flag and the scene as it is left, [None]
    when the behaviour is undefined.  [sfmData.getViews()[viewId]] of a view
    that is absent is a null pointer, whose use is undefined. *)
Definition process_innerGrids (sfmData : SfMData)
    (boardsAllImages : gmap N CheckerDetector) (squareSize distance : double)
    (useSimplePinhole : bool) : option (bool * SfMData) :=
  match items boardsAllImages with
  | [(viewId, detector)] =>
      let s0 := set_poses ∅ (set_landmarks ∅ sfmData) in
      view ← views s0 !! viewId;
      let intrinsicId := View.intrinsicId view in
      match intrinsics s0 !! intrinsicId with
      | None => Some (false, s0)                  (* Intrinsic not found *)
      | Some camera =>
      match as_pinhole (Some camera) with
      | None => Some (false, s0)                  (* Intrinsic is not a pinhole *)
      | Some pinhole =>
          let center := image_center view in
          let boards := getBoards detector in
          if (length boards <? 1)%nat then Some (false, s0)
          else
            let corners := getCorners detector in
            boards ← sort_boards corners center boards;
            after_boards viewId view intrinsicId pinhole distance useSimplePinhole
              (boards_loop view pinhole corners useSimplePinhole boards (loop_start s0))
      end
      end
  | _ => Some (false, sfmData)                    (* Only works with one view *)
  end.

End Calibration.

Section Calibration_basic.
Context `{!Numerics, !Camera, !Multiview, !Refinement}.

(** *** process_basic *)

(** [EXIT_FAILURE] of <cstdlib>, and the conversion of an [int] to [bool]. *)
Definition EXIT_FAILURE : Z := 1.
Definition bool_of_int (z : Z) : bool := negb (z =? 0)%Z.

(** What the loop over the views of one intrinsic builds. *)
Record Gathered := mkGathered {
  max_checkerboard_w : N;
  max_checkerboard_h : N;
  homographies : gmap N Mat3
}.

(** The point lists of one board: (meter to undistorted pixels). *)
Definition homography_points (cameraPinhole : Pinhole.t) (detector : CheckerDetector)
    (squareSize : double) (b : CheckerBoard) : option (list Vec2 * list Vec2) :=
  fold_defined (fun '(refpts, points) '(i, j) =>
                  let cid := cell b i j in
                  if cid =? UndefinedIndexT then Some (refpts, points)
                  else
                    let refpt : Vec2 :=
                      ((double_of_N (N.of_nat j) * squareSize)%float,
                       (double_of_N (N.of_nat i) * squareSize)%float) in
                    c ← corner_at (getCorners detector) cid;
                    let curpt := get_ud_pixel cameraPinhole (corner_center c) in
                    Some (refpts ++ [refpt], points ++ [curpt]))
               ([], []) (cell_indices b).

(** The body of [for (auto& pv : sfmData.getViews())]. *)
Definition gather_view (cameraPinhole : Pinhole.t)
    (boardsAllImages : gmap N CheckerDetector) (squareSize : double)
    (intrinsicId : N) (g : Gathered) (pv : N * View.t) : option Gathered :=
  if decide (View.intrinsicId pv.2 = intrinsicId) then
    let detector := default default_CheckerDetector (boardsAllImages !! pv.1) in
    match getBoards detector with
    | [b] =>
        let max_w := N.max (N.of_nat (cols b)) (max_checkerboard_w g) in
        let max_h := N.max (N.of_nat (rows b)) (max_checkerboard_h g) in
        '(refpts, points) ← homography_points cameraPinhole detector squareSize b;
        (* Estimate homography from this list of points *)
        let '(vec_inliers, H) :=
          ACRANSAC_homography refpts points (Pinhole.w cameraPinhole)
            (Pinhole.h cameraPinhole) in
        if (length vec_inliers <? 10)%nat
        then Some (mkGathered max_w max_h (homographies g))
        else Some (mkGathered max_w max_h (<[pv.1 := H]> (homographies g)))
    | _ => Some g    (* The view has either 0 or more than 1 checkerboard found. *)
    end
  else Some g.

(** The robust homography fit of the view [viewId], when its detection has
    exactly one board and the corners of the board are read within the corner
    list: the inliers and the homography. *)
Definition view_fit (cameraPinhole : Pinhole.t)
    (boardsAllImages : gmap N CheckerDetector) (squareSize : double) (viewId : N)
    : option (list nat * Mat3) :=
  let detector := default default_CheckerDetector (boardsAllImages !! viewId) in
  match getBoards detector with
  | [b] =>
      '(refpts, points) ← homography_points cameraPinhole detector squareSize b;
      Some (ACRANSAC_homography refpts points (Pinhole.w cameraPinhole)
              (Pinhole.h cameraPinhole))
  | _ => None
  end.

(** The homography a view contributes to the solve of [intrinsicId], if any. *)
Definition view_homography (cameraPinhole : Pinhole.t)
    (boardsAllImages : gmap N CheckerDetector) (squareSize : double)
    (intrinsicId : N) (pv : N * View.t) : option Mat3 :=
  if decide (View.intrinsicId pv.2 = intrinsicId) then
    match view_fit cameraPinhole boardsAllImages squareSize pv.1 with
    | Some (vec_inliers, H) => if (length vec_inliers <? 10)%nat then None else Some H
    | None => None
    end
  else None.

Definition gather_homographies (cameraPinhole : Pinhole.t) (sfmData : SfMData)
    (boardsAllImages : gmap N CheckerDetector) (squareSize : double)
    (intrinsicId : N) : option Gathered :=
  fold_defined (gather_view cameraPinhole boardsAllImages squareSize intrinsicId)
               (mkGathered 0 0 ∅) (items (views sfmData)).

(** The rows of the matrix [V] of Zhang's algorithm, two per homography. *)
Definition zhang_V (homographies : gmap N Mat3) : list Vec6 :=
  pH ← items homographies;
  [computeV pH.2 0 1; vec6_sub (computeV pH.2 0 0) (computeV pH.2 1 1)].

(** The symmetric matrix [B] filled from the vector [n]. *)
Definition zhang_B (n : Vec6) : Mat3 :=
  let '(n0, n1, n2, n3, n4, n5) := n in
  ((n0, n1, n3), (n1, n2, n4), (n3, n4, n5)).

(** Extract intrinsics from B *)
Definition zhang_A (B : Mat3) : Mat3 :=
  let B00 := mat3_at B 0 0 in
  let B01 := mat3_at B 0 1 in
  let B02 := mat3_at B 0 2 in
  let B11 := mat3_at B 1 1 in
  let B12 := mat3_at B 1 2 in
  let B22 := mat3_at B 2 2 in
  (let v0 := (B01 * B02 - B00 * B12) / (B00 * B11 - B01 * B01) in
   let lambda := B22 - (B02 * B02 + v0 * (B01 * B02 - B00 * B12)) / B00 in
   let alpha := sqrt (lambda / B00) in
   let beta := sqrt (lambda * B00 / (B00 * B11 - B01 * B01)) in
   let gamma := - B01 * alpha * alpha * beta / lambda in
   let u0 := (gamma * v0 / beta) - (B02 * alpha * alpha / lambda) in
   ((alpha, gamma, u0), (0, beta, v0), (0, 0, 1)))%float.

(** From the homographies to [cameraPinhole->setK(A)]: the matrix [A] and the
    scene with the intrinsic updated. *)
Definition solve_intrinsic (intrinsicId : N) (cameraPinhole : Pinhole.t)
    (homographies : gmap N Mat3) (s : SfMData) : Mat3 * Pinhole.t * SfMData :=
  let V := zhang_V homographies in
  let n := svd_last_V_column V in
  let B := zhang_B n in
  let A := zhang_A B in
  (* Initialize camera intrinsics *)
  let cameraPinhole := Pinhole.setK A cameraPinhole in
  (A, cameraPinhole, put_pinhole intrinsicId cameraPinhole s).

(** What the loop over the intrinsics carries. *)
Record BasicState := mkBasic {
  basic_scene : SfMData;
  indices : list (list N);
  global_max_checkerboard_w : N;
  global_max_checkerboard_h : N;
  first : bool
}.

(** Create landmarks: [indices] and one landmark per cell of the largest board. *)
Definition create_landmarks (squareSize : double) (max_h max_w : N)
    (lms : gmap N Landmark) : list (list N) * gmap N Landmark :=
  let idx (i j : nat) : N := wrap_IndexT (N.of_nat i * max_w + N.of_nat j) in
  let ind := (fun i => (fun j => idx i j) <$> seq 0 (N.to_nat max_w))
               <$> seq 0 (N.to_nat max_h) in
  let lms' :=
    foldl (fun (m : gmap N Landmark) '(i, j) =>
             <[idx i j :=
                 mkLandmark ((squareSize * double_of_N (N.of_nat j))%float,
                             (squareSize * double_of_N (N.of_nat i))%float,
                             0%float) SIFT ∅]> m)
          lms (i ← seq 0 (N.to_nat max_h); j ← seq 0 (N.to_nat max_w); [(i, j)]) in
  (ind, lms').

(** Initialize poses for each view using linear method *)
Definition linear_pose (A : Mat3) (H : Mat3) : CameraPose :=
  let Ainv := inverse A in
  let tlambda := (1 / norm3 (mat3_mul_vec Ainv (mat3_col H 1)))%float in
  let T3 := mat3_mul_vec (mat3_scale tlambda Ainv) (mat3_col H 2) in
  let tlambda := if (vec3_at T3 2 <? 0)%float then (tlambda * -1)%float else tlambda in
  let T3 := mat3_mul_vec (mat3_scale tlambda Ainv) (mat3_col H 2) in
  let M0 := mat3_mul_vec (mat3_scale tlambda Ainv) (mat3_col H 0) in
  let M1 := mat3_mul_vec (mat3_scale tlambda Ainv) (mat3_col H 1) in
  let M2 := cross M0 M1 in
  let Rot := svd_U_Vt (mat3_of_cols M0 M1 M2) in
  mkCameraPose (Pose3_of_Rt Rot T3) false.

Definition init_poses (A : Mat3) (homographies : gmap N Mat3) (s : SfMData) : SfMData :=
  foldl (fun s pH =>
           set_poses (<[wrap_IndexT pH.1 := linear_pose A pH.2]> (poses s)) s)
        s (items homographies).

(** Get residuals: the observations of the corners of each view with a
    homography are attached to the landmarks. *)
Definition add_view_observations (boardsAllImages : gmap N CheckerDetector)
    (ind : list (list N)) (lms : gmap N Landmark) (viewId : N)
    : option (gmap N Landmark) :=
  let detector := default default_CheckerDetector (boardsAllImages !! viewId) in
  match getBoards detector with
  | b :: _ =>
      fold_defined (fun (m : gmap N Landmark) '(i, j) =>
                      let idxlandmark := cell ind i j in
                      if idxlandmark =? UndefinedIndexT then Some m
                      else
                        let idxcorner := cell b i j in
                        if idxcorner =? UndefinedIndexT then Some m
                        else
                          c ← corner_at (getCorners detector) idxcorner;
                          let p := corner_center c in
                          (* Add observation *)
                          let obs := mkObservation p idxlandmark 1 in
                          let l := default default_Landmark (m !! idxlandmark) in
                          Some (<[idxlandmark :=
                                    mkLandmark (X l) (descType l)
                                      (<[wrap_IndexT viewId := obs]> (observations l))]> m))
                   lms (cell_indices b)
  | [] => None      (* [bs[0]] of an empty vector *)
  end.

Definition add_observations (boardsAllImages : gmap N CheckerDetector)
    (ind : list (list N)) (homographies : gmap N Mat3) (s : SfMData) : option SfMData :=
  lms ← fold_defined (fun m pH => add_view_observations boardsAllImages ind m pH.1)
                     (landmarks s) (items homographies);
  Some (set_landmarks lms s).

Definition basic_boptions : list ERefineOptions :=
  [REFINE_ROTATION; REFINE_TRANSLATION; REFINE_INTRINSICS_ALL].

(** How one iteration of the loop over the intrinsics ends. *)
Inductive BasicStep :=
  | NextIntrinsic (st : BasicState)
  | BasicReturnFalse (s : SfMData)
  | BasicUndefined.                (* a read past the end of a vector *)

(** The body of [for (auto& pi : sfmData.getIntrinsics())]. *)
Definition intrinsic_step (boardsAllImages : gmap N CheckerDetector)
    (squareSize : double) (st : BasicState) (intrinsicId : N) : BasicStep :=
  let s := basic_scene st in
  (* Convert to pinhole *)
  match pinhole_at s intrinsicId with
  | None => BasicReturnFalse s                (* Only work for pinhole cameras *)
  | Some cameraPinhole =>
      match gather_homographies cameraPinhole s boardsAllImages squareSize intrinsicId with
      | None => BasicUndefined
      | Some g =>
      (* Now we use algorithm from Zhang *)
      let '(A, cameraPinhole, s1) :=
        solve_intrinsic intrinsicId cameraPinhole (homographies g) s in
      let sized :=
        if first st then
          let '(ind, lms) :=
            create_landmarks squareSize (max_checkerboard_h g) (max_checkerboard_w g)
              (landmarks s1) in
          Some (mkBasic (set_landmarks lms s1) ind
                  (max_checkerboard_w g) (max_checkerboard_h g) false)
        else if negb (global_max_checkerboard_h st =? max_checkerboard_h g)
                || negb (global_max_checkerboard_w st =? max_checkerboard_w g)
        then None                               (* Inconsistent checkerboard size *)
        else Some (mkBasic s1 (indices st) (global_max_checkerboard_w st)
                     (global_max_checkerboard_h st) false) in
      match sized with
      | None => BasicReturnFalse s1
      | Some st1 =>
          let s2 := init_poses A (homographies g) (basic_scene st1) in
          match add_observations boardsAllImages (indices st1) (homographies g) s2 with
          | None => BasicUndefined
          | Some s3 =>
              (* Compute non linear refinement *)
              let '(ok, s4) := adjust None basic_boptions s3 in
              if negb ok then BasicReturnFalse s4   (* Failed to calibrate *)
              else NextIntrinsic (mkBasic s4 (indices st1) (global_max_checkerboard_w st1)
                                    (global_max_checkerboard_h st1) (first st1))
          end
      end
      end
  end.

Fixpoint intrinsics_loop (boardsAllImages : gmap N CheckerDetector)
    (squareSize : double) (ids : list N) (st : BasicState) : option (bool * SfMData) :=
  match ids with
  | [] => Some (true, basic_scene st)
  | intrinsicId :: rest =>
      match intrinsic_step boardsAllImages squareSize st intrinsicId with
      | NextIntrinsic st' => intrinsics_loop boardsAllImages squareSize rest st'
      | BasicReturnFalse s => Some (false, s)
      | BasicUndefined => None
      end
  end.

(** [process_basic(sfmData, boardsAllImages, squareSize)]: the returned [bool]
    and the scene as it is left, [None] when the behaviour is undefined. *)
Definition process_basic (sfmData : SfMData)
    (boardsAllImages : gmap N CheckerDetector) (squareSize : double)
    : option (bool * SfMData) :=
  if (size boardsAllImages <? 2)%nat then
    (* At least 2 views are needed *)
    Some (bool_of_int EXIT_FAILURE, sfmData)
  else
    (* Calibrate each intrinsic independently *)
    intrinsics_loop boardsAllImages squareSize
      ((items (intrinsics sfmData)).*1)
      (mkBasic sfmData [] 0 0 true).

End Calibration_basic.

(** *** aliceVision_main of the calibration program *)

Module IntrinsicsCalibration.
Section Program.
Context `{!Numerics, !Camera, !Multiview, !Refinement, !Algorithm}.

Definition EXIT_SUCCESS : Z := 0.

(** What reading [checkers_<viewId>.json] gives: the file cannot be opened;
    it is opened and [boost::json::parse] or [value_to] throws; or it holds a
    detector. *)
Inductive FileRead :=
  | NotOpened
  | ParseError
  | Parsed (detector : CheckerDetector).

(** The body of the loop that loads the checkerboards. *)
Definition load_view (read : N -> FileRead) (boardsAllImages : gmap N CheckerDetector)
    (pv : N * View.t) : Run (gmap N CheckerDetector) :=
  let viewId := pv.1 in
  (* Read the json file *)
  match read viewId with
  | NotOpened => Done boardsAllImages
  | ParseError => Throws
  | Parsed detector =>
      (* Store the checkerboard *)
      Done (<[viewId := detector]> boardsAllImages)
  end.

(** Load the checkerboards; the views are visited in the order of their ids. *)
Definition load_checkerboards (read : N -> FileRead) (sfmData : SfMData)
    : Run (gmap N CheckerDetector) :=
  foldM (load_view read) ∅ (items (views sfmData)).

Definition useBetaFeatureInnerGrids : bool := true.

(** A call whose behaviour can be undefined, within the program. *)
Definition defined {A} (r : option A) : Run A :=
  match r with Some a => Done a | None => Undefined end.

(** [aliceVision_main] from "Load sfmData from disk" on, the command line
    being parsed: [loaded] is what [sfmDataIO::Load] read ([None] when it
    fails) and [save] is [sfmDataIO::Save].  The result is the exit code. *)
Definition aliceVision_main (loaded : option SfMData) (read : N -> FileRead)
    (save : SfMData -> bool) (squareSize distance : double) (useSimplePinhole : bool)
    : Run Z :=
  match loaded with
  | None => Done EXIT_FAILURE
  | Some sfmData =>
      boardsAllImages ← load_checkerboards read sfmData;
      r ← defined (if useBetaFeatureInnerGrids
                   then process_innerGrids sfmData boardsAllImages squareSize distance
                          useSimplePinhole
                   else process_basic sfmData boardsAllImages squareSize);
      if negb r.1 then Done EXIT_FAILURE
      else if negb (save r.2) then Done EXIT_FAILURE
      else Done EXIT_SUCCESS
  end.

End Program.
End IntrinsicsCalibration.

(** *** Notions used to state what the two calibration functions build *)

(** The cells of [b] that hold a corner, in the order of the two loops. *)
Definition holds_corner (b : CheckerBoard) (ij : nat * nat) : Prop :=
  cell b ij.1 ij.2 <> UndefinedIndexT.
#[global] Instance holds_corner_dec b ij : Decision (holds_corner b ij).
Proof. unfold holds_corner. apply _. Defined.
Definition defined_cells (b : CheckerBoard) : list (nat * nat) :=
  filter (holds_corner b) (cell_indices b).

(** Every read [corners[cid]] in a loop over the cells of [b] is within the
    vector. *)
Definition reads_defined (corners : list CheckerBoardCorner) (b : CheckerBoard) : Prop :=
  forall ij, ij ∈ defined_cells b -> is_Some (corner_at corners (cell b ij.1 ij.2)).

(** [m] is the least distance from a defined corner of [b] to [center], or
    [DBL_MAX] if that is less: no defined corner is nearer than [m], [m] is
    not above [DBL_MAX], and [m] is [DBL_MAX] or the distance of a defined
    corner. *)
Definition least_distance `{!Numerics} (corners : list CheckerBoardCorner) (center : Vec2)
    (b : CheckerBoard) (m : double) : Prop :=
  (forall ij c, ij ∈ defined_cells b ->
     corner_at corners (cell b ij.1 ij.2) = Some c ->
     (norm2 (vec2_sub (corner_center c) center) <? m)%float = false) /\
  (DBL_MAX <? m)%float = false /\
  (m = DBL_MAX \/
   exists ij c, ij ∈ defined_cells b /\
     corner_at corners (cell b ij.1 ij.2) = Some c /\
     m = norm2 (vec2_sub (corner_center c) center)).

(** The two conditions on the corners of a board as checks that can be run:
    every corner id is within the corner list, and no distance to [center] is
    a NaN. *)
Definition reads_defined_check (corners : list CheckerBoardCorner) (b : CheckerBoard)
    : bool :=
  forallb (fun ij => bool_decide (is_Some (corner_at corners (cell b ij.1 ij.2))))
          (defined_cells b).
Definition distances_check `{!Numerics} (corners : list CheckerBoardCorner) (center : Vec2)
    (b : CheckerBoard) : bool :=
  forallb (fun ij =>
             match corner_at corners (cell b ij.1 ij.2) with
             | Some c => negb (PrimFloat.is_nan (norm2 (vec2_sub (corner_center c) center)))
             | None => true
             end)
          (defined_cells b).

(** The keys of [m] are [0 .. size m - 1]. *)
Definition dense {A} (m : gmap N A) : Prop :=
  forall k, is_Some (m !! k) <-> k < N.of_nat (size m).

(** Every landmark has the descriptor type SIFT and exactly one observation:
    of the feature with the landmark's own id, in a fake view below [n]. *)
Definition observed_once (n : N) (lms : gmap N Landmark) : Prop :=
  forall k lm, lms !! k = Some lm ->
    descType lm = SIFT /\
    exists idx o, observations lm = {[idx := o]} /\ idx < n /\ id_feat o = k.

(** The read [indices(i, j)] is within the matrix [ind]; [ind] is a matrix of
    [h] rows and [w] columns. *)
Definition in_bounds (ind : list (list N)) (i j : nat) : Prop :=
  exists r, ind !! i = Some r /\ (j < length r)%nat.

Definition indices_sized (ind : list (list N)) (h w : N) : Prop :=
  length ind = N.to_nat h /\ Forall (fun r => length r = N.to_nat w) ind.

(** Once the first intrinsic is done, the matrix [indices] of the loop of
    [process_basic] has the size recorded with it. *)
Definition indices_recorded (st : BasicState) : Prop :=
  first st = false ->
  indices_sized (indices st) (global_max_checkerboard_h st) (global_max_checkerboard_w st).

(** ** estimatePairAngle (SfM bootstraping) *)

(** [sfm::ReconstructedPair], [track::TrackItem] and [track::Track] (their
    headers are not among the sources), with the fields the function reads. *)

Record ReconstructedPair := mkPair {
  reference : N; next : N; pair_R : Mat3; pair_t : Vec3
}.
Record TrackItem := mkTrackItem { featureId : N; coords : Vec2 }.
Record Track := mkTrack { featPerView : gmap N TrackItem }.

(** [track::getCommonTracksInImagesFast(viewIds, tracksMap, tracksPerView,
    mapTracksCommon)]: the tracks of [tracksMap] seen in every view of [viewIds]. *)
Class Tracks := {
  getCommonTracksInImagesFast :
    list N -> gmap N Track -> gmap N (list N) -> gmap N Track
}.

Section PairAngle.
Context `{!Numerics, !Camera, !Multiview, !Tracks}.

(** What is fixed before the loop over the common tracks. *)
Record PairGeometry := mkGeometry {
  geo_refPinhole : Pinhole.t; geo_nextPinhole : Pinhole.t;
  geo_F : Mat3; geo_c : Vec3; geo_P1 : Mat34; geo_P2 : Mat34
}.

Definition pair_geometry (refPinhole nextPinhole : Pinhole.t) (pair : ReconstructedPair)
    : PairGeometry :=
  let Kref := Pinhole.K refPinhole in
  let Knext := Pinhole.K nextPinhole in
  let F := mat3_mul
             (mat3_mul
                (mat3_mul (mat3_transpose (inverse Knext)) (CrossProductMatrix (pair_t pair)))
                (pair_R pair))
             (inverse Kref) in
  let c := opp_transpose_mul (pair_R pair) (pair_t pair) in
  mkGeometry refPinhole nextPinhole F c
    (P_from_KRt Kref Identity3 (0, 0, 0)%float)
    (P_from_KRt Knext (pair_R pair) (pair_t pair)).

(** The undistorted points of a track in the two views. *)
Definition undistorted (g : PairGeometry) (refItem nextItem : TrackItem) : Vec2 * Vec2 :=
  (get_ud_pixel (geo_refPinhole g) (coords refItem),
   get_ud_pixel (geo_nextPinhole g) (coords nextItem)).

(** [distance]: the next point against the normalized epipolar line. *)
Definition epipolar_distance (g : PairGeometry) (refItem nextItem : TrackItem) : double :=
  let '(refptu, nextptu) := undistorted g refItem nextItem in
  let line := mat3_mul_vec (geo_F g) (homogeneous refptu) in
  (* Make sure line normal is normalized *)
  let line := vec3_scale line (1 / norm2 (vec3_at line 0, vec3_at line 1))%float in
  dot3 (homogeneous nextptu) line.

Definition triangulated (g : PairGeometry) (refItem nextItem : TrackItem) : Vec3 :=
  let '(refptu, nextptu) := undistorted g refItem nextItem in
  TriangulateDLT (geo_P1 g) refptu (geo_P2 g) nextptu.

Definition ray_angle (g : PairGeometry) (X : Vec3) : double :=
  let ray1 := vec3_opp X in
  let ray2 := vec3_sub (geo_c g) X in
  let cangle := clamp (dot3 (normalized ray1) (normalized ray2)) (-1) 1 in
  acos cangle.

(** A track is kept when neither [continue] of the loop body is taken. *)
Definition kept (g : PairGeometry) (maxDistance : double) (refItem nextItem : TrackItem)
    : bool :=
  negb (maxDistance <? epipolar_distance g refItem nextItem)%float
  && negb (vec3_at (triangulated g refItem nextItem) 2 <? 0)%float.

(** The two tests in the words of the specification:
    [distance <= maxDistance] and [X(2) >= 0]. *)
Definition passes_filters (g : PairGeometry) (maxDistance : double)
    (refItem nextItem : TrackItem) : bool :=
  (epipolar_distance g refItem nextItem <=? maxDistance)%float
  && (0 <=? vec3_at (triangulated g refItem nextItem) 2)%float.

(** The body of the loop over the common tracks; [None] when
    [featPerView.at(...)] throws. *)
Definition track_step (g : PairGeometry) (pair : ReconstructedPair) (maxDistance : double)
    (acc : list double * list N) (commonItem : N * Track)
    : option (list double * list N) :=
  let '(angles, usedTracks) := acc in
  let track := commonItem.2 in
  refItem ← featPerView track !! reference pair;
  nextItem ← featPerView track !! next pair;
  let distance := epipolar_distance g refItem nextItem in
  if (maxDistance <? distance)%float then Some acc
  else
    let X := triangulated g refItem nextItem in
    if (vec3_at X 2 <? 0)%float then Some acc
    else
      (* [usedTracks] is a vector of [IndexT] *)
      Some (angles ++ [ray_angle g X], usedTracks ++ [wrap_IndexT commonItem.1]).

Fixpoint tracks_loop (g : PairGeometry) (pair : ReconstructedPair) (maxDistance : double)
    (commons : list (N * Track)) (acc : list double * list N)
    : option (list double * list N) :=
  match commons with
  | [] => Some acc
  | commonItem :: rest =>
      acc' ← track_step g pair maxDistance acc commonItem;
      tracks_loop g pair maxDistance rest acc'
  end.

(** The ids of the common tracks that are kept, in the order of the loop; in
    [usedTracks] they are narrowed to [IndexT]. *)
Definition kept_ids (g : PairGeometry) (pair : ReconstructedPair) (maxDistance : double)
    (commons : list (N * Track)) : list N :=
  commonItem ← commons;
  match featPerView commonItem.2 !! reference pair, featPerView commonItem.2 !! next pair with
  | Some refItem, Some nextItem =>
      if kept g maxDistance refItem nextItem then [commonItem.1] else []
  | _, _ => []
  end.

(** [const unsigned medianIndex = angles.size() / 2], [unsigned] having 32 bits *)
Definition medianIndex (angles : list double) : N :=
  wrap_IndexT (N.of_nat (length angles) / 2).

(** [angles[k]] after [std::nth_element(begin, begin + k, end)]: the element of
    rank [k]; [None] when [k] is past the end of the vector. *)
Definition nth_element_at (angles : list double) (k : N) : option double :=
  insertion_sort PrimFloat.ltb angles !! N.to_nat k.

(** How a call of [estimatePairAngle] ends: an exception of [getView] or
    [featPerView.at], or a return with the values of the two output
    parameters; [resultAngle] is [None] when it was assigned from a read past
    the end of [angles]. *)
Inductive Outcome :=
  | Thrown
  | Returned (ret : bool) (resultAngle : option double) (usedTracks : list N).

(** [estimatePairAngle(sfmData, pair, tracksMap, tracksPerView, maxDistance,
    resultAngle, usedTracks)] *)
Definition estimatePairAngle (sfmData : SfMData) (pair : ReconstructedPair)
    (tracksMap : gmap N Track) (tracksPerView : gmap N (list N))
    (maxDistance : double) (resultAngle : double) : Outcome :=
  match views sfmData !! reference pair, views sfmData !! next pair with
  | Some refView, Some nextView =>
      match pinhole_at sfmData (View.intrinsicId refView),
            pinhole_at sfmData (View.intrinsicId nextView) with
      | Some refPinhole, Some nextPinhole =>
          let mapTracksCommon :=
            getCommonTracksInImagesFast [reference pair; next pair]
              tracksMap tracksPerView in
          let g := pair_geometry refPinhole nextPinhole pair in
          match tracks_loop g pair maxDistance (items mapTracksCommon) ([], []) with
          | None => Thrown
          | Some (angles, usedTracks) =>
              Returned true (nth_element_at angles (medianIndex angles)) usedTracks
          end
      | _, _ => Returned false (Some resultAngle) []
      end
  | _, _ => Thrown
  end.

End PairAngle.

(** ** SfM bootstraping: computeScore and the choice of the pair *)

(** [(unsigned int)(d)], [unsigned int] having 32 bits: the fractional part is
    discarded; undefined ([None]) when the result is not an [unsigned int]. *)
Definition unsigned_of_double (d : double) : option N :=
  match Prim2SF d with
  | S754_zero _ => Some 0
  | S754_finite s m e =>
      let q := (if (0 <=? e)%Z then Z.pos m * 2 ^ e else Z.pos m / 2 ^ (- e))%Z in
      if s then (if (q =? 0)%Z then Some 0 else None)
      else if (q <? Z.of_N IndexT_modulus)%Z then Some (Z.to_N q) else None
  | S754_infinity _ | S754_nan => None
  end.

(** libm and aliceVision/numeric. *)
Class Math := {
  pow : double -> double -> double;
  radianToDegree : double -> double
}.

Section Score.
Context `{!Math}.

(** [tracksMap.at(trackId).featPerView.at(viewId).coords]; each [at] throws
    [std::out_of_range] on a key that is absent. *)
Definition track_point (tracksMap : gmap N Track) (trackId viewId : N) : Run Vec2 :=
  match tracksMap !! trackId with
  | None => Throws
  | Some track =>
      match featPerView track !! viewId with
      | None => Throws
      | Some item => Done (coords item)
      end
  end.

(** The body of the loop over [shift] for one point: the cell of the point at
    this level goes into [uniques[shift - 1]].  A shift of an [unsigned int]
    by 32 or more is undefined. *)
Definition insert_cell (ptx pty : N) (uniques : list (gset (N * N))) (shift : nat)
    : Run (list (gset (N * N))) :=
  if (32 <=? shift)%nat then Undefined
  else
    let lptx := N.shiftr ptx (N.of_nat shift) in
    let lpty := N.shiftr pty (N.of_nat shift) in
    Done (alter (fun s => {[(lptx, lpty)]} ∪ s) (shift - 1)%nat uniques).

(** The values of [shift] in [for (shift = 1; shift < maxLevel; shift++)]. *)
Definition levels (maxLevel : N) : list nat := seq 1 (N.to_nat maxLevel - 1).

(** The body of the loop over the used tracks. *)
Definition add_track (tracksMap : gmap N Track) (viewId maxLevel : N)
    (uniques : list (gset (N * N))) (trackId : N) : Run (list (gset (N * N))) :=
  pt ← track_point tracksMap trackId viewId;
  match unsigned_of_double (fst pt) with
  | None => Undefined
  | Some ptx =>
      match unsigned_of_double (snd pt) with
      | None => Undefined
      | Some pty => foldM (insert_cell ptx pty) uniques (levels maxLevel)
      end
  end.

(** The body of the second loop over [shift]. *)
Definition add_level (maxLevel : N) (uniques : list (gset (N * N))) (sum : double)
    (shift : nat) : double :=
  let size := int_of_size_t (N.of_nat (size (default ∅ (uniques !! (shift - 1)%nat)))) in
  if (size <=? 1)%Z then sum
  else
    let w := pow 2 (double_of_N (maxLevel - N.of_nat shift)) in
    (sum + w * double_of_N (Z.to_N size))%float.

(** [computeScore(tracksMap, usedTracks, viewId, maxLevel)].  With
    [maxLevel == 0] the vector [uniques] is asked for [SIZE_MAX] elements,
    which throws [std::length_error].  The counter [shift] has 32 bits: it is
    below every [maxLevel] from [2^32] on, so that the second loop goes on
    after [shift] has wrapped, which is undefined (a read at index
    [UINT_MAX] past the end of [uniques], or a loop without end).  A failing
    allocation is not modelled. *)
Definition computeScore (tracksMap : gmap N Track) (usedTracks : list N)
    (viewId maxLevel : N) : Run double :=
  if maxLevel =? 0 then Throws
  else
    uniques ← foldM (add_track tracksMap viewId maxLevel)
                (replicate (N.to_nat maxLevel - 1) ∅) usedTracks;
    if IndexT_modulus <=? maxLevel then Undefined
    else Done (foldl (add_level maxLevel uniques) 0%float (levels maxLevel)).

End Score.

(** *** The loop "Check all pairs" of aliceVision_main *)

Definition maxEpipolarDistance : double := 4.
Definition minAngle : double := 5.

(** [bestScore], [bestPair] and [bestUsedTracks]; [bestPair] is [None] as
    long as the loop has not assigned it. *)
Record Best := mkBest {
  bestScore : double;
  bestPair : option ReconstructedPair;
  bestUsedTracks : list N
}.

Definition no_best : Best := mkBest 0 None [].

Section Selection.
Context `{!Numerics, !Camera, !Multiview, !Tracks, !Math}.

(** The body of the loop.  [angle] is read from [angles[medianIndex]]: past
    the end of [angles] the read is undefined. *)
Definition select_step (sfmData : SfMData) (mapTracks : gmap N Track)
    (mapTracksPerView : gmap N (list N)) (best : Best) (pair : ReconstructedPair)
    : Run Best :=
  match estimatePairAngle sfmData pair mapTracks mapTracksPerView maxEpipolarDistance 0 with
  | Thrown => Throws
  | Returned false _ _ => Done best
  | Returned true None _ => Undefined
  | Returned true (Some angle) usedTracks =>
      if (radianToDegree angle <? minAngle)%float then Done best
      else
        refScore ← computeScore mapTracks usedTracks (reference pair) 16;
        nextScore ← computeScore mapTracks usedTracks (next pair) 16;
        let score := (std_min refScore nextScore * radianToDegree angle)%float in
        if (bestScore best <? score)%float
        then Done (mkBest score (Some pair) usedTracks)
        else Done best
  end.

Definition select_pair (sfmData : SfMData) (mapTracks : gmap N Track)
    (mapTracksPerView : gmap N (list N)) (reconstructedPairs : list ReconstructedPair)
    : Run Best :=
  foldM (select_step sfmData mapTracks mapTracksPerView) no_best reconstructedPairs.

(** The score the loop computes for a pair, when it gets that far. *)
Definition pair_score (sfmData : SfMData) (mapTracks : gmap N Track)
    (mapTracksPerView : gmap N (list N)) (pair : ReconstructedPair) : option double :=
  match estimatePairAngle sfmData pair mapTracks mapTracksPerView maxEpipolarDistance 0 with
  | Returned true (Some angle) usedTracks =>
      if (radianToDegree angle <? minAngle)%float then None
      else
        match computeScore mapTracks usedTracks (reference pair) 16,
              computeScore mapTracks usedTracks (next pair) 16 with
        | Done refScore, Done nextScore =>
            Some (std_min refScore nextScore * radianToDegree angle)%float
        | _, _ => None
        end
  | _ => None
  end.

(** [best] is what the loop holds after the pairs [seen]. *)
Definition best_of (sfmData : SfMData) (mapTracks : gmap N Track)
    (mapTracksPerView : gmap N (list N)) (seen : list ReconstructedPair) (best : Best)
    : Prop :=
  PrimFloat.is_nan (bestScore best) = false /\
  (forall pair s, pair ∈ seen ->
     pair_score sfmData mapTracks mapTracksPerView pair = Some s ->
     (bestScore best <? s)%float = false) /\
  match bestPair best with
  | None => best = no_best
  | Some chosen =>
      chosen ∈ seen /\
      pair_score sfmData mapTracks mapTracksPerView chosen = Some (bestScore best) /\
      (0 <? bestScore best)%float = true /\
      exists angle,
        estimatePairAngle sfmData chosen mapTracks mapTracksPerView maxEpipolarDistance 0
          = Returned true (Some angle) (bestUsedTracks best)
  end.

End Selection.

(** *** Notions used to state what computeScore computes *)

(** The pixel of a track in a view: its coordinates as [unsigned int]. *)
Definition track_pixel (tracksMap : gmap N Track) (viewId trackId : N) : option (N * N) :=
  track ← tracksMap !! trackId;
  item ← featPerView track !! viewId;
  ptx ← unsigned_of_double (fst (coords item));
  pty ← unsigned_of_double (snd (coords item));
  Some (ptx, pty).

Definition pixels (tracksMap : gmap N Track) (viewId : N) (usedTracks : list N)
    : list (N * N) :=
  omap (track_pixel tracksMap viewId) usedTracks.

(** The cell of a pixel at a level, and the cells a list of pixels occupies. *)
Definition cell_at (shift : nat) (p : N * N) : N * N :=
  (N.shiftr p.1 (N.of_nat shift), N.shiftr p.2 (N.of_nat shift)).

Definition cells (shift : nat) (pts : list (N * N)) : gset (N * N) :=
  list_to_set (cell_at shift <$> pts).

(** The weighted count of the occupied cells over the levels, a level with
    at most one occupied cell counting for nothing. *)
Definition cell_score `{!Math} (maxLevel : N) (pts : list (N * N)) : double :=
  foldl (fun sum shift =>
           let n := size (cells shift pts) in
           if (n <=? 1)%nat then sum
           else (sum + pow 2 (double_of_N (maxLevel - N.of_nat shift))
                       * double_of_N (N.of_nat n))%float)
    0%float (levels maxLevel).

(** ** The order of doubles, for the proofs *)

(** A non-NaN double is ranked by a triple of integers compared
    lexicographically: [<?] on doubles is the strict order of the ranks. *)
Definition sf_rank (f : spec_float) : Z * Z * Z :=
  match f with
  | S754_nan => (0, 0, 0)
  | S754_infinity true => (-2, 0, 0)
  | S754_infinity false => (2, 0, 0)
  | S754_zero _ => (0, 0, 0)
  | S754_finite true m e => (-1, - e, - Z.pos m)
  | S754_finite false m e => (1, e, Z.pos m)
  end%Z.

Definition lex_lt (a b : Z * Z * Z) : Prop :=
  let '(a1, a2, a3) := a in
  let '(b1, b2, b3) := b in
  (a1 < b1 \/ (a1 = b1 /\ (a2 < b2 \/ (a2 = b2 /\ a3 < b3))))%Z.

(** A zero or a finite number: what [PrimFloat.is_finite] tests. *)
Definition SF_is_finite (f : spec_float) : bool :=
  match f with S754_zero _ | S754_finite _ _ _ => true | _ => false end.

(** [p] shifted left by [k] bits, and the double that holds the positive
    integer [p] of at most 53 bits: the mantissa is [p] shifted to 53 bits. *)
Definition shl (k : nat) (p : positive) : positive := Nat.iter k xO p.

Definition SFint (p : positive) : spec_float :=
  S754_finite false (shl (53 - Pos.to_nat (digits2_pos p)) p) (Z.pos (digits2_pos p) - 53).

Definition SF_of_N (n : N) : spec_float :=
  match n with N0 => S754_zero false | Npos p => SFint p end.

(** ** Insertion sort meets the specification of std::sort *)

Section Sorting.
Context {A : Type} (less : A -> A -> bool).

Lemma sort_insert_perm (x : A) (l : list A) : sort_insert less x l ≡ₚ x :: l.
Proof.
  induction l as [|y l IH]; simpl; [reflexivity|].
  destruct (less x y); [reflexivity|]. rewrite IH. apply Permutation_swap.
Qed.

Lemma insertion_sort_perm (l : list A) : insertion_sort less l ≡ₚ l.
Proof.
  induction l as [|x l IH]; [reflexivity|].
  change (insertion_sort less (x :: l)) with (sort_insert less x (insertion_sort less l)).
  rewrite sort_insert_perm. now rewrite IH.
Qed.

Lemma strict_weak_irrefl (l : list A) (x : A) :
  strict_weak less l -> x ∈ l -> less x x = false.
Proof. intros (Hi & _ & _) Hx. rewrite Forall_forall in Hi. now apply Hi. Qed.

Lemma strict_weak_trans (l : list A) (x y z : A) :
  strict_weak less l -> x ∈ l -> y ∈ l -> z ∈ l ->
  less x y = true -> less y z = true -> less x z = true.
Proof.
  intros (_ & Ht & _) Hx Hy Hz. rewrite Forall_forall in Ht.
  specialize (Ht x Hx). rewrite Forall_forall in Ht.
  specialize (Ht y Hy). rewrite Forall_forall in Ht. now apply Ht.
Qed.

Lemma strict_weak_equivalent (l : list A) (x y z : A) :
  strict_weak less l -> x ∈ l -> y ∈ l -> z ∈ l ->
  equivalent less x y -> equivalent less y z -> equivalent less x z.
Proof.
  intros (_ & _ & He) Hx Hy Hz. rewrite Forall_forall in He.
  specialize (He x Hx). rewrite Forall_forall in He.
  specialize (He y Hy). rewrite Forall_forall in He. now apply He.
Qed.

Lemma strict_weak_asym (l : list A) (x y : A) :
  strict_weak less l -> x ∈ l -> y ∈ l -> less x y = true -> less y x = false.
Proof.
  intros Hw Hx Hy Hxy. destruct (less y x) eqn:Hyx; [|reflexivity].
  rewrite <- (strict_weak_irrefl l x Hw Hx). symmetry.
  now apply (strict_weak_trans l x y x).
Qed.

(** "Not after" is transitive for a strict weak ordering. *)
Lemma strict_weak_not_after_trans (l : list A) (x y z : A) :
  strict_weak less l -> x ∈ l -> y ∈ l -> z ∈ l ->
  not_after less x y -> not_after less y z -> not_after less x z.
Proof.
  unfold not_after. intros Hw Hx Hy Hz Hyx Hzy.
  destruct (less z x) eqn:Hzx; [exfalso|reflexivity].
  destruct (less x y) eqn:Hxy.
  - rewrite (strict_weak_trans l z x y Hw Hz Hx Hy Hzx Hxy) in Hzy. discriminate.
  - destruct (less y z) eqn:Hyz.
    + rewrite (strict_weak_trans l y z x Hw Hy Hz Hx Hyz Hzx) in Hyx. discriminate.
    + destruct (strict_weak_equivalent l x y z Hw Hx Hy Hz) as [_ E]; [split; assumption..|].
      congruence.
Qed.

Lemma sort_insert_sorted (l0 : list A) (x : A) (l : list A) :
  strict_weak less l0 -> x ∈ l0 -> Forall (fun y => y ∈ l0) l ->
  StronglySorted (not_after less) l ->
  StronglySorted (not_after less) (sort_insert less x l).
Proof.
  intros Hw Px HP Hs. induction Hs as [|y l Hs IH Hy]; simpl.
  - repeat constructor.
  - apply Forall_cons in HP as [Py HP]. destruct (less x y) eqn:E.
    + constructor; [constructor; assumption|].
      constructor; [now apply (strict_weak_asym l0)|].
      apply Forall_forall. intros z Hz.
      apply (strict_weak_not_after_trans l0 x y z); try assumption.
      * rewrite Forall_forall in HP. now apply HP.
      * now apply (strict_weak_asym l0).
      * rewrite Forall_forall in Hy. now apply Hy.
    + constructor; [now apply IH|].
      rewrite sort_insert_perm. constructor; assumption.
Qed.

Lemma insertion_sort_sorted (l : list A) :
  strict_weak less l -> StronglySorted (not_after less) (insertion_sort less l).
Proof.
  intros Hw.
  assert (forall l', Forall (fun y => y ∈ l) l' ->
            StronglySorted (not_after less) (insertion_sort less l')) as Hall.
  { induction 1 as [|x l' Px HP IH]; [constructor|].
    change (insertion_sort less (x :: l'))
      with (sort_insert less x (insertion_sort less l')).
    apply (sort_insert_sorted l); try assumption.
    now rewrite insertion_sort_perm. }
  apply Hall. now apply Forall_forall.
Qed.

End Sorting.

(** ** Stand-ins for the library code, to run the functions on concrete inputs *)

Module Sample.

Definition dot (a b : Vec3) : double :=
  (vec3_at a 0 * vec3_at b 0 + vec3_at a 1 * vec3_at b 1 + vec3_at a 2 * vec3_at b 2)%float.
Definition mul_vec (M : Mat3) (v : Vec3) : Vec3 :=
  let '(r0, r1, r2) := M in (dot r0 v, dot r1 v, dot r2 v).
Definition len3 (v : Vec3) : double := sqrt (dot v v).

(** The usual formulas for the products and norms; the inverse, the SVD and
    the arc cosine are placeholders. *)
Definition numerics : Numerics := {|
  norm2 v := sqrt (fst v * fst v + snd v * snd v)%float;
  norm3 := len3;
  normalized v := vec3_scale v (1 / len3 v)%float;
  dot3 := dot;
  cross a b :=
    ((vec3_at a 1 * vec3_at b 2 - vec3_at a 2 * vec3_at b 1)%float,
     (vec3_at a 2 * vec3_at b 0 - vec3_at a 0 * vec3_at b 2)%float,
     (vec3_at a 0 * vec3_at b 1 - vec3_at a 1 * vec3_at b 0)%float);
  mat3_mul M1 M2 :=
    mat3_transpose (mul_vec M1 (mat3_col M2 0), mul_vec M1 (mat3_col M2 1),
                    mul_vec M1 (mat3_col M2 2));
  mat3_mul_vec := mul_vec;
  mat3_scale k M :=
    let '(r0, r1, r2) := M in (vec3_scale r0 k, vec3_scale r1 k, vec3_scale r2 k);
  inverse M := M;
  opp_transpose_mul R t := vec3_opp (mul_vec (mat3_transpose R) t);
  svd_last_V_column _ := (0, 0, 0, 0, 0, 1)%float;
  svd_U_Vt M := M;
  acos x := x;
  clamp v lo hi := std_max lo (std_min v hi)
|}.

(** [std::sort] by insertion. *)
Definition algorithm : Algorithm := {|
  std_sort := @insertion_sort;
  std_sort_permutation A less l _ := insertion_sort_perm less l;
  std_sort_ordered := @insertion_sort_sorted
|}.

(** An undistorted camera whose principal point is the image center moved by
    the offset. *)
Definition principal_point (p : Pinhole.t) : Vec2 :=
  ((fst (Pinhole.offset p) + double_of_N (Pinhole.w p) * 0.5)%float,
   (snd (Pinhole.offset p) + double_of_N (Pinhole.h p) * 0.5)%float).

Definition camera : Camera := {|
  get_ud_pixel _ x := x;
  ima2cam p x :=
    (((fst x - fst (principal_point p)) / fst (Pinhole.scale p))%float,
     ((snd x - snd (principal_point p)) / snd (Pinhole.scale p))%float);
  cam2ima p x :=
    ((fst x * fst (Pinhole.scale p) + fst (principal_point p))%float,
     (snd x * snd (Pinhole.scale p) + snd (principal_point p))%float);
  removeDistortion _ x := x;
  getPrincipalPoint := principal_point
|}.

Definition P0 : Mat34 := ((1, 0, 0, 0), (0, 1, 0, 0), (0, 0, 1, 0))%float.

(** Robust estimators that keep every point ([accepting]) or none ([rejecting]). *)
Definition multiview (keep : bool) : Multiview := {|
  ACRANSAC_resection points _ _ := (if keep then seq 0 (length points) else [], P0);
  ACRANSAC_homography refpts _ _ _ :=
    (if keep then seq 0 (length refpts) else [], Identity3);
  KRt_from_P _ := (Identity3, Identity3, (0, 0, 1)%float);
  P_from_KRt _ _ _ := P0;
  CrossProductMatrix t :=
    ((0, - vec3_at t 2, vec3_at t 1), (vec3_at t 2, 0, - vec3_at t 0),
     (- vec3_at t 1, vec3_at t 0, 0))%float;
  TriangulateDLT _ _ _ _ := (0, 0, 1)%float;
  Pose3_of_Rt R t := mkPose3 R t
|}.
Definition accepting : Multiview := multiview true.
Definition rejecting : Multiview := multiview false.

(** A refinement that succeeds and leaves the scene as it is. *)
Definition refinement : Refinement := {| adjust _ _ s := (true, s) |}.

(** Every track is common to the views asked for. *)
Definition tracks : Tracks := {| getCommonTracksInImagesFast _ tracksMap _ := tracksMap |}.

(** A 640 x 480 pinhole camera with focal scale 1000. *)
Definition pinhole : Pinhole.t :=
  Pinhole.mk ((1000, 0, 320), (0, 1000, 240), (0, 0, 1))%float
    (1000, 1000)%float (0, 0)%float None false 640 480.

Definition view7 : View.t := View.mk 7 7 0 640 480.

(** A board of [r] rows and [c] columns whose corner ids start at [k], and the
    corners of a grid with that many points, [step] pixels apart from [origin]. *)
Definition board (r c : nat) (k : N) : CheckerBoard :=
  (fun i => (fun j => k + N.of_nat (i * c + j)) <$> seq 0 c) <$> seq 0 r.
Definition grid_corners (r c : nat) (origin : Vec2) (step : double)
    : list CheckerBoardCorner :=
  i ← seq 0 r; j ← seq 0 c;
  [mkCorner ((fst origin + double_of_N (N.of_nat j) * step)%float,
             (snd origin + double_of_N (N.of_nat i) * step)%float)].

(** One image with three boards of 30 corners each: around the image center,
    further out, and near the image corner; the detector lists the far one
    first. *)
Definition detector : CheckerDetector :=
  mkDetector [board 5 6 60; board 5 6 0; board 5 6 30]
    (grid_corners 5 6 (300, 220)%float 8 ++ grid_corners 5 6 (100, 60)%float 16
     ++ grid_corners 5 6 (0, 0)%float 4).

Definition scene : SfMData :=
  mkSfMData {[7 := view7]} ∅ {[0 := PinholeCam pinhole]} ∅.

(** The board [board 5 6 0] with one corner not detected: 29 defined corners. *)
Definition sparse_board : CheckerBoard :=
  <[0%nat := [UndefinedIndexT; 1; 2; 3; 4; 5]]> (board 5 6 0).

Definition image_boards : gmap N CheckerDetector := {[7 := detector]}.

(** The state of the loop of [process_innerGrids] after [boards], with the
    estimator that keeps every point. *)
Definition state_after (boards : list CheckerBoard) : LoopState :=
  match @boards_loop numerics camera accepting view7 pinhole (getCorners detector) false
          boards (loop_start scene) with
  | Continue st => st
  | ReturnFalse s => loop_start s
  | UndefinedRead => loop_start scene
  end.

(** The scene [process_innerGrids] leaves for the sample image. *)
Definition calibrated : SfMData :=
  match @process_innerGrids numerics camera accepting refinement algorithm scene image_boards
          0.125 1 true with
  | Some (_, s) => s
  | None => scene
  end.

(** Two views of one board each, sharing the intrinsic 0. *)
Definition two_views : SfMData :=
  mkSfMData {[7 := view7; 8 := View.mk 8 8 0 640 480]} ∅ {[0 := PinholeCam pinhole]} ∅.
Definition two_detections : gmap N CheckerDetector :=
  {[7 := mkDetector [board 5 6 0] (grid_corners 5 6 (300, 220)%float 8);
    8 := mkDetector [board 5 6 0] (grid_corners 5 6 (100, 60)%float 16)]}.

(** A landmark seen in view 0 at pixel (100, 0.1). *)
Definition one_landmark : gmap N Landmark :=
  {[0 := mkLandmark (0, 0, 0)%float SIFT
           {[0 := mkObservation (100, 0x1.999999999999ap-4)%float 0 1]}]}.

(** A reconstructed pair of the two views and one track seen in both. *)
Definition pair78 : ReconstructedPair := mkPair 7 8 Identity3 (1, 0, 0)%float.
Definition one_track : gmap N Track :=
  {[3 := mkTrack {[7 := mkTrackItem 0 (320, 240)%float;
                   8 := mkTrackItem 0 (330, 240)%float]}]}.

(** Powers of two with a whole exponent, and the conversion of the library,
    [radian / M_PI * 180.0]. *)
Definition math : Math := {|
  pow _ y := match size_t_of_double y with
             | Some n => Z.ldexp 1 (Z.of_N n)
             | None => nan
             end;
  radianToDegree radian := (radian / 0x1.921fb54442d18p+1 * 180)%float
|}.

(** Two tracks seen in the views 7 and 8, far apart in both, and two tracks
    whose pixels share a 2 x 2 block in the view 7. *)
Definition two_tracks : gmap N Track :=
  {[3 := mkTrack {[7 := mkTrackItem 0 (320, 240)%float;
                   8 := mkTrackItem 0 (330, 240)%float]};
    5 := mkTrack {[7 := mkTrackItem 1 (100, 60)%float;
                   8 := mkTrackItem 1 (110, 60)%float]}]}.
Definition close_tracks : gmap N Track :=
  {[3 := mkTrack {[7 := mkTrackItem 0 (320, 240)%float]};
    5 := mkTrack {[7 := mkTrackItem 1 (321.5, 241.25)%float]}]}.

(** A detection whose only board has 29 defined corners. *)
Definition sparse_boards : gmap N CheckerDetector :=
  {[7 := mkDetector [sparse_board] (getCorners detector)]}.

(** Two boards of 30 corners in a 640 x 480 image.  The corners of
    [near_board] are around the image center, 8 pixels apart, and the
    x-coordinate of the last but one is a NaN; those of [far_board] start 10
    pixels right of and below the center, 4 pixels apart. *)
Definition near_board : CheckerBoard := board 5 6 0.
Definition far_board : CheckerBoard := board 5 6 30.
Definition nan_detector : CheckerDetector :=
  mkDetector [near_board; far_board]
    (<[28%nat := mkCorner (nan, 252)%float]> (grid_corners 5 6 (300, 220)%float 8)
     ++ grid_corners 5 6 (330, 250)%float 4).
Definition nan_boards : gmap N CheckerDetector := {[7 := nan_detector]}.

(** A pair of the two views without translation. *)
Definition pair_rotation : ReconstructedPair := mkPair 7 8 Identity3 (0, 0, 0)%float.

(** Two views whose intrinsic is not a pinhole. *)
Definition two_views_other : SfMData :=
  mkSfMData (views two_views) ∅ {[0 := OtherCam]} ∅.

End Sample.

(** * Properties *)

(** ** Histogram *)

Module HistogramFacts.
Import Histogram.

Lemma wrap_size_t_small (n : N) : n < size_t_modulus -> wrap_size_t n = n.
Proof. intros H. unfold wrap_size_t. now apply N.mod_small. Qed.

Lemma wrap_size_t_lt (n : N) : wrap_size_t n < size_t_modulus.
Proof. unfold wrap_size_t. apply N.mod_lt. discriminate. Qed.

(** [nBins - 1] computed in [size_t] is the predecessor when there is a bin. *)
Lemma last_bin_index (n : N) :
  1 <= n <= SIZE_MAX -> wrap_size_t (n + SIZE_MAX) = n - 1.
Proof.
  intros [H1 H2]. unfold wrap_size_t.
  replace (n + SIZE_MAX) with ((n - 1) + 1 * size_t_modulus)
    by (unfold SIZE_MAX, size_t_modulus in *; lia).
  rewrite N.Div0.mod_add. apply N.mod_small.
  unfold SIZE_MAX, size_t_modulus in *. lia.
Qed.

Lemma sum_insert (f : list N) (k : nat) (c v : N) :
  f !! k = Some c ->
  foldr N.add 0 (<[k := v]> f) + c = foldr N.add 0 f + v.
Proof.
  revert k. induction f as [|a f IH]; intros [|k] Hk; simpl in *; try discriminate.
  - injection Hk as ->. lia.
  - specialize (IH k Hk). lia.
Qed.

Lemma incr_at_Some (f : list N) (k : nat) :
  (k < length f)%nat ->
  exists c, f !! k = Some c /\ incr_at k f = Some (<[k := wrap_size_t (c + 1)]> f).
Proof.
  intros Hk. destruct (lookup_lt_is_Some_2 f k Hk) as [c Hc].
  exists c. split; [exact Hc|]. unfold incr_at. now rewrite Hc.
Qed.

Lemma set_underflow_total (h : t) (v : N) :
  total (set_underflow v h) + underflow h = total h + v.
Proof. unfold total. simpl. lia. Qed.

Lemma set_overflow_total (h : t) (v : N) :
  total (set_overflow v h) + overflow h = total h + v.
Proof. unfold total. simpl. lia. Qed.

Lemma set_freq_total (h : t) (k : nat) (c v : N) :
  freq h !! k = Some c ->
  total (set_freq (<[k := v]> (freq h)) h) + c = total h + v.
Proof.
  intros Hk. unfold total. simpl. pose proof (sum_insert _ _ _ v Hk). lia.
Qed.

Lemma wrap_succ (v : N) : v < SIZE_MAX -> wrap_size_t (v + 1) = v + 1.
Proof.
  intros Hv. apply wrap_size_t_small. unfold SIZE_MAX, size_t_modulus in *. lia.
Qed.

(** The bin chosen by [Add] is the one [selected_counter] names, and it exists. *)
Lemma clamp_valid (h : t) (i : N) :
  wf h ->
  N.min i (wrap_size_t (nBins h + SIZE_MAX)) = N.min i (nBins h - 1) /\
  (N.to_nat (N.min i (nBins h - 1)) < length (freq h))%nat.
Proof.
  intros [Hlen Hn]. rewrite (last_bin_index _ Hn). split; [reflexivity|].
  rewrite Hlen. lia.
Qed.

(** C10 (as amended).  For every well-formed histogram and every [x] for which
    a counter is selected (underflow if [x < Start], overflow if [x > End],
    otherwise bin [min(i, nBins - 1)] where [i] is [(x - Start) *
    nBins_by_interval] converted to [size_t], whenever that conversion is
    defined), [Add] is defined and increments that counter by one modulo
    [2^64], leaves every other counter as it was, the bin index is below
    [nBins], the histogram stays well-formed, and
    underflow + overflow + sum of bins grows by exactly one unless the
    incremented counter was saturated. *)
Theorem Add_increments_exactly_one (h : t) (x : double) (c : Counter) :
  wf h -> selected_counter h x = Some c ->
  exists h' v,
    Add h x = Some h' /\
    read c h = Some v /\ read c h' = Some (wrap_size_t (v + 1)) /\
    (forall c', c' <> c -> read c' h' = read c' h) /\
    match c with Bin k => (k < N.to_nat (nBins h))%nat | _ => True end /\
    wf h' /\
    (v < SIZE_MAX -> total h' = total h + 1).
Proof.
  intros Hwf Ht. unfold selected_counter in Ht. unfold Add.
  destruct (x <? Start h)%float.
  - injection Ht as <-.
    exists (set_underflow (wrap_size_t (underflow h + 1)) h), (underflow h).
    repeat split; try apply Hwf.
    + intros [| |k] Hc; [congruence|reflexivity|reflexivity].
    + intros Hv. pose proof (set_underflow_total h (wrap_size_t (underflow h + 1))) as E.
      rewrite (wrap_succ _ Hv) in *. lia.
  - destruct (End h <? x)%float.
    + injection Ht as <-.
      exists (set_overflow (wrap_size_t (overflow h + 1)) h), (overflow h).
      repeat split; try apply Hwf.
      * intros [| |k] Hc; [reflexivity|congruence|reflexivity].
      * intros Hv. pose proof (set_overflow_total h (wrap_size_t (overflow h + 1))) as E.
        rewrite (wrap_succ _ Hv) in *. lia.
    + destruct (size_t_of_double ((x - Start h) * nBins_by_interval h)) as [i|];
        [|discriminate].
      injection Ht as <-.
      destruct (clamp_valid h i Hwf) as [-> Hlt].
      destruct (incr_at_Some _ _ Hlt) as (v & Hv & ->).
      exists (set_freq (<[N.to_nat (N.min i (nBins h - 1)) := wrap_size_t (v + 1)]> (freq h)) h), v.
      repeat split; try apply Hwf.
      * exact Hv.
      * simpl. now apply list_lookup_insert_eq.
      * intros [| |k] Hc; simpl; try reflexivity.
        apply list_lookup_insert_ne. congruence.
      * destruct Hwf as [Hlen _]. rewrite <- Hlen. exact Hlt.
      * simpl. rewrite length_insert. apply Hwf.
      * intros Hs. pose proof (set_freq_total h _ _ (wrap_size_t (v + 1)) Hv) as E.
        rewrite (wrap_succ _ Hs) in *. lia.
Qed.

(** [Add] is defined exactly when a counter is selected: always for
    [x < Start] and [x > End], and in between when the scaled offset
    converts to [size_t]. *)
Lemma Add_defined_iff (h : t) (x : double) :
  wf h -> (is_Some (Add h x) <-> is_Some (selected_counter h x)).
Proof.
  intros Hwf. unfold Add, selected_counter.
  destruct (x <? Start h)%float; [split; eauto|].
  destruct (End h <? x)%float; [split; eauto|].
  destruct (size_t_of_double _) as [i|]; [|split; intros [? ?]; discriminate].
  destruct (clamp_valid h i Hwf) as [-> Hlt].
  destruct (incr_at_Some _ _ Hlt) as (v & _ & ->). split; eauto.
Qed.

End HistogramFacts.


(** ** Comparison of doubles *)

Section FloatOrder.

Lemma SFltb_lex (f1 f2 : spec_float) :
  f1 <> S754_nan -> f2 <> S754_nan ->
  (SFltb f1 f2 = true <-> lex_lt (sf_rank f1) (sf_rank f2)).
Proof.
  intros H1 H2.
  destruct f1 as [[]|[]| |[] m1 e1], f2 as [[]|[]| |[] m2 e2];
    try congruence; unfold SFltb; simpl;
    try (split; [discriminate | lia]);
    try (split; [lia | reflexivity]);
    change (Pos.compare_cont Eq m1 m2) with (Pos.compare m1 m2);
    destruct (Z.compare_spec e1 e2); destruct (Pos.compare_spec m1 m2); simpl;
    split; intros; try discriminate; try reflexivity; lia.
Qed.

Lemma Prim2SF_not_nan (x : double) : PrimFloat.is_nan x = false -> Prim2SF x <> S754_nan.
Proof.
  intros Hx. unfold Prim2SF. rewrite Hx.
  destruct (is_zero x); [discriminate|].
  destruct (is_infinity x); [discriminate|].
  destruct (Z.frexp x) as [r e]. destruct (shr_fexp _ _ _ _ _) as [sh e'].
  destruct (shr_m sh); discriminate.
Qed.

Lemma sf_nan_dec (f : spec_float) : {f = S754_nan} + {f <> S754_nan}.
Proof. destruct f; (left; reflexivity) || (right; discriminate). Qed.

Lemma SFltb_nan_l (f : spec_float) : SFltb S754_nan f = false.
Proof. reflexivity. Qed.

Lemma SFltb_nan_r (f : spec_float) : SFltb f S754_nan = false.
Proof. destruct f; reflexivity. Qed.

Lemma lex_lt_asym (a b : Z * Z * Z) : lex_lt a b -> ~ lex_lt b a.
Proof. destruct a as [[a1 a2] a3], b as [[b1 b2] b3]. simpl. lia. Qed.

Lemma lex_lt_trichotomy_trans (a b c : Z * Z * Z) :
  ~ lex_lt b a -> ~ lex_lt c b -> ~ lex_lt c a.
Proof.
  destruct a as [[a1 a2] a3], b as [[b1 b2] b3], c as [[c1 c2] c3]. simpl. lia.
Qed.

Lemma ltb_irrefl (x : double) : (x <? x)%float = false.
Proof.
  rewrite ltb_spec. destruct (Prim2SF x) as [[]|[]| |[] m e] eqn:E; try reflexivity;
    unfold SFltb; simpl; rewrite Z.compare_refl;
    change (Pos.compare_cont Eq m m) with (Pos.compare m m);
    rewrite Pos.compare_refl; reflexivity.
Qed.

Lemma ltb_asym (x y : double) : (x <? y)%float = true -> (y <? x)%float = false.
Proof.
  rewrite !ltb_spec. intros H.
  destruct (sf_nan_dec (Prim2SF x)) as [E|Hx]; [rewrite E in H; discriminate|].
  destruct (sf_nan_dec (Prim2SF y)) as [E|Hy];
    [rewrite E, SFltb_nan_r in H; discriminate|].
  apply (SFltb_lex _ _ Hx Hy) in H. apply lex_lt_asym in H.
  destruct (SFltb (Prim2SF y) (Prim2SF x)) eqn:E; [|reflexivity].
  apply (SFltb_lex _ _ Hy Hx) in E. contradiction.
Qed.

(** With [y] a number, [x <= y] and [y <= z] give [x <= z], where [a <= b]
    stands for "not [b < a]". *)
Lemma ltb_not_after_trans (x y z : double) :
  PrimFloat.is_nan y = false ->
  (y <? x)%float = false -> (z <? y)%float = false -> (z <? x)%float = false.
Proof.
  rewrite !ltb_spec. intros Hy%Prim2SF_not_nan Hyx Hzy.
  destruct (sf_nan_dec (Prim2SF x)) as [E|Hx]; [rewrite E; apply SFltb_nan_r|].
  destruct (sf_nan_dec (Prim2SF z)) as [E|Hz]; [rewrite E; apply SFltb_nan_l|].
  destruct (SFltb (Prim2SF z) (Prim2SF x)) eqn:E; [|reflexivity].
  apply (SFltb_lex _ _ Hz Hx) in E. exfalso.
  apply (lex_lt_trichotomy_trans (sf_rank (Prim2SF x)) (sf_rank (Prim2SF y))
           (sf_rank (Prim2SF z))); [| |exact E].
  - intros L. apply (SFltb_lex _ _ Hy Hx) in L. congruence.
  - intros L. apply (SFltb_lex _ _ Hz Hy) in L. congruence.
Qed.

Lemma lex_lt_trans (a b c : Z * Z * Z) : lex_lt a b -> lex_lt b c -> lex_lt a c.
Proof.
  destruct a as [[a1 a2] a3], b as [[b1 b2] b3], c as [[c1 c2] c3]. simpl. lia.
Qed.

Lemma lex_lt_total (a b : Z * Z * Z) : ~ lex_lt a b -> ~ lex_lt b a -> a = b.
Proof.
  destruct a as [[a1 a2] a3], b as [[b1 b2] b3]. simpl. intros H1 H2.
  assert (a1 = b1 /\ a2 = b2 /\ a3 = b3)%Z as (-> & -> & ->) by lia. reflexivity.
Qed.

Lemma ltb_numbers (x y : double) :
  (x <? y)%float = true -> PrimFloat.is_nan x = false /\ PrimFloat.is_nan y = false.
Proof.
  rewrite ltb_spec. intros Hlt. split.
  - destruct (PrimFloat.is_nan x) eqn:E; [|reflexivity].
    unfold Prim2SF in Hlt. rewrite E in Hlt. discriminate.
  - destruct (PrimFloat.is_nan y) eqn:E; [|reflexivity].
    unfold Prim2SF in Hlt at 2. rewrite E, SFltb_nan_r in Hlt. discriminate.
Qed.

Lemma ltb_trans (x y z : double) :
  (x <? y)%float = true -> (y <? z)%float = true -> (x <? z)%float = true.
Proof.
  intros Hxy Hyz. destruct (ltb_numbers _ _ Hxy) as [Hx Hy].
  destruct (ltb_numbers _ _ Hyz) as [_ Hz].
  apply Prim2SF_not_nan in Hx, Hy, Hz. rewrite ltb_spec in *.
  apply (SFltb_lex _ _ Hx Hz).
  apply (lex_lt_trans _ (sf_rank (Prim2SF y)));
    [now apply (SFltb_lex _ _ Hx Hy)|now apply (SFltb_lex _ _ Hy Hz)].
Qed.

(** Two numbers of which neither is below the other have the same rank. *)
Lemma ltb_same_rank (x y : double) :
  PrimFloat.is_nan x = false -> PrimFloat.is_nan y = false ->
  (x <? y)%float = false -> (y <? x)%float = false ->
  sf_rank (Prim2SF x) = sf_rank (Prim2SF y).
Proof.
  intros Hx%Prim2SF_not_nan Hy%Prim2SF_not_nan. rewrite !ltb_spec. intros Hxy Hyx.
  apply lex_lt_total; intros L.
  - apply (SFltb_lex _ _ Hx Hy) in L. congruence.
  - apply (SFltb_lex _ _ Hy Hx) in L. congruence.
Qed.

(** The comparison of two numbers depends on their ranks only. *)
Lemma ltb_rank (x y x' y' : double) :
  PrimFloat.is_nan x = false -> PrimFloat.is_nan y = false ->
  PrimFloat.is_nan x' = false -> PrimFloat.is_nan y' = false ->
  sf_rank (Prim2SF x) = sf_rank (Prim2SF x') ->
  sf_rank (Prim2SF y) = sf_rank (Prim2SF y') ->
  (x <? y)%float = (x' <? y')%float.
Proof.
  intros Hx%Prim2SF_not_nan Hy%Prim2SF_not_nan Hx'%Prim2SF_not_nan Hy'%Prim2SF_not_nan
         Ex Ey.
  rewrite !ltb_spec.
  destruct (SFltb (Prim2SF x) (Prim2SF y)) eqn:E1,
           (SFltb (Prim2SF x') (Prim2SF y')) eqn:E2; try reflexivity.
  - apply (SFltb_lex _ _ Hx Hy) in E1. rewrite Ex, Ey in E1.
    apply (SFltb_lex _ _ Hx' Hy') in E1. congruence.
  - apply (SFltb_lex _ _ Hx' Hy') in E2. rewrite <- Ex, <- Ey in E2.
    apply (SFltb_lex _ _ Hx Hy) in E2. congruence.
Qed.

(** On doubles that are not NaN, [<?] is a strict weak ordering. *)
Lemma ltb_strict_weak {A} (key : A -> double) (l : list A) :
  (forall a, a ∈ l -> PrimFloat.is_nan (key a) = false) ->
  strict_weak (fun a b => (key a <? key b)%float) l.
Proof.
  intros Hn. split; [|split]; apply Forall_forall; intros x Hx.
  - apply ltb_irrefl.
  - apply Forall_forall. intros y Hy. apply Forall_forall. intros z Hz. apply ltb_trans.
  - apply Forall_forall. intros y Hy. apply Forall_forall. intros z Hz.
    intros [E1 E2] [E3 E4].
    pose proof (ltb_same_rank _ _ (Hn x Hx) (Hn y Hy) E1 E2) as R1.
    pose proof (ltb_same_rank _ _ (Hn y Hy) (Hn z Hz) E3 E4) as R2.
    split.
    + rewrite (ltb_rank (key x) (key z) (key z) (key z)); auto using ltb_irrefl.
      congruence.
    + rewrite (ltb_rank (key z) (key x) (key z) (key z)); auto using ltb_irrefl.
      congruence.
Qed.

Lemma SFleb_not_ltb (f1 f2 : spec_float) :
  f1 <> S754_nan -> f2 <> S754_nan -> SFleb f2 f1 = negb (SFltb f1 f2).
Proof.
  intros H1 H2.
  destruct f1 as [[]|[]| |[] m1 e1], f2 as [[]|[]| |[] m2 e2];
    try congruence; unfold SFleb, SFltb; simpl; try reflexivity;
    rewrite (Z.compare_antisym e1 e2);
    change (Pos.compare_cont Eq m2 m1) with (Pos.compare m2 m1);
    change (Pos.compare_cont Eq m1 m2) with (Pos.compare m1 m2);
    rewrite (Pos.compare_antisym m1 m2);
    destruct (Z.compare e1 e2); simpl; try reflexivity;
    destruct (Pos.compare m1 m2); reflexivity.
Qed.

(** Between numbers, "not [x < y]" is [y <= x]. *)
Lemma leb_not_ltb (x y : double) :
  PrimFloat.is_nan x = false -> PrimFloat.is_nan y = false ->
  negb (x <? y)%float = (y <=? x)%float.
Proof.
  intros Hx%Prim2SF_not_nan Hy%Prim2SF_not_nan.
  rewrite ltb_spec, leb_spec. symmetry. now apply SFleb_not_ltb.
Qed.

End FloatOrder.

(** ** Sorted lists *)

Lemma StronglySorted_lookup {A} (R : A -> A -> Prop) (l : list A) (i j : nat) (a b : A) :
  StronglySorted R l -> (i < j)%nat -> l !! i = Some a -> l !! j = Some b -> R a b.
Proof.
  intros Hs. revert i j. induction Hs as [|x l Hs IH Hx]; intros i j Hij Hi Hj.
  - discriminate.
  - destruct j as [|j]; [lia|]. destruct i as [|i]; simpl in *.
    + injection Hi as ->. rewrite Forall_forall in Hx. apply Hx.
      eapply list_elem_of_lookup_2, Hj.
    + apply (IH i j); [lia|assumption..].
Qed.


(** ** process_innerGrids: the order of the boards *)

Section BoardOrder.
Context `{!Numerics, !Camera, !Multiview, !Refinement, !Algorithm}.

(** A cell that is [UndefinedIndexT] is skipped: the minimal distance does not
    depend on what the access [corners[UndefinedIndexT]] would return. *)
Lemma mindist_with_ext (at1 at2 : N -> option CheckerBoardCorner) (center : Vec2)
    (b : CheckerBoard) :
  (forall cid, cid <> UndefinedIndexT -> at1 cid = at2 cid) ->
  mindist_with at1 center b = mindist_with at2 center b.
Proof.
  intros Hext. unfold mindist_with.
  generalize DBL_MAX. induction (cell_indices b) as [|[i j] l IH]; intros m; [reflexivity|].
  simpl. destruct (N.eqb_spec (cell b i j) UndefinedIndexT) as [E|E].
  - apply IH.
  - rewrite (Hext _ E). destruct (at2 (cell b i j)); [apply IH|reflexivity].
Qed.

Lemma std_min_cases (d m : double) :
  PrimFloat.is_nan d = false -> PrimFloat.is_nan m = false ->
  PrimFloat.is_nan (std_min d m) = false /\
  (m <? std_min d m)%float = false /\ (d <? std_min d m)%float = false /\
  (std_min d m = m \/ std_min d m = d).
Proof.
  intros Hd Hm. unfold std_min. destruct (m <? d)%float eqn:E.
  - split; [exact Hm|]. split; [apply ltb_irrefl|]. split; [now apply ltb_asym|now left].
  - split; [exact Hd|]. split; [exact E|]. split; [apply ltb_irrefl|now right].
Qed.

(** The loop of the comparator over the cells [l], from the minimum [m0]. *)
Lemma mindist_fold (corners : list CheckerBoardCorner) (center : Vec2) (b : CheckerBoard)
    (l : list (nat * nat)) (m0 : double) :
  PrimFloat.is_nan m0 = false ->
  (forall ij, ij ∈ filter (holds_corner b) l ->
     is_Some (corner_at corners (cell b ij.1 ij.2))) ->
  (forall ij c, ij ∈ filter (holds_corner b) l ->
     corner_at corners (cell b ij.1 ij.2) = Some c ->
     PrimFloat.is_nan (norm2 (vec2_sub (corner_center c) center)) = false) ->
  exists m,
    fold_defined (fun mindist '(i, j) =>
                    let cid := cell b i j in
                    if cid =? UndefinedIndexT then Some mindist
                    else
                      c ← corner_at corners cid;
                      Some (std_min (norm2 (vec2_sub (corner_center c) center)) mindist))
                 m0 l = Some m /\
    PrimFloat.is_nan m = false /\
    (m0 <? m)%float = false /\
    (forall ij c, ij ∈ filter (holds_corner b) l ->
       corner_at corners (cell b ij.1 ij.2) = Some c ->
       (norm2 (vec2_sub (corner_center c) center) <? m)%float = false) /\
    (m = m0 \/
     exists ij c, ij ∈ filter (holds_corner b) l /\
       corner_at corners (cell b ij.1 ij.2) = Some c /\
       m = norm2 (vec2_sub (corner_center c) center)).
Proof.
  revert m0. induction l as [|[i j] l IH]; intros m0 Hm0 Hdef Hnan.
  - exists m0. split; [reflexivity|]. split; [exact Hm0|]. split; [apply ltb_irrefl|].
    split; [|now left]. intros ij c Hij. now apply elem_of_nil in Hij.
  - rewrite filter_cons in Hdef, Hnan |- *. cbn [fold_defined].
    destruct (decide (holds_corner b (i, j))) as [Hh|Hh]; unfold holds_corner in Hh;
      simpl in Hh; destruct (N.eqb_spec (cell b i j) UndefinedIndexT) as [E|E]; try tauto.
    + destruct (Hdef (i, j)) as [c Hc]; [left|]. simpl in Hc. rewrite Hc. cbn [mbind option_bind].
      pose proof (Hnan (i, j) c ltac:(left) Hc) as Hd.
      destruct (std_min_cases _ _ Hd Hm0) as (Hn1 & Hle0 & Hled & Hor).
      destruct (IH _ Hn1) as (m & Hfold & Hn & Hle & Hall & Hex).
      { intros ij Hij. apply Hdef. now right. }
      { intros ij c' Hij. apply (Hnan ij c'). now right. }
      exists m. split; [exact Hfold|]. split; [exact Hn|]. split; [|split].
      * exact (ltb_not_after_trans _ _ _ Hn1 Hle Hle0).
      * intros ij c' [->|Hij]%elem_of_cons Hc'.
        -- simpl in Hc'. rewrite Hc in Hc'. injection Hc' as <-.
           exact (ltb_not_after_trans _ _ _ Hn1 Hle Hled).
        -- now apply (Hall ij c').
      * destruct Hex as [->|(ij & c' & Hij & Hc' & ->)].
        -- destruct Hor as [->| ->]; [now left|].
           right. exists (i, j), c. split; [left|]. split; [exact Hc|reflexivity].
        -- right. exists ij, c'. split; [now right|]. split; [exact Hc'|reflexivity].
    + now apply IH.
Qed.

(** Where the corners of a board are read within the corner list and no
    distance is NaN, the minimal distance of the comparator is the least
    distance from a defined corner of the board to the center. *)
Lemma mindist_least (corners : list CheckerBoardCorner) (center : Vec2) (b : CheckerBoard) :
  reads_defined corners b ->
  (forall ij c, ij ∈ defined_cells b ->
     corner_at corners (cell b ij.1 ij.2) = Some c ->
     PrimFloat.is_nan (norm2 (vec2_sub (corner_center c) center)) = false) ->
  exists m,
    mindist corners center b = Some m /\ PrimFloat.is_nan m = false /\
    least_distance corners center b m.
Proof.
  intros Hdef Hnan.
  destruct (mindist_fold corners center b (cell_indices b) DBL_MAX eq_refl Hdef Hnan)
    as (m & Hfold & Hn & Hle & Hall & Hex).
  exists m. split; [exact Hfold|]. split; [exact Hn|]. split; [exact Hall|].
  split; [exact Hle|exact Hex].
Qed.

(** [process_innerGrids] from the sort of the boards on. *)
Lemma process_innerGrids_from_sort (sfmData : SfMData)
    (boardsAllImages : gmap N CheckerDetector) (squareSize distance : double)
    (useSimplePinhole : bool) (viewId : N) (detector : CheckerDetector)
    (view : View.t) (pinhole : Pinhole.t) :
  items boardsAllImages = [(viewId, detector)] ->
  views sfmData !! viewId = Some view ->
  pinhole_at sfmData (View.intrinsicId view) = Some pinhole ->
  getBoards detector <> [] ->
  process_innerGrids sfmData boardsAllImages squareSize distance useSimplePinhole
    = (order ← sort_boards (getCorners detector) (image_center view) (getBoards detector);
       after_boards viewId view (View.intrinsicId view) pinhole distance useSimplePinhole
         (boards_loop view pinhole (getCorners detector) useSimplePinhole order
            (loop_start (set_poses ∅ (set_landmarks ∅ sfmData))))).
Proof.
  intros Hi Hv Hp Hb. unfold process_innerGrids. rewrite Hi. simpl. rewrite Hv. simpl.
  unfold pinhole_at in Hp.
  destruct (intrinsics sfmData !! View.intrinsicId view) as [[p|]|]; try discriminate.
  injection Hp as ->. simpl.
  destruct (getBoards detector) as [|b0 bs] eqn:Eb; [now destruct Hb|]. reflexivity.
Qed.

Lemma image_center_small (view : View.t) :
  View.width view < 2 ^ 31 -> View.height view < 2 ^ 31 ->
  image_center view = ((0.5 * double_of_N (View.width view))%float,
                       (0.5 * double_of_N (View.height view))%float).
Proof.
  intros Hw Hh. unfold image_center, int_of_size_t, IndexT_modulus.
  rewrite !N.mod_small by lia. cbv zeta.
  destruct (Z.ltb_spec (Z.of_N (View.height view)) (2 ^ 31)); [|lia].
  destruct (Z.ltb_spec (Z.of_N (View.width view)) (2 ^ 31)); [|lia].
  reflexivity.
Qed.

(** C4 (as amended).  [process_innerGrids], on one detection set with a board,
    for a view with a pinhole intrinsic, whose corner ids are all within the
    corner list and whose corners all have a distance to the image center
    that is not NaN: the loop over the boards runs on an order of the
    detected boards in which a board whose least distance from a defined
    corner to the image center is below that of another board comes before
    it.  The least distance of a board is the one the comparator computes: no
    defined corner is nearer, and it is the distance of a defined corner, or
    [DBL_MAX].  The image center is (0.5 w, 0.5 h) for a width and a height
    that fit an [int].  A cell that is [UndefinedIndexT] is not read in the
    corner list. *)
Theorem boards_processed_nearest_first (sfmData : SfMData)
    (boardsAllImages : gmap N CheckerDetector) (squareSize distance : double)
    (useSimplePinhole : bool) (viewId : N) (detector : CheckerDetector)
    (view : View.t) (pinhole : Pinhole.t) :
  items boardsAllImages = [(viewId, detector)] ->
  views sfmData !! viewId = Some view ->
  pinhole_at sfmData (View.intrinsicId view) = Some pinhole ->
  getBoards detector <> [] ->
  (forall b, b ∈ getBoards detector -> reads_defined (getCorners detector) b) ->
  (forall b ij c, b ∈ getBoards detector -> ij ∈ defined_cells b ->
     corner_at (getCorners detector) (cell b ij.1 ij.2) = Some c ->
     PrimFloat.is_nan (norm2 (vec2_sub (corner_center c) (image_center view))) = false) ->
  exists (order : list CheckerBoard) (least : CheckerBoard -> double),
    process_innerGrids sfmData boardsAllImages squareSize distance useSimplePinhole
      = after_boards viewId view (View.intrinsicId view) pinhole distance useSimplePinhole
          (boards_loop view pinhole (getCorners detector) useSimplePinhole order
             (loop_start (set_poses ∅ (set_landmarks ∅ sfmData)))) /\
    order ≡ₚ getBoards detector /\
    (forall b, b ∈ getBoards detector ->
       mindist (getCorners detector) (image_center view) b = Some (least b) /\
       least_distance (getCorners detector) (image_center view) b (least b)) /\
    (forall (i j : nat) (a b : CheckerBoard),
       order !! i = Some a -> order !! j = Some b ->
       (least a <? least b)%float = true -> (i < j)%nat) /\
    (View.width view < 2 ^ 31 -> View.height view < 2 ^ 31 ->
     image_center view = ((0.5 * double_of_N (View.width view))%float,
                          (0.5 * double_of_N (View.height view))%float)) /\
    (forall (at1 at2 : N -> option CheckerBoardCorner) (b : CheckerBoard),
       (forall cid, cid <> UndefinedIndexT -> at1 cid = at2 cid) ->
       mindist_with at1 (image_center view) b = mindist_with at2 (image_center view) b).
Proof.
  intros Hi Hv Hp Hb Hdef Hnan.
  set (corners := getCorners detector) in *. set (center := image_center view) in *.
  set (least := fun b => default DBL_MAX (mindist corners center b)).
  assert (forall b, b ∈ getBoards detector ->
            mindist corners center b = Some (least b) /\
            PrimFloat.is_nan (least b) = false /\
            least_distance corners center b (least b)) as Hleast.
  { intros b Hin. destruct (mindist_least corners center b (Hdef b Hin)) as (m & Hm & Hn & Hl).
    - intros ij c. now apply Hnan.
    - unfold least. rewrite Hm. auto. }
  set (comp := fun first second : CheckerBoard =>
                 default false (closer_to_center corners center first second)).
  assert (forall a b, a ∈ getBoards detector -> b ∈ getBoards detector ->
            comp a b = (least a <? least b)%float) as Hcomp.
  { intros a b Ha Hb'. unfold comp, closer_to_center.
    destruct (Hleast a Ha) as (-> & _). destruct (Hleast b Hb') as (-> & _). reflexivity. }
  assert (strict_weak comp (getBoards detector)) as Hsw.
  { pose proof (ltb_strict_weak least (getBoards detector)
                  (fun b Hin => proj1 (proj2 (Hleast b Hin)))) as (S1 & S2 & S3).
    rewrite Forall_forall in S1. split; [|split]; apply Forall_forall; intros x Hx.
    - rewrite Hcomp by assumption. now apply S1.
    - rewrite Forall_forall in S2. specialize (S2 x Hx). rewrite Forall_forall in S2.
      apply Forall_forall. intros y Hy. specialize (S2 y Hy). rewrite Forall_forall in S2.
      apply Forall_forall. intros z Hz. rewrite !Hcomp by assumption. now apply S2.
    - rewrite Forall_forall in S3. specialize (S3 x Hx). rewrite Forall_forall in S3.
      apply Forall_forall. intros y Hy. specialize (S3 y Hy). rewrite Forall_forall in S3.
      apply Forall_forall. intros z Hz. unfold equivalent. rewrite !Hcomp by assumption.
      now apply S3. }
  assert (exists order,
            sort_boards corners center (getBoards detector) = Some order /\
            order ≡ₚ getBoards detector /\
            StronglySorted (not_after comp) order) as (order & Hsort & Hperm & Hsorted).
  { unfold sort_boards. destruct (Nat.ltb_spec (length (getBoards detector)) 2) as [Hlen|Hlen].
    - exists (getBoards detector). split; [reflexivity|]. split; [reflexivity|].
      destruct (getBoards detector) as [|b0 [|b1 bs]]; simpl in Hlen; try lia;
        repeat constructor.
    - rewrite decide_True.
      2:{ apply Forall_forall. intros b Hin. destruct (Hleast b Hin) as (-> & _). eauto. }
      fold comp. rewrite decide_True by exact Hsw.
      exists (std_sort comp (getBoards detector)). split; [reflexivity|].
      split; [now apply std_sort_permutation|now apply std_sort_ordered]. }
  exists order, least. split; [|split; [exact Hperm|split; [|split; [|split]]]].
  - rewrite (process_innerGrids_from_sort _ _ _ _ _ _ _ _ _ Hi Hv Hp Hb).
    fold corners center. rewrite Hsort. reflexivity.
  - intros b Hin. destruct (Hleast b Hin) as (E & _ & L). auto.
  - intros i j a b Hia Hjb Hlt.
    assert (a ∈ getBoards detector) as Ha
      by (rewrite <- Hperm; eapply list_elem_of_lookup_2, Hia).
    assert (b ∈ getBoards detector) as Hb'
      by (rewrite <- Hperm; eapply list_elem_of_lookup_2, Hjb).
    destruct (Nat.lt_trichotomy i j) as [Hij|[->|Hji]]; [exact Hij| |].
    + rewrite Hia in Hjb. injection Hjb as ->. rewrite ltb_irrefl in Hlt. discriminate.
    + pose proof (StronglySorted_lookup _ _ _ _ _ _ Hsorted Hji Hjb Hia) as Hba.
      unfold not_after in Hba. rewrite Hcomp in Hba by assumption. congruence.
  - apply image_center_small.
  - intros at1 at2 b. apply mindist_with_ext.
Qed.

End BoardOrder.

(** The checks of a detection give the conditions on its corners. *)
Lemma detection_checked `{!Numerics} (corners : list CheckerBoardCorner) (center : Vec2)
    (boards : list CheckerBoard) :
  forallb (fun b => reads_defined_check corners b && distances_check corners center b)
          boards = true ->
  (forall b, b ∈ boards -> reads_defined corners b) /\
  (forall b ij c, b ∈ boards -> ij ∈ defined_cells b ->
     corner_at corners (cell b ij.1 ij.2) = Some c ->
     PrimFloat.is_nan (norm2 (vec2_sub (corner_center c) center)) = false).
Proof.
  rewrite forallb_forall. intros Hall. split.
  - intros b Hb%list_elem_of_In ij Hij%list_elem_of_In.
    apply Hall, andb_true_iff in Hb as [Hr _].
    unfold reads_defined_check in Hr. rewrite forallb_forall in Hr.
    apply Hr in Hij. now apply bool_decide_eq_true in Hij.
  - intros b ij c Hb%list_elem_of_In Hij%list_elem_of_In Hc.
    apply Hall, andb_true_iff in Hb as [_ Hd].
    unfold distances_check in Hd. rewrite forallb_forall in Hd.
    apply Hd in Hij. rewrite Hc in Hij. now apply negb_true_iff in Hij.
Qed.

(** [std::sort] on two elements that are out of order. *)
Lemma std_sort_two `{!Algorithm} {A : Type} (less : A -> A -> bool) (a b : A) :
  strict_weak less [a; b] -> less b a = true -> std_sort less [a; b] = [b; a].
Proof.
  intros Hsw Hba.
  pose proof (std_sort_permutation A less [a; b] Hsw) as Hperm.
  pose proof (std_sort_ordered A less [a; b] Hsw) as Hsorted.
  symmetry in Hperm. apply Permutation_length_2_inv in Hperm as [E|E]; [|exact E].
  rewrite E in Hsorted. apply StronglySorted_inv in Hsorted as [_ Hab].
  apply Forall_cons in Hab as [Hab _]. unfold not_after in Hab. congruence.
Qed.

(** ** process_innerGrids: the loop over the boards *)

Section InnerGrids.
Context `{!Numerics, !Camera, !Multiview, !Refinement}.
Variables (view : View.t) (pinhole : Pinhole.t) (corners : list CheckerBoardCorner)
  (useSimplePinhole : bool).

Local Abbreviation step := (board_step view pinhole corners useSimplePinhole).
Local Abbreviation loop := (boards_loop view pinhole corners useSimplePinhole).
Local Abbreviation points_of := (board_points pinhole corners useSimplePinhole).
Local Abbreviation inliers_of := (board_inliers pinhole corners useSimplePinhole).

Lemma board_step_skip (st : LoopState) (board : CheckerBoard) :
  accepted board = false -> step st board = Continue st.
Proof.
  unfold accepted, board_step. intros Hacc%negb_false_iff. now rewrite Hacc.
Qed.

Lemma accepted_30 (board : CheckerBoard) : accepted board = true <-> 30 <= count_points board.
Proof.
  unfold accepted. destruct (N.ltb_spec (count_points board) 30); simpl; split;
    intros; try lia; try reflexivity; discriminate.
Qed.

(** The second loop over the cells is defined exactly when every corner id of
    the board is within the corner list. *)
Lemma add_corners_defined (b : CheckerBoard) (cx cy : double) (st : LoopState)
    (l : list (nat * nat)) (acc : gmap N Landmark * list Vec3 * list Vec2) :
  is_Some (fold_defined (add_corner pinhole corners useSimplePinhole b cx cy st) acc l) <->
  (forall ij, ij ∈ filter (holds_corner b) l ->
     is_Some (corner_at corners (cell b ij.1 ij.2))).
Proof.
  revert acc. induction l as [|[i j] l IH]; intros [[lms refpts] points]; cbn [fold_defined].
  - split; [|eauto]. intros _ ij Hij. now apply elem_of_nil in Hij.
  - rewrite filter_cons.
    destruct (add_corner pinhole corners useSimplePinhole b cx cy st (lms, refpts, points)
                (i, j)) as [acc'|] eqn:Hadd; cbn [mbind option_bind];
      unfold add_corner in Hadd;
      destruct (decide (holds_corner b (i, j))) as [Hh|Hh]; unfold holds_corner in Hh;
      simpl in Hh; destruct (N.eqb_spec (cell b i j) UndefinedIndexT) as [E|E];
      try tauto; try discriminate.
    + destruct (corner_at corners (cell b i j)) as [c|] eqn:Hc; [|discriminate].
      rewrite IH. split.
      * intros Hall ij [->|Hij]%elem_of_cons; [simpl; rewrite Hc; eauto|now apply Hall].
      * intros Hall ij Hij. apply Hall. now right.
    + apply IH.
    + destruct (corner_at corners (cell b i j)) as [c|] eqn:Hc; [discriminate|].
      split; [intros [? ?]; discriminate|].
      intros Hall. specialize (Hall (i, j) ltac:(left)). simpl in Hall.
      rewrite Hc in Hall. destruct Hall; discriminate.
Qed.

Lemma board_points_defined (st : LoopState) (board : CheckerBoard) :
  is_Some (points_of st board) <-> reads_defined corners board.
Proof. unfold board_points. apply add_corners_defined. Qed.

(** What the body does with a board that has at least 30 defined corners. *)
Lemma board_step_accepted (st : LoopState) (board : CheckerBoard) :
  accepted board = true ->
  step st board =
    match points_of st board with
    | None => UndefinedRead
    | Some (lms, refpts, points) =>
        if (length (ACRANSAC_resection points refpts (Pinhole.K pinhole)).1 <? 10)%nat
        then ReturnFalse (set_landmarks lms (scene st))
        else Continue (accept_board view st lms
                         (ACRANSAC_resection points refpts (Pinhole.K pinhole)).2)
    end.
Proof.
  unfold accepted, board_step. intros Hacc%negb_true_iff. rewrite Hacc.
  destruct (points_of st board) as [[[lms refpts] points]|]; [|reflexivity].
  now destruct (ACRANSAC_resection points refpts (Pinhole.K pinhole)) as [inl model].
Qed.

(** An accepted board after which the loop goes on. *)
Lemma board_step_Continue (st st' : LoopState) (board : CheckerBoard) :
  accepted board = true -> step st board = Continue st' ->
  exists lms refpts points vec_inliers model,
    points_of st board = Some (lms, refpts, points) /\
    ACRANSAC_resection points refpts (Pinhole.K pinhole) = (vec_inliers, model) /\
    (10 <= length vec_inliers)%nat /\
    st' = accept_board view st lms model.
Proof.
  intros Hacc Hs. rewrite (board_step_accepted st board Hacc) in Hs.
  destruct (points_of st board) as [[[lms refpts] points]|]; [|discriminate].
  destruct (ACRANSAC_resection points refpts (Pinhole.K pinhole)) as [inl model] eqn:E.
  simpl in Hs. destruct (Nat.ltb_spec (length inl) 10); [discriminate|].
  injection Hs as <-. exists lms, refpts, points, inl, model. auto.
Qed.

Lemma accept_board_fields (st : LoopState) (lms : gmap N Landmark) (model : Mat34) :
  let st' := accept_board view st lms model in
  idx_checkerboard_valid st' = wrap_size_t (idx_checkerboard_valid st + 1) /\
  localSquareSize st' =
    (if idx_checkerboard_valid st <? 2
     then (localSquareSize st * 2)%float else localSquareSize st) /\
  landmarks (scene st') = lms /\
  intrinsics (scene st') = intrinsics (scene st) /\
  views (scene st') !! wrap_IndexT (idx_checkerboard_valid st) =
    Some (View.setPoseId (wrap_IndexT (idx_checkerboard_valid st))
            (View.setViewId (wrap_IndexT (idx_checkerboard_valid st)) view)) /\
  is_Some (poses (scene st') !! wrap_IndexT (idx_checkerboard_valid st)).
Proof.
  unfold accept_board. destruct (KRt_from_P model) as [[K0 R] t]. simpl.
  repeat split; try reflexivity.
  - apply lookup_insert_eq.
  - rewrite lookup_insert_eq. eauto.
Qed.

Lemma boards_loop_app (pre rest : list CheckerBoard) (st : LoopState) :
  loop (pre ++ rest) st =
    match loop pre st with
    | Continue st' => loop rest st'
    | ReturnFalse s => ReturnFalse s
    | UndefinedRead => UndefinedRead
    end.
Proof.
  revert st. induction pre as [|b pre IH]; intros st; simpl; [reflexivity|].
  destruct (step st b); [apply IH|reflexivity|reflexivity].
Qed.

Lemma boards_loop_filter (boards : list CheckerBoard) (st : LoopState) :
  loop boards st = loop (List.filter accepted boards) st.
Proof.
  revert st. induction boards as [|b boards IH]; intros st; simpl; [reflexivity|].
  destruct (accepted b) eqn:E; simpl.
  - destruct (step st b); [apply IH|reflexivity|reflexivity].
  - rewrite (board_step_skip _ _ E). apply IH.
Qed.

(** One board of a loop that goes on to its end. *)
Lemma boards_loop_cons (b : CheckerBoard) (boards : list CheckerBoard)
    (st0 st : LoopState) :
  loop (b :: boards) st0 = Continue st ->
  exists st1, step st0 b = Continue st1 /\ loop boards st1 = Continue st.
Proof. simpl. destruct (step st0 b) as [st1| |]; try discriminate. eauto. Qed.

Lemma size_after_step (k : nat) :
  (if N.of_nat k <? 2 then (size_after k * 2)%float else size_after k) = size_after (S k).
Proof. destruct k as [|[|k]]; try reflexivity. simpl size_after.
  destruct (N.ltb_spec (N.of_nat (S (S k))) 2); [lia|reflexivity].
Qed.

Lemma loop_sizes (pre : list CheckerBoard) (k : nat) (st0 st : LoopState) :
  idx_checkerboard_valid st0 = N.of_nat k ->
  localSquareSize st0 = size_after k ->
  loop pre st0 = Continue st ->
  N.of_nat (k + length (List.filter accepted pre)) < size_t_modulus ->
  idx_checkerboard_valid st = N.of_nat (k + length (List.filter accepted pre)) /\
  localSquareSize st = size_after (k + length (List.filter accepted pre)).
Proof.
  revert k st0. induction pre as [|b pre IH]; intros k st0 Hidx Hsz Hloop Hlt.
  - simpl in *. injection Hloop as <-. rewrite Nat.add_0_r. auto.
  - apply boards_loop_cons in Hloop as (st1 & Hs & Hloop). simpl in Hlt |- *.
    destruct (accepted b) eqn:E.
    + destruct (board_step_Continue st0 st1 b E Hs)
        as (lms & refpts & points & inl & model & _ & _ & _ & ->).
      destruct (accept_board_fields st0 lms model) as (Hi & Hz & _).
      simpl length in *. replace (k + S (length (List.filter accepted pre)))%nat
        with (S k + length (List.filter accepted pre))%nat in * by lia.
      apply (IH (S k) (accept_board view st0 lms model)); try assumption.
      * rewrite Hi, Hidx. unfold wrap_size_t. rewrite N.mod_small; lia.
      * rewrite Hz, Hidx, Hsz. apply size_after_step.
    + rewrite (board_step_skip _ _ E) in Hs. injection Hs as <-. now apply (IH k st0).
Qed.

(** C3 (as amended).  When the loop has gone through the boards [pre] without
    failing, the acceptance index is the number [n] of boards of [pre] with at
    least 30 defined corners, and the square size applied to the next accepted
    board is [size_after n]: 0.25 for the first accepted board, 0.5 for the
    second, and 1 for every later one. *)
Theorem square_size_doubles_twice (sfmData : SfMData) (pre : list CheckerBoard)
    (st : LoopState) :
  loop pre (loop_start sfmData) = Continue st ->
  N.of_nat (length (List.filter accepted pre)) < size_t_modulus ->
  idx_checkerboard_valid st = N.of_nat (length (List.filter accepted pre)) /\
  localSquareSize st = size_after (length (List.filter accepted pre)) /\
  size_after 0 = 0.25%float /\ size_after 1 = 0.5%float /\
  (forall n, (2 <= n)%nat -> size_after n = 1%float).
Proof.
  intros Hloop Hlt.
  destruct (loop_sizes pre 0 (loop_start sfmData) st eq_refl eq_refl Hloop Hlt) as [Hi Hs].
  repeat split; try assumption.
  intros [|[|n]] Hn; try lia. reflexivity.
Qed.


Lemma accept_board_poses (st : LoopState) (lms : gmap N Landmark) (model : Mat34) :
  poses (scene (accept_board view st lms model)) =
    <[wrap_IndexT (idx_checkerboard_valid st) :=
        (let '(_, R, t) := KRt_from_P model in
         mkCameraPose (mkPose3 R (opp_transpose_mul R t)) false)]> (poses (scene st)).
Proof. unfold accept_board. destruct (KRt_from_P model) as [[K0 R] t]. reflexivity. Qed.

(** Once a board has been accepted, later boards do not touch the pose under
    index 0 (fewer than [2^32] boards are accepted). *)
Lemma later_boards_keep_pose_0 (pre : list CheckerBoard) (k : nat) (st0 st : LoopState) :
  idx_checkerboard_valid st0 = N.of_nat k -> (1 <= k)%nat ->
  N.of_nat (k + length (List.filter accepted pre)) < IndexT_modulus ->
  loop pre st0 = Continue st ->
  poses (scene st) !! 0 = poses (scene st0) !! 0.
Proof.
  revert k st0. induction pre as [|b pre IH]; intros k st0 Hidx Hk Hlt Hloop.
  - simpl in *. now injection Hloop as <-.
  - apply boards_loop_cons in Hloop as (st1 & Hs & Hloop). simpl in Hlt.
    destruct (accepted b) eqn:E.
    + destruct (board_step_Continue st0 st1 b E Hs)
        as (lms & refpts & points & inl & model & _ & _ & _ & ->).
      destruct (accept_board_fields st0 lms model) as (Hi & _).
      simpl length in Hlt.
      rewrite (IH (S k) (accept_board view st0 lms model)); try assumption; try lia.
      * rewrite accept_board_poses, Hidx. apply lookup_insert_ne.
        unfold wrap_IndexT. rewrite N.mod_small; lia.
      * rewrite Hi, Hidx. unfold wrap_size_t. rewrite N.mod_small; [lia|].
        unfold size_t_modulus, IndexT_modulus in *. lia.
    + rewrite (board_step_skip _ _ E) in Hs. injection Hs as <-. now apply (IH k st0).
Qed.

(** The boards before the first accepted one leave the state as it is. *)
Lemma skipped_boards (skipped : list CheckerBoard) (st : LoopState) :
  Forall (fun b => accepted b = false) skipped -> loop skipped st = Continue st.
Proof.
  induction 1 as [|b l Hb _ IH]; [reflexivity|].
  simpl. now rewrite (board_step_skip _ _ Hb).
Qed.

(** The pose under index 0 when the loop ends. *)
Lemma pose_0_after_loop (s0 : SfMData) (skipped later : list CheckerBoard)
    (board : CheckerBoard) (st : LoopState) :
  Forall (fun b => accepted b = false) skipped -> accepted board = true ->
  N.of_nat (1 + length (List.filter accepted later)) < IndexT_modulus ->
  loop (skipped ++ board :: later) (loop_start s0) = Continue st ->
  is_Some (estimated_pose pinhole corners useSimplePinhole (loop_start s0) board) /\
  poses (scene st) !! 0 =
    estimated_pose pinhole corners useSimplePinhole (loop_start s0) board.
Proof.
  intros Hsk Hb Hlt Hloop.
  rewrite boards_loop_app, (skipped_boards _ _ Hsk) in Hloop.
  apply boards_loop_cons in Hloop as (st1 & Hs & Hloop).
  destruct (board_step_Continue _ _ _ Hb Hs)
    as (lms & refpts & points & inl & model & Hp & Hr & _ & ->).
  destruct (accept_board_fields (loop_start s0) lms model) as (Hi & _).
  rewrite (later_boards_keep_pose_0 later 1
             (accept_board view (loop_start s0) lms model) st);
    try assumption; try lia.
  rewrite accept_board_poses. simpl idx_checkerboard_valid.
  change (wrap_IndexT 0) with 0. rewrite lookup_insert_eq.
  unfold estimated_pose. rewrite Hp. cbn [mbind option_bind]. rewrite Hr. cbn [snd].
  destruct (KRt_from_P model) as [[K0 R] t]. split; [eauto|reflexivity].
Qed.

(** The pose under index 0 at the end of the loop is the one estimated for the
    first board with at least 30 defined corners. *)
Lemma first_accepted_board_pose_at_0 (sfmData : SfMData)
    (skipped later : list CheckerBoard) (board : CheckerBoard) (st : LoopState) :
  Forall (fun b => accepted b = false) skipped -> accepted board = true ->
  N.of_nat (1 + length (List.filter accepted later)) < IndexT_modulus ->
  loop (skipped ++ board :: later) (loop_start sfmData) = Continue st ->
  is_Some (estimated_pose pinhole corners useSimplePinhole (loop_start sfmData) board) /\
  poses (scene st) !! 0 =
    estimated_pose pinhole corners useSimplePinhole (loop_start sfmData) board.
Proof.
  intros Hsk Hb Hlt Hloop.
  rewrite boards_loop_app, (skipped_boards _ _ Hsk) in Hloop.
  apply boards_loop_cons in Hloop as (st1 & Hs & Hloop).
  destruct (board_step_Continue _ _ _ Hb Hs)
    as (lms & refpts & points & inl & model & Hp & Hr & _ & ->).
  destruct (accept_board_fields (loop_start sfmData) lms model) as (Hi & _).
  split.
  - unfold estimated_pose. rewrite Hp. cbn [mbind option_bind]. rewrite Hr. cbn [snd].
    destruct (KRt_from_P model) as [[K0 R] t]. eauto.
  - rewrite (later_boards_keep_pose_0 later 1
               (accept_board view (loop_start sfmData) lms model) st);
      try assumption; try lia.
    rewrite accept_board_poses. simpl idx_checkerboard_valid.
    change (wrap_IndexT 0) with 0. rewrite lookup_insert_eq.
    unfold estimated_pose. rewrite Hp. cbn [mbind option_bind]. rewrite Hr. cbn [snd].
    now destruct (KRt_from_P model) as [[K0 R] t].
Qed.

End InnerGrids.

(** ** process_innerGrids: the aspect correction and the final scene *)

Section InnerGridsEnd.
Context `{!Numerics, !Camera, !Multiview, !Refinement}.

(** C8 (as amended).  The vertical-scale equalization sets the scale to
    (scale(0), scale(0)): on an intrinsic whose two scales are already equal
    the scale vector is unchanged, and a second run gives the same scale as the
    first.  Every observation keeps its x-coordinate, feature id and scale,
    and its y-coordinate is recomputed as
    [(y - pp) / scale(1) * scale(0) + pp] in double arithmetic, with [pp] the
    vertical coordinate of the principal point. *)
Theorem equalize_vertical_scale_idempotent_on_scale (pinhole : Pinhole.t)
    (lms : gmap N Landmark) :
  let p' := (equalize_vertical_scale pinhole lms).1 in
  let lms' := (equalize_vertical_scale pinhole lms).2 in
  let pp := snd (getPrincipalPoint (Pinhole.setRatioLocked true pinhole)) in
  Pinhole.scale p' = (fst (Pinhole.scale pinhole), fst (Pinhole.scale pinhole)) /\
  (snd (Pinhole.scale pinhole) = fst (Pinhole.scale pinhole) ->
     Pinhole.scale p' = Pinhole.scale pinhole) /\
  Pinhole.scale (equalize_vertical_scale p' lms').1 = Pinhole.scale p' /\
  (forall k l, lms !! k = Some l ->
     exists l', lms' !! k = Some l' /\ X l' = X l /\ descType l' = descType l /\
       forall v o, observations l !! v = Some o ->
         observations l' !! v =
           Some (mkObservation
                   (fst (obs_x o),
                    ((snd (obs_x o) - pp) / snd (Pinhole.scale pinhole)
                     * fst (Pinhole.scale pinhole) + pp)%float)
                   (id_feat o) (obs_scale o))).
Proof.
  simpl. repeat split.
  - intros E. destruct (Pinhole.scale pinhole) as [sx sy]. simpl in *. now subst.
  - intros k l Hk. eexists. split; [rewrite lookup_fmap, Hk; reflexivity|].
    simpl. repeat split. intros v o Hv. rewrite lookup_fmap, Hv. reflexivity.
Qed.

Lemma finalize_views_poses (viewId : N) (view : View.t) (s : SfMData) :
  views (finalize viewId view s) = {[viewId := view]} /\
  poses (finalize viewId view s) =
    {[viewId := default default_CameraPose (poses s !! 0)]} /\
  landmarks (finalize viewId view s) = landmarks s /\
  intrinsics (finalize viewId view s) = intrinsics s.
Proof. unfold finalize. simpl. rewrite !insert_empty. auto. Qed.

Lemma before_refinement_poses (intrinsicId : N) (pinhole : Pinhole.t)
    (useSimplePinhole : bool) (s : SfMData) :
  poses (before_refinement intrinsicId pinhole useSimplePinhole s) = poses s /\
  views (before_refinement intrinsicId pinhole useSimplePinhole s) = views s /\
  landmarks (before_refinement intrinsicId pinhole useSimplePinhole s) = landmarks s.
Proof. unfold before_refinement. now destruct useSimplePinhole. Qed.

Lemma between_refinements_poses (intrinsicId : N) (s : SfMData) :
  poses (between_refinements intrinsicId s) = poses s /\
  views (between_refinements intrinsicId s) = views s.
Proof.
  unfold between_refinements. destruct (pinhole_at s intrinsicId) as [p|]; [|auto].
  now destruct (equalize_vertical_scale p (landmarks s)).
Qed.

(** What [process_innerGrids] has gone through when it returns true. *)
Lemma innerGrids_success `{!Algorithm} (sfmData : SfMData)
    (boardsAllImages : gmap N CheckerDetector) (squareSize distance : double)
    (useSimplePinhole : bool) (final : SfMData) :
  process_innerGrids sfmData boardsAllImages squareSize distance useSimplePinhole
    = Some (true, final) ->
  exists viewId detector view pinhole order st,
    items boardsAllImages = [(viewId, detector)] /\
    views sfmData !! viewId = Some view /\
    pinhole_at sfmData (View.intrinsicId view) = Some pinhole /\
    getBoards detector <> [] /\
    sort_boards (getCorners detector) (image_center view) (getBoards detector)
      = Some order /\
    boards_loop view pinhole (getCorners detector) useSimplePinhole order
      (loop_start (set_poses ∅ (set_landmarks ∅ sfmData))) = Continue st /\
    refine_and_finalize viewId view (View.intrinsicId view) pinhole distance
      useSimplePinhole st = (true, final).
Proof.
  unfold process_innerGrids. intros Hp.
  destruct (items boardsAllImages) as [|[viewId detector] [|? ?]]; try discriminate.
  simpl in Hp.
  destruct (views sfmData !! viewId) as [view|] eqn:Hv; [|discriminate]. simpl in Hp.
  unfold pinhole_at.
  destruct (intrinsics sfmData !! View.intrinsicId view) as [[pinhole|]|] eqn:Hint;
    simpl in Hp; try discriminate.
  destruct (getBoards detector) as [|b0 bs] eqn:Eb; [discriminate|].
  change (length (b0 :: bs) <? 1)%nat with false in Hp. cbv iota in Hp.
  destruct (sort_boards _ _ _) as [order|] eqn:Hsort; [|discriminate].
  cbn [mbind option_bind] in Hp.
  destruct (boards_loop _ _ _ _ _ _) as [st| |] eqn:Hloop; try discriminate.
  cbn [after_boards] in Hp. injection Hp as Hp.
  exists viewId, detector, view, pinhole, order, st.
  split; [reflexivity|]. split; [exact Hv|]. split; [now rewrite Hint|].
  rewrite ?Eb. split; [congruence|]. split; [exact Hsort|]. split; [exact Hloop|exact Hp].
Qed.


End InnerGridsEnd.

(** ** Iteration over a std::map *)

Section Items.
Context {A : Type}.

Lemma items_perm (m : gmap N A) : items m ≡ₚ map_to_list m.
Proof. apply merge_sort_Permutation. Qed.

Lemma elem_of_items (m : gmap N A) (k : N) (x : A) : (k, x) ∈ items m <-> m !! k = Some x.
Proof. rewrite items_perm. apply elem_of_map_to_list. Qed.

Lemma NoDup_fst_items (m : gmap N A) : NoDup (items m).*1.
Proof. rewrite items_perm. apply NoDup_fst_map_to_list. Qed.

(** The keys are visited in increasing order. *)
Lemma items_sorted (m : gmap N A) : StronglySorted key_le (items m).
Proof.
  apply StronglySorted_merge_sort.
  - intros x y z. unfold key_le. lia.
  - intros x y. unfold key_le. lia.
Qed.

End Items.

(** ** Loops with reads that can be undefined *)

Section DefinedFolds.
Context {A B : Type}.

Lemma fold_defined_cons_Some (f : A -> B -> option A) (x : B) (l : list B) (a r : A) :
  fold_defined f a (x :: l) = Some r ->
  exists a', f a x = Some a' /\ fold_defined f a' l = Some r.
Proof. cbn [fold_defined]. destruct (f a x) as [a'|]; [eauto|discriminate]. Qed.

Lemma fold_defined_is_Some (f : A -> B -> option A) (l : list B) (a : A) :
  (forall a x, x ∈ l -> is_Some (f a x)) -> is_Some (fold_defined f a l).
Proof.
  revert a. induction l as [|x l IH]; intros a Hall; cbn [fold_defined]; [eauto|].
  destruct (Hall a x ltac:(left)) as [a' ->]. cbn [mbind option_bind].
  apply IH. intros a0 y Hy. apply Hall. now right.
Qed.

Lemma fold_defined_reads (f : A -> B -> option A) (P : B -> Prop) (l : list B) (a : A) :
  (forall a x, is_Some (f a x) <-> P x) ->
  is_Some (fold_defined f a l) <-> forall x, x ∈ l -> P x.
Proof.
  intros Hf. revert a. induction l as [|x l IH]; intros a; cbn [fold_defined].
  - split; [|eauto]. intros _ y Hy. now apply elem_of_nil in Hy.
  - destruct (f a x) as [a'|] eqn:E; cbn [mbind option_bind].
    + rewrite IH. split.
      * intros Hall y [->|Hy]%elem_of_cons; [apply (Hf a); rewrite E; eauto|now apply Hall].
      * intros Hall y Hy. apply Hall. now right.
    + split; [intros [? ?]; discriminate|].
      intros Hall. specialize (Hall x ltac:(left)). apply (Hf a) in Hall.
      rewrite E in Hall. destruct Hall; discriminate.
Qed.

End DefinedFolds.

(** ** process_basic *)

Section Basic.
Context `{!Numerics, !Camera, !Multiview, !Refinement}.

(** C1, what the code does.  With fewer than 2 detection sets [process_basic]
    returns [EXIT_FAILURE] converted to [bool], which is true, and leaves the
    scene untouched. *)
Theorem process_basic_too_few_views_returns_true (sfmData : SfMData)
    (boardsAllImages : gmap N CheckerDetector) (squareSize : double) :
  (size boardsAllImages < 2)%nat ->
  process_basic sfmData boardsAllImages squareSize = Some (true, sfmData).
Proof.
  intros Hs. unfold process_basic.
  destruct (Nat.ltb_spec (size boardsAllImages) 2); [reflexivity|lia].
Qed.

(** The reads of [homography_points] are those of the defined cells. *)
Lemma homography_points_defined (cameraPinhole : Pinhole.t) (detector : CheckerDetector)
    (squareSize : double) (b : CheckerBoard) :
  is_Some (homography_points cameraPinhole detector squareSize b) <->
  reads_defined (getCorners detector) b.
Proof.
  unfold homography_points, reads_defined, defined_cells.
  rewrite (fold_defined_reads _
             (fun ij => holds_corner b ij ->
                        is_Some (corner_at (getCorners detector) (cell b ij.1 ij.2)))).
  - split.
    + intros Hall ij [Hh Hin]%list_elem_of_filter. now apply Hall.
    + intros Hall ij Hin Hh. apply Hall. now apply list_elem_of_filter.
  - intros [refpts points] [i j]. unfold holds_corner. simpl.
    destruct (N.eqb_spec (cell b i j) UndefinedIndexT) as [E|E].
    + split; [tauto|eauto].
    + destruct (corner_at (getCorners detector) (cell b i j)); simpl.
      * split; eauto.
      * split; [intros [? ?]; discriminate|]. intros Hs.
        destruct (Hs E); discriminate.
Qed.

Lemma gather_view_Some (cameraPinhole : Pinhole.t)
    (boardsAllImages : gmap N CheckerDetector) (squareSize : double)
    (intrinsicId : N) (g g' : Gathered) (pv : N * View.t) :
  gather_view cameraPinhole boardsAllImages squareSize intrinsicId g pv = Some g' ->
  homographies g' =
    match view_homography cameraPinhole boardsAllImages squareSize intrinsicId pv with
    | Some Hm => <[pv.1 := Hm]> (homographies g)
    | None => homographies g
    end.
Proof.
  unfold gather_view, view_homography, view_fit.
  destruct (decide (View.intrinsicId pv.2 = intrinsicId)); [|now intros [= <-]].
  destruct (getBoards _) as [|b [|? ?]]; try (now intros [= <-]).
  destruct (homography_points _ _ _ _) as [[refpts points]|]; [|discriminate].
  cbn [mbind option_bind].
  destruct (ACRANSAC_homography _ _ _ _) as [inl Hm].
  destruct (length inl <? 10)%nat; now intros [= <-].
Qed.

Lemma gather_fold_other (cameraPinhole : Pinhole.t)
    (boardsAllImages : gmap N CheckerDetector) (squareSize : double)
    (intrinsicId : N) (l : list (N * View.t)) (g g' : Gathered) (v : N) :
  fold_defined (gather_view cameraPinhole boardsAllImages squareSize intrinsicId) g l
    = Some g' ->
  v ∉ l.*1 -> homographies g' !! v = homographies g !! v.
Proof.
  revert g. induction l as [|pv l IH]; intros g Hg Hv.
  - now injection Hg as <-.
  - apply fold_defined_cons_Some in Hg as (g1 & Hg1 & Hg).
    simpl in Hv. apply not_elem_of_cons in Hv as [Hne Hv].
    rewrite (IH _ Hg Hv), (gather_view_Some _ _ _ _ _ _ _ Hg1).
    destruct (view_homography _ _ _ _ _); [|reflexivity].
    now apply lookup_insert_ne.
Qed.

Lemma gather_fold_view (cameraPinhole : Pinhole.t)
    (boardsAllImages : gmap N CheckerDetector) (squareSize : double)
    (intrinsicId : N) (l : list (N * View.t)) (g g' : Gathered) (v : N) (view : View.t) :
  fold_defined (gather_view cameraPinhole boardsAllImages squareSize intrinsicId) g l
    = Some g' ->
  NoDup l.*1 -> (v, view) ∈ l ->
  homographies g' !! v =
    match view_homography cameraPinhole boardsAllImages squareSize intrinsicId (v, view) with
    | Some Hm => Some Hm
    | None => homographies g !! v
    end.
Proof.
  revert g. induction l as [|pv l IH]; intros g Hg Hnd Hin; [now apply elem_of_nil in Hin|].
  apply fold_defined_cons_Some in Hg as (g1 & Hg1 & Hg).
  simpl in Hnd. apply NoDup_cons in Hnd as [Hpv Hnd].
  apply elem_of_cons in Hin as [<-|Hin].
  - simpl in Hpv.
    rewrite (gather_fold_other _ _ _ _ _ _ _ v Hg Hpv), (gather_view_Some _ _ _ _ _ _ _ Hg1).
    destruct (view_homography _ _ _ _ _); [apply lookup_insert_eq|reflexivity].
  - rewrite (IH _ Hg Hnd Hin).
    destruct (view_homography _ _ _ _ (v, view)); [reflexivity|].
    rewrite (gather_view_Some _ _ _ _ _ _ _ Hg1).
    destruct (view_homography _ _ _ _ pv); [|reflexivity].
    apply lookup_insert_ne. intros E. apply Hpv. rewrite E.
    apply list_elem_of_fmap. now exists (v, view).
Qed.

(** The homography of a view, as the loop over the views leaves it. *)
Lemma gather_homographies_lookup (cameraPinhole : Pinhole.t) (sfmData : SfMData)
    (boardsAllImages : gmap N CheckerDetector) (squareSize : double)
    (intrinsicId : N) (g : Gathered) (v : N) :
  gather_homographies cameraPinhole sfmData boardsAllImages squareSize intrinsicId
    = Some g ->
  homographies g !! v =
    match views sfmData !! v with
    | Some view =>
        view_homography cameraPinhole boardsAllImages squareSize intrinsicId (v, view)
    | None => None
    end.
Proof.
  unfold gather_homographies. intros Hg.
  destruct (views sfmData !! v) as [view|] eqn:Hv.
  - rewrite (gather_fold_view _ _ _ _ _ _ _ v view Hg (NoDup_fst_items _));
      [|now apply elem_of_items].
    now destruct (view_homography _ _ _ _ _).
  - rewrite (gather_fold_other _ _ _ _ _ _ _ v Hg); [reflexivity|].
    intros [[v' view] [-> Hin]]%list_elem_of_fmap. apply elem_of_items in Hin.
    simpl in Hv. congruence.
Qed.

(** A view with a homography has exactly one board, whose corners were read
    within the corner list. *)
Lemma view_homography_reads (cameraPinhole : Pinhole.t)
    (boardsAllImages : gmap N CheckerDetector) (squareSize : double)
    (intrinsicId : N) (pv : N * View.t) (Hm : Mat3) :
  view_homography cameraPinhole boardsAllImages squareSize intrinsicId pv = Some Hm ->
  exists b,
    getBoards (default default_CheckerDetector (boardsAllImages !! pv.1)) = [b] /\
    reads_defined
      (getCorners (default default_CheckerDetector (boardsAllImages !! pv.1))) b.
Proof.
  unfold view_homography, view_fit.
  destruct (decide _); [|discriminate].
  destruct (getBoards _) as [|b [|? ?]]; try discriminate.
  destruct (homography_points _ _ _ _) as [[refpts points]|] eqn:Hp; [|discriminate].
  intros _. exists b. split; [reflexivity|].
  apply (homography_points_defined cameraPinhole _ squareSize). rewrite Hp. eauto.
Qed.

Lemma add_view_observations_defined (boardsAllImages : gmap N CheckerDetector)
    (ind : list (list N)) (lms : gmap N Landmark) (viewId : N) (b : CheckerBoard)
    (bs : list CheckerBoard) :
  getBoards (default default_CheckerDetector (boardsAllImages !! viewId)) = b :: bs ->
  reads_defined
    (getCorners (default default_CheckerDetector (boardsAllImages !! viewId))) b ->
  is_Some (add_view_observations boardsAllImages ind lms viewId).
Proof.
  intros Hb Hr. unfold add_view_observations. rewrite Hb.
  apply fold_defined_is_Some. intros m [i j] Hin.
  destruct (cell ind i j =? UndefinedIndexT); [eauto|].
  destruct (N.eqb_spec (cell b i j) UndefinedIndexT) as [E|E]; [eauto|].
  destruct (Hr (i, j)) as [c Hc].
  { apply list_elem_of_filter. split; [exact E|exact Hin]. }
  simpl in Hc. rewrite Hc. simpl. eauto.
Qed.

(** The reads of the residual loop are among those of the loop over the views:
    once the homographies are there, the observations are defined. *)
Lemma add_observations_defined (cameraPinhole : Pinhole.t) (sfmData : SfMData)
    (boardsAllImages : gmap N CheckerDetector) (squareSize : double)
    (intrinsicId : N) (g : Gathered) (ind : list (list N)) (s : SfMData) :
  gather_homographies cameraPinhole sfmData boardsAllImages squareSize intrinsicId
    = Some g ->
  exists lms,
    fold_defined (fun m pH => add_view_observations boardsAllImages ind m pH.1)
      (landmarks s) (items (homographies g)) = Some lms /\
    add_observations boardsAllImages ind (homographies g) s = Some (set_landmarks lms s).
Proof.
  intros Hg. unfold add_observations.
  destruct (fold_defined_is_Some
              (fun m pH => add_view_observations boardsAllImages ind m pH.1)
              (items (homographies g)) (landmarks s)) as [lms Hl].
  - intros m [v Hm] Hin. apply elem_of_items in Hin.
    rewrite (gather_homographies_lookup _ _ _ _ _ _ v Hg) in Hin.
    destruct (views sfmData !! v) as [view|]; [|discriminate].
    destruct (view_homography_reads _ _ _ _ _ _ Hin) as (b & Hb & Hr).
    now apply (add_view_observations_defined _ _ _ _ b []).
  - exists lms. rewrite Hl. auto.
Qed.

Lemma init_poses_intrinsics (A : Mat3) (hs : gmap N Mat3) (s : SfMData) :
  intrinsics (init_poses A hs s) = intrinsics s.
Proof.
  unfold init_poses. revert s. induction (items hs) as [|pH l IH]; intros s; [reflexivity|].
  simpl. now rewrite IH.
Qed.

Lemma init_poses_intrinsics_at (A : Mat3) (hs : gmap N Mat3) (s : SfMData) (id : N) :
  pinhole_at (init_poses A hs s) id = pinhole_at s id.
Proof. unfold pinhole_at. now rewrite init_poses_intrinsics. Qed.

Lemma pinhole_at_put (intrinsicId : N) (p : Pinhole.t) (s : SfMData) :
  pinhole_at (put_pinhole intrinsicId p s) intrinsicId = Some p.
Proof. unfold pinhole_at, put_pinhole. simpl. now rewrite lookup_insert_eq. Qed.

(** One iteration for a pinhole intrinsic, once the loop over the views has
    ended: the scene on which the refinement is called. *)
Lemma intrinsic_step_pinhole (boardsAllImages : gmap N CheckerDetector)
    (squareSize : double) (st : BasicState) (intrinsicId : N)
    (cameraPinhole : Pinhole.t) (g : Gathered) :
  pinhole_at (basic_scene st) intrinsicId = Some cameraPinhole ->
  gather_homographies cameraPinhole (basic_scene st) boardsAllImages squareSize
    intrinsicId = Some g ->
  let A := zhang_A (zhang_B (svd_last_V_column (zhang_V (homographies g)))) in
  (first st = false /\
   (global_max_checkerboard_h st <> max_checkerboard_h g \/
    global_max_checkerboard_w st <> max_checkerboard_w g) /\
   intrinsic_step boardsAllImages squareSize st intrinsicId
     = BasicReturnFalse
         (put_pinhole intrinsicId (Pinhole.setK A cameraPinhole) (basic_scene st))) \/
  (exists s_in ok s_out st',
     pinhole_at s_in intrinsicId = Some (Pinhole.setK A cameraPinhole) /\
     adjust None basic_boptions s_in = (ok, s_out) /\
     basic_scene st' = s_out /\
     intrinsic_step boardsAllImages squareSize st intrinsicId
       = if ok then NextIntrinsic st' else BasicReturnFalse s_out).
Proof.
  intros Hp Hg A. unfold intrinsic_step. rewrite Hp, Hg.
  change (solve_intrinsic intrinsicId cameraPinhole (homographies g) (basic_scene st))
    with (A, Pinhole.setK A cameraPinhole,
          put_pinhole intrinsicId (Pinhole.setK A cameraPinhole) (basic_scene st)).
  cbv beta iota zeta.
  destruct (first st) eqn:Hf.
  - right. destruct (create_landmarks _ _ _ _) as [ind lms].
    cbn [basic_scene indices].
    match goal with |- context [add_observations ?b ?i ?h ?s] =>
      destruct (add_observations_defined _ _ _ _ _ _ i s Hg) as (lms' & _ & ->)
    end.
    destruct (adjust _ _ _) as [ok s4] eqn:Ha.
    eexists _, ok, s4, _. split; [|split; [exact Ha|]].
    + unfold pinhole_at. simpl. rewrite init_poses_intrinsics. simpl.
      now rewrite lookup_insert_eq.
    + split; [|destruct ok; reflexivity]. reflexivity.
  - destruct (negb _ || negb _) eqn:Hsz.
    + left. split; [reflexivity|]. split; [|reflexivity].
      apply orb_true_iff in Hsz as [Hsz|Hsz]; apply negb_true_iff, N.eqb_neq in Hsz; auto.
    + right. cbn [basic_scene indices].
      match goal with |- context [add_observations ?b ?i ?h ?s] =>
        destruct (add_observations_defined _ _ _ _ _ _ i s Hg) as (lms' & _ & ->)
      end.
      destruct (adjust _ _ _) as [ok s4] eqn:Ha.
      eexists _, ok, s4, _. split; [|split; [exact Ha|]].
      * unfold pinhole_at. simpl. rewrite init_poses_intrinsics. simpl.
        now rewrite lookup_insert_eq.
      * split; [|destruct ok; reflexivity]. reflexivity.
Qed.

(** C2 (as amended).  The closed-form recovery has no failure path: whatever
    homographies are there and whatever vector the SVD returns, the matrix [A]
    computed from [B] is stored in the intrinsic by [setK].  In an iteration of
    the loop over the intrinsics, for a pinhole intrinsic, the loop over the
    views either reads past the end of a corner list, which is undefined, or
    leaves its homographies; then either the checkerboard size differs from
    that of the first intrinsic and the iteration returns false, or the
    refinement is called on a scene whose intrinsic holds [A], and the
    iteration returns false exactly when the refinement fails. *)
Theorem zhang_matrix_is_always_written (boardsAllImages : gmap N CheckerDetector)
    (squareSize : double) (st : BasicState) (intrinsicId : N)
    (cameraPinhole : Pinhole.t) :
  (forall hs : gmap N Mat3,
     let A := zhang_A (zhang_B (svd_last_V_column (zhang_V hs))) in
     solve_intrinsic intrinsicId cameraPinhole hs (basic_scene st)
       = (A, Pinhole.setK A cameraPinhole,
          put_pinhole intrinsicId (Pinhole.setK A cameraPinhole) (basic_scene st)) /\
     Pinhole.K (Pinhole.setK A cameraPinhole) = A) /\
  (pinhole_at (basic_scene st) intrinsicId = Some cameraPinhole ->
   match gather_homographies cameraPinhole (basic_scene st) boardsAllImages squareSize
           intrinsicId with
   | None => intrinsic_step boardsAllImages squareSize st intrinsicId = BasicUndefined
   | Some g =>
       let A := zhang_A (zhang_B (svd_last_V_column (zhang_V (homographies g)))) in
       (first st = false /\
        (global_max_checkerboard_h st <> max_checkerboard_h g \/
         global_max_checkerboard_w st <> max_checkerboard_w g) /\
        intrinsic_step boardsAllImages squareSize st intrinsicId
          = BasicReturnFalse
              (put_pinhole intrinsicId (Pinhole.setK A cameraPinhole) (basic_scene st))) \/
       (exists s_in ok s_out st',
          pinhole_at s_in intrinsicId = Some (Pinhole.setK A cameraPinhole) /\
          adjust None basic_boptions s_in = (ok, s_out) /\
          basic_scene st' = s_out /\
          intrinsic_step boardsAllImages squareSize st intrinsicId
            = if ok then NextIntrinsic st' else BasicReturnFalse s_out)
   end).
Proof.
  split; [intros hs A; split; reflexivity|].
  intros Hp.
  destruct (gather_homographies _ _ _ _ _) as [g|] eqn:Hg.
  - exact (intrinsic_step_pinhole _ _ _ _ _ _ Hp Hg).
  - unfold intrinsic_step. now rewrite Hp, Hg.
Qed.

(** A false return of the loop over the intrinsics comes from one iteration. *)
Lemma intrinsics_loop_false (boardsAllImages : gmap N CheckerDetector)
    (squareSize : double) (ids : list N) (st : BasicState) (s : SfMData) :
  intrinsics_loop boardsAllImages squareSize ids st = Some (false, s) ->
  exists intrinsicId st',
    intrinsicId ∈ ids /\
    intrinsic_step boardsAllImages squareSize st' intrinsicId = BasicReturnFalse s.
Proof.
  revert st. induction ids as [|id ids IH]; intros st; simpl; [discriminate|].
  destruct (intrinsic_step boardsAllImages squareSize st id) as [st1|s1|] eqn:Hs.
  - intros Hl. destruct (IH _ Hl) as (id' & st' & Hin & Hst).
    exists id', st'. split; [now right|exact Hst].
  - intros [= <-]. exists id, st. split; [left|exact Hs].
  - discriminate.
Qed.

(** The ways an iteration can return false. *)
Lemma intrinsic_step_false (boardsAllImages : gmap N CheckerDetector)
    (squareSize : double) (st : BasicState) (intrinsicId : N) (s : SfMData) :
  intrinsic_step boardsAllImages squareSize st intrinsicId = BasicReturnFalse s ->
  (pinhole_at (basic_scene st) intrinsicId = None /\ s = basic_scene st) \/
  (exists cameraPinhole g,
     pinhole_at (basic_scene st) intrinsicId = Some cameraPinhole /\
     gather_homographies cameraPinhole (basic_scene st) boardsAllImages squareSize
       intrinsicId = Some g /\
     (first st = false /\
      (global_max_checkerboard_h st <> max_checkerboard_h g \/
       global_max_checkerboard_w st <> max_checkerboard_w g) \/
      exists s_in, adjust None basic_boptions s_in = (false, s))).
Proof.
  intros Hs. destruct (pinhole_at (basic_scene st) intrinsicId) as [cam|] eqn:Hp.
  - right. exists cam.
    destruct (gather_homographies cam (basic_scene st) boardsAllImages squareSize
                intrinsicId) as [g|] eqn:Hg.
    + exists g. split; [reflexivity|]. split; [reflexivity|].
      destruct (intrinsic_step_pinhole _ _ _ _ _ _ Hp Hg)
        as [(Hf & Hsz & _)|(s_in & ok & s_out & st' & _ & Ha & _ & Hst)]; [auto|].
      right. rewrite Hst in Hs. destruct ok; [discriminate|].
      injection Hs as <-. eauto.
    + unfold intrinsic_step in Hs. rewrite Hp, Hg in Hs. discriminate.
  - left. unfold intrinsic_step in Hs. rewrite Hp in Hs. injection Hs as <-. auto.
Qed.

End Basic.

(** ** process_innerGrids and process_basic: too few inliers *)

Section Inliers.
Context `{!Numerics, !Camera, !Multiview, !Refinement, !Algorithm}.

(** C5.  Single image: when the pose estimation of a board with at least 30
    defined corners has fewer than 10 inliers, [process_innerGrids] returns
    false with the scene as it was at that board, whatever boards come after
    it in the sorted list.  Multi-view: a view whose homography fit has fewer
    than 10 inliers gets no entry in [homographies], and every view with at
    least 10 inliers still gets its homography; and [process_basic] returns
    false only from an iteration over an intrinsic that is not a pinhole, or
    whose checkerboard size differs from that of the first intrinsic, or whose
    refinement fails: the inlier count of a view is no way out of the run. *)
Theorem too_few_inliers_fails_single_image_and_skips_in_multi_view :
  (forall sfmData boardsAllImages squareSize distance useSimplePinhole
          viewId detector view pinhole pre board rest st lms refpts points,
     items boardsAllImages = [(viewId, detector)] ->
     views sfmData !! viewId = Some view ->
     pinhole_at sfmData (View.intrinsicId view) = Some pinhole ->
     sort_boards (getCorners detector) (image_center view) (getBoards detector)
       = Some (pre ++ board :: rest) ->
     boards_loop view pinhole (getCorners detector) useSimplePinhole pre
       (loop_start (set_poses ∅ (set_landmarks ∅ sfmData))) = Continue st ->
     30 <= count_points board ->
     board_points pinhole (getCorners detector) useSimplePinhole st board
       = Some (lms, refpts, points) ->
     (length (ACRANSAC_resection points refpts (Pinhole.K pinhole)).1 < 10)%nat ->
     process_innerGrids sfmData boardsAllImages squareSize distance useSimplePinhole
       = Some (false, set_landmarks lms (scene st))) /\
  (forall cameraPinhole sfmData boardsAllImages squareSize intrinsicId
          viewId view vec_inliers Hm g,
     views sfmData !! viewId = Some view ->
     View.intrinsicId view = intrinsicId ->
     view_fit cameraPinhole boardsAllImages squareSize viewId = Some (vec_inliers, Hm) ->
     gather_homographies cameraPinhole sfmData boardsAllImages squareSize intrinsicId
       = Some g ->
     homographies g !! viewId = if (length vec_inliers <? 10)%nat then None else Some Hm) /\
  (forall sfmData boardsAllImages squareSize s,
     process_basic sfmData boardsAllImages squareSize = Some (false, s) ->
     exists st intrinsicId,
       is_Some (intrinsics sfmData !! intrinsicId) /\
       intrinsic_step boardsAllImages squareSize st intrinsicId = BasicReturnFalse s /\
       ((pinhole_at (basic_scene st) intrinsicId = None /\ s = basic_scene st) \/
        (exists cameraPinhole g,
           pinhole_at (basic_scene st) intrinsicId = Some cameraPinhole /\
           gather_homographies cameraPinhole (basic_scene st) boardsAllImages squareSize
             intrinsicId = Some g /\
           (first st = false /\
            (global_max_checkerboard_h st <> max_checkerboard_h g \/
             global_max_checkerboard_w st <> max_checkerboard_w g) \/
            exists s_in, adjust None basic_boptions s_in = (false, s))))).
Proof.
  split; [|split].
  - intros sfmData boardsAllImages squareSize distance useSimplePinhole
           viewId detector view pinhole pre board rest st lms refpts points
           Hi Hv Hp Hsort Hpre Hc Hpts Hinl.
    assert (getBoards detector <> []) as Hne.
    { intros E. rewrite E in Hsort. unfold sort_boards in Hsort. simpl in Hsort.
      injection Hsort as Hsort. now destruct pre. }
    rewrite (process_innerGrids_from_sort _ _ _ _ _ _ _ _ _ Hi Hv Hp Hne), Hsort.
    cbn [mbind option_bind]. rewrite boards_loop_app, Hpre. cbn [boards_loop].
    rewrite (board_step_accepted _ _ _ _ _ _ (proj2 (accepted_30 _) Hc)), Hpts.
    destruct (Nat.ltb_spec
                (length (ACRANSAC_resection points refpts (Pinhole.K pinhole)).1) 10);
      [reflexivity|lia].
  - intros cameraPinhole sfmData boardsAllImages squareSize intrinsicId
           viewId view vec_inliers Hm g Hv Hid Hfit Hg.
    rewrite (gather_homographies_lookup _ _ _ _ _ _ viewId Hg), Hv.
    unfold view_homography. simpl. rewrite Hfit, decide_True by assumption.
    destruct (length vec_inliers <? 10)%nat; reflexivity.
  - intros sfmData boardsAllImages squareSize s. unfold process_basic.
    destruct (size boardsAllImages <? 2)%nat; [discriminate|].
    intros Hl. apply intrinsics_loop_false in Hl as (id & st & Hin & Hs).
    exists st, id. split; [|split; [exact Hs|now apply intrinsic_step_false]].
    apply list_elem_of_fmap in Hin as [[id' c] [-> Hin]]. apply elem_of_items in Hin.
    simpl. eauto.
Qed.

End Inliers.

(** ** estimatePairAngle *)

Section PairAngleFacts.
Context `{!Numerics, !Camera, !Multiview, !Tracks}.

Lemma track_step_kept (g : PairGeometry) (pair : ReconstructedPair) (maxDistance : double)
    (acc : list double * list N) (commonItem : N * Track) :
  is_Some (featPerView commonItem.2 !! reference pair) ->
  is_Some (featPerView commonItem.2 !! next pair) ->
  exists angles',
    track_step g pair maxDistance acc commonItem =
      Some (acc.1 ++ angles',
            acc.2 ++ (wrap_IndexT <$> kept_ids g pair maxDistance [commonItem])) /\
    length angles' = length (kept_ids g pair maxDistance [commonItem]).
Proof.
  intros [refItem Hr] [nextItem Hn]. destruct acc as [angles used].
  unfold track_step, kept_ids, kept. simpl. rewrite Hr, Hn. simpl.
  destruct (maxDistance <? epipolar_distance g refItem nextItem)%float; simpl.
  - exists []. now rewrite !app_nil_r.
  - destruct (vec3_at (triangulated g refItem nextItem) 2 <? 0)%float; simpl.
    + exists []. now rewrite !app_nil_r.
    + eexists [_]. split; reflexivity.
Qed.

Lemma tracks_loop_kept (g : PairGeometry) (pair : ReconstructedPair) (maxDistance : double)
    (commons : list (N * Track)) (acc : list double * list N) :
  (forall commonItem, commonItem ∈ commons ->
     is_Some (featPerView commonItem.2 !! reference pair) /\
     is_Some (featPerView commonItem.2 !! next pair)) ->
  exists angles',
    tracks_loop g pair maxDistance commons acc =
      Some (acc.1 ++ angles',
            acc.2 ++ (wrap_IndexT <$> kept_ids g pair maxDistance commons)) /\
    length angles' = length (kept_ids g pair maxDistance commons).
Proof.
  revert acc. induction commons as [|ci commons IH]; intros acc Hall.
  - exists []. simpl. rewrite !app_nil_r. now destruct acc.
  - destruct (Hall ci) as [Hr Hn]; [left|].
    destruct (track_step_kept g pair maxDistance acc ci Hr Hn) as (a1 & Hs & Hl1).
    destruct (IH (acc.1 ++ a1,
                  acc.2 ++ (wrap_IndexT <$> kept_ids g pair maxDistance [ci])))
      as (a2 & Hs2 & Hl2).
    { intros c' Hc'. apply Hall. now right. }
    assert (kept_ids g pair maxDistance (ci :: commons)
            = kept_ids g pair maxDistance [ci] ++ kept_ids g pair maxDistance commons) as Hk.
    { unfold kept_ids. simpl. now rewrite app_nil_r. }
    exists (a1 ++ a2). rewrite Hk, !length_app, Hl1, Hl2. split; [|reflexivity].
    simpl tracks_loop. rewrite Hs. etrans; [exact Hs2|]. cbn [fst snd].
    now rewrite fmap_app, !app_assoc.
Qed.

(** The read [angles[medianIndex]] is past the end exactly when [angles] is empty. *)
Lemma median_read_out_of_bounds (angles : list double) :
  nth_element_at angles (medianIndex angles) = None <-> angles = [].
Proof.
  unfold nth_element_at.
  rewrite lookup_ge_None, (Permutation_length (insertion_sort_perm _ angles)).
  unfold medianIndex, wrap_IndexT. split.
  - intros Hge. destruct angles as [|a angles]; [reflexivity|exfalso].
    simpl length in Hge.
    assert (N.of_nat (S (length angles)) / 2 < N.of_nat (S (length angles)))
      by (apply N.div_lt; lia).
    pose proof (N.Div0.mod_le (N.of_nat (S (length angles)) / 2) IndexT_modulus). lia.
  - intros ->. apply Nat.le_0_l.
Qed.

(** The ids of the kept tracks. *)
Lemma elem_of_kept_ids (g : PairGeometry) (pair : ReconstructedPair) (maxDistance : double)
    (commons : list (N * Track)) (id : N) :
  id ∈ kept_ids g pair maxDistance commons <->
  exists track refItem nextItem,
    (id, track) ∈ commons /\
    featPerView track !! reference pair = Some refItem /\
    featPerView track !! next pair = Some nextItem /\
    kept g maxDistance refItem nextItem = true.
Proof.
  unfold kept_ids. rewrite list_elem_of_bind. split.
  - intros ([id' track] & Hin & Hc). simpl in Hin.
    destruct (featPerView track !! reference pair) as [refItem|] eqn:Hr;
      [|now apply elem_of_nil in Hin].
    destruct (featPerView track !! next pair) as [nextItem|] eqn:Hn;
      [|now apply elem_of_nil in Hin].
    destruct (kept g maxDistance refItem nextItem) eqn:Hk; [|now apply elem_of_nil in Hin].
    apply list_elem_of_singleton in Hin as ->. exists track, refItem, nextItem. auto.
  - intros (track & refItem & nextItem & Hc & Hr & Hn & Hk).
    exists (id, track). split; [|exact Hc]. simpl. rewrite Hr, Hn, Hk. left.
Qed.

(** Off NaN, the two tests of the loop are [distance <= maxDistance] and
    [X(2) >= 0]. *)
Lemma kept_is_passes_filters (g : PairGeometry) (maxDistance : double)
    (refItem nextItem : TrackItem) :
  PrimFloat.is_nan maxDistance = false ->
  PrimFloat.is_nan (epipolar_distance g refItem nextItem) = false ->
  PrimFloat.is_nan (vec3_at (triangulated g refItem nextItem) 2) = false ->
  kept g maxDistance refItem nextItem = passes_filters g maxDistance refItem nextItem.
Proof.
  intros Hm Hd Hx. unfold kept, passes_filters.
  rewrite (leb_not_ltb _ _ Hm Hd), (leb_not_ltb _ 0%float Hx eq_refl). reflexivity.
Qed.

(** C9 (as amended).  For two views of the scene with pinhole intrinsics, whose
    common tracks have a feature in both views, [estimatePairAngle] returns
    true with the ids of the kept tracks, narrowed to [IndexT], as
    [usedTracks], and the read of the median angle is past the end of [angles]
    exactly when no common track is kept (or there are none): the result angle
    is defined only if some track is kept.  A track is kept when neither
    [distance > maxDistance] nor [X(2) < 0] holds, which is
    [distance <= maxDistance] and [X(2) >= 0] when none of the three numbers is
    a NaN. *)
Theorem median_angle_defined_iff_some_track_kept (sfmData : SfMData)
    (pair : ReconstructedPair) (tracksMap : gmap N Track)
    (tracksPerView : gmap N (list N)) (maxDistance resultAngle0 : double)
    (refView nextView : View.t) (refPinhole nextPinhole : Pinhole.t) :
  views sfmData !! reference pair = Some refView ->
  views sfmData !! next pair = Some nextView ->
  pinhole_at sfmData (View.intrinsicId refView) = Some refPinhole ->
  pinhole_at sfmData (View.intrinsicId nextView) = Some nextPinhole ->
  (forall commonItem,
     commonItem ∈ items (getCommonTracksInImagesFast [reference pair; next pair]
                           tracksMap tracksPerView) ->
     is_Some (featPerView commonItem.2 !! reference pair) /\
     is_Some (featPerView commonItem.2 !! next pair)) ->
  let g := pair_geometry refPinhole nextPinhole pair in
  let commons :=
    items (getCommonTracksInImagesFast [reference pair; next pair]
             tracksMap tracksPerView) in
  let used := kept_ids g pair maxDistance commons in
  exists resultAngle,
    estimatePairAngle sfmData pair tracksMap tracksPerView maxDistance resultAngle0
      = Returned true resultAngle (wrap_IndexT <$> used) /\
    (resultAngle = None <-> used = []) /\
    (is_Some resultAngle <-> used <> []) /\
    (forall id,
       id ∈ used <->
       exists track refItem nextItem,
         (id, track) ∈ commons /\
         featPerView track !! reference pair = Some refItem /\
         featPerView track !! next pair = Some nextItem /\
         (maxDistance <? epipolar_distance g refItem nextItem)%float = false /\
         (vec3_at (triangulated g refItem nextItem) 2 <? 0)%float = false) /\
    (forall refItem nextItem,
       PrimFloat.is_nan maxDistance = false ->
       PrimFloat.is_nan (epipolar_distance g refItem nextItem) = false ->
       PrimFloat.is_nan (vec3_at (triangulated g refItem nextItem) 2) = false ->
       kept g maxDistance refItem nextItem = passes_filters g maxDistance refItem nextItem).
Proof.
  intros Hrv Hnv Hrp Hnp Hall g commons used. unfold estimatePairAngle.
  rewrite Hrv, Hnv, Hrp, Hnp.
  destruct (tracks_loop_kept g pair maxDistance _ ([], []) Hall) as (angles & Hloop & Hlen).
  fold g. cbv zeta. rewrite Hloop.
  simpl. fold commons in Hlen |- *. fold used in Hlen |- *. eexists. split; [reflexivity|].
  assert (angles = [] <-> used = []) as Hiff.
  { destruct angles, used; simpl in Hlen; split; try discriminate; auto. }
  rewrite <- Hiff, <- median_read_out_of_bounds. split; [reflexivity|].
  split; [rewrite <- not_eq_None_Some; reflexivity|]. split.
  - intros id. unfold used. rewrite elem_of_kept_ids.
    split; intros (track & refItem & nextItem & Hc & Hr & Hn & Hk);
      exists track, refItem, nextItem; repeat split; try assumption.
    + unfold kept in Hk. apply andb_true_iff in Hk as [Hk _]. now apply negb_true_iff.
    + unfold kept in Hk. apply andb_true_iff in Hk as [_ Hk]. now apply negb_true_iff.
    + destruct Hk as [Hd Hx]. unfold kept. now rewrite Hd, Hx.
  - intros refItem nextItem. apply kept_is_passes_filters.
Qed.

End PairAngleFacts.

(** ** Arithmetic of doubles *)

Section FloatArith.

Lemma is_nan_spec (x : double) : PrimFloat.is_nan x = true <-> Prim2SF x = S754_nan.
Proof.
  split.
  - intros Hx. unfold Prim2SF. now rewrite Hx.
  - intros Hx. destruct (PrimFloat.is_nan x) eqn:E; [reflexivity|].
    now apply Prim2SF_not_nan in E.
Qed.

Lemma is_infinity_spec (x : double) :
  PrimFloat.is_infinity x = match Prim2SF x with S754_infinity _ => true | _ => false end.
Proof.
  unfold PrimFloat.is_infinity. rewrite FloatAxioms.eqb_spec, abs_spec.
  change (Prim2SF infinity) with (S754_infinity false).
  destruct (Prim2SF x) as [[]|[]| |[] m e]; reflexivity.
Qed.

Lemma is_finite_spec (x : double) : PrimFloat.is_finite x = SF_is_finite (Prim2SF x).
Proof.
  unfold PrimFloat.is_finite. rewrite is_infinity_spec.
  destruct (PrimFloat.is_nan x) eqn:E.
  - apply is_nan_spec in E. now rewrite E.
  - apply Prim2SF_not_nan in E. destruct (Prim2SF x); try reflexivity. congruence.
Qed.

Lemma SFsub_self (f : spec_float) :
  SF_is_finite f = true -> SF64sub f f = S754_zero false.
Proof.
  destruct f as [[]|[]| |s m e]; try discriminate; try reflexivity. intros _.
  unfold SF64sub, SFsub. rewrite Z.min_id. unfold shl_align. rewrite Z.sub_diag. simpl.
  reflexivity.
Qed.

(** [x - x] is [+0] for every finite [x]. *)
Lemma sub_self (x : double) :
  PrimFloat.is_finite x = true -> Prim2SF (x - x) = S754_zero false.
Proof. rewrite is_finite_spec, sub_spec. apply SFsub_self. Qed.

(** A zero times a finite number is a zero; times an infinity or NaN it is NaN. *)
Lemma SFmul_zero_l (s : bool) (f : spec_float) :
  SF64mul (S754_zero s) f =
    if SF_is_finite f
    then S754_zero
           (xorb s match f with S754_zero s' | S754_finite s' _ _ => s' | _ => false end)
    else S754_nan.
Proof. destruct f as [[]|[]| |[] m e]; reflexivity. Qed.

(** A division by zero gives an infinity or NaN. *)
Lemma SFdiv_zero_r (f : spec_float) (s : bool) :
  match SF64div f (S754_zero s) with S754_infinity _ | S754_nan => True | _ => False end.
Proof. destruct f as [[]|[]| |[] m e]; exact I. Qed.

Lemma SFadd_comm (x y : spec_float) : SF64add x y = SF64add y x.
Proof.
  destruct x as [[]|[]| |sx mx ex], y as [[]|[]| |sy my ey]; try reflexivity.
  unfold SF64add, SFadd. now rewrite Z.min_comm, Z.add_comm.
Qed.

Lemma SFmul_comm (x y : spec_float) : SF64mul x y = SF64mul y x.
Proof.
  destruct x as [[]|[]| |sx mx ex], y as [[]|[]| |sy my ey]; try reflexivity;
    try (destruct sy; reflexivity); try (destruct sx; reflexivity).
  unfold SF64mul, SFmul. now rewrite Pos.mul_comm, Z.add_comm, xorb_comm.
Qed.

Lemma double_add_comm (x y : double) : (x + y)%float = (y + x)%float.
Proof. apply Prim2SF_inj. rewrite !add_spec. apply SFadd_comm. Qed.

Lemma double_mul_comm (x y : double) : (x * y)%float = (y * x)%float.
Proof. apply Prim2SF_inj. rewrite !mul_spec. apply SFmul_comm. Qed.

End FloatArith.

(** ** Integers in doubles: sums below [2^53] are exact *)

Section FloatIntegers.
Local Open Scope Z_scope.

Lemma iter_pos_nat {A} (f : A -> A) (p : positive) (x : A) :
  SpecFloat.iter_pos f p x = Nat.iter (Pos.to_nat p) f x.
Proof.
  revert x. induction p as [p IH|p IH|]; intros x; cbn [SpecFloat.iter_pos].
  - rewrite !IH, Pos2Nat.inj_xI, <- Nat.iter_add, <- Nat.iter_succ_r. f_equal. lia.
  - rewrite !IH, Pos2Nat.inj_xO, <- Nat.iter_add. f_equal. lia.
  - reflexivity.
Qed.

Lemma Pos_iter_shl (p d : positive) : Pos.iter xO p d = shl (Pos.to_nat d) p.
Proof. apply Pos2Nat.inj_iter. Qed.

Lemma shl_add (j k : nat) (p : positive) : shl j (shl k p) = shl (j + k) p.
Proof. unfold shl. now rewrite Nat.iter_add. Qed.

Lemma shl_Z (k : nat) (p : positive) : Z.pos (shl k p) = Z.pos p * 2 ^ Z.of_nat k.
Proof.
  induction k as [|k IH]; [simpl; lia|].
  unfold shl in *. simpl Nat.iter. rewrite Pos2Z.inj_xO, IH, Nat2Z.inj_succ, Z.pow_succ_r by lia.
  lia.
Qed.

Lemma shl_plus (k : nat) (p q : positive) : (shl k p + shl k q)%positive = shl k (p + q).
Proof. apply Pos2Z.inj. rewrite Pos2Z.inj_add, !shl_Z, Pos2Z.inj_add. lia. Qed.

Lemma digits_shl (k : nat) (p : positive) :
  Z.pos (digits2_pos (shl k p)) = Z.pos (digits2_pos p) + Z.of_nat k.
Proof.
  induction k as [|k IH]; [simpl; lia|].
  unfold shl in *. simpl Nat.iter. simpl digits2_pos. rewrite Pos2Z.inj_succ, IH. lia.
Qed.

Lemma digits_log2 (p : positive) : Z.pos (digits2_pos p) = Z.log2 (Z.pos p) + 1.
Proof.
  assert (forall q, digits2_pos q = Pos.size q) as E
    by (induction q; simpl; congruence).
  rewrite E. destruct p; simpl; lia.
Qed.

Lemma digits_le (p q : positive) :
  (p <= q)%positive -> Z.pos (digits2_pos p) <= Z.pos (digits2_pos q).
Proof.
  intros Hpq. rewrite !digits_log2. pose proof (Z.log2_le_mono (Z.pos p) (Z.pos q)). lia.
Qed.

Lemma digits_53 (p : positive) : Z.pos p < 2 ^ 53 <-> Z.pos (digits2_pos p) <= 53.
Proof.
  rewrite digits_log2. split; intros Hp.
  - apply Z.log2_lt_pow2 in Hp; lia.
  - apply Z.log2_lt_pow2; lia.
Qed.

(** Shifting right the bits that a shift left brought in loses nothing. *)
Lemma shr_shl (k : nat) (q : positive) :
  Nat.iter k shr_1 (Build_shr_record (Z.pos (shl k q)) false false) =
    Build_shr_record (Z.pos q) false false.
Proof.
  induction k as [|k IH]; [reflexivity|].
  rewrite Nat.iter_succ_r. unfold shl. simpl Nat.iter at 2. simpl shr_1. exact IH.
Qed.

Lemma fexp_53 (d : Z) : 1 <= d <= 53 + 971 -> fexp prec emax d = d - 53.
Proof. intros Hd. unfold fexp, emin, prec, emax. lia. Qed.

(** Rounding to 53 bits a mantissa whose low [k] bits are zero is exact. *)
Lemma binary_round_aux_exact (q : positive) (k : nat) (e' : Z) :
  Z.pos (digits2_pos q) = 53 -> -52 <= e' <= 971 ->
  binary_round_aux prec emax false (Z.pos (shl k q)) (e' - Z.of_nat k) loc_Exact =
    S754_finite false q e'.
Proof.
  intros Hq He. unfold binary_round_aux.
  assert (shr_fexp prec emax (Z.pos (shl k q)) (e' - Z.of_nat k) loc_Exact =
          (Build_shr_record (Z.pos q) false false, e')) as ->.
  { unfold shr_fexp, Zdigits2. rewrite digits_shl, Hq.
    replace (53 + Z.of_nat k + (e' - Z.of_nat k)) with (53 + e') by lia.
    rewrite fexp_53 by lia. replace (53 + e' - 53 - (e' - Z.of_nat k)) with (Z.of_nat k) by lia.
    unfold shr. simpl shr_record_of_loc. destruct k as [|k].
    - simpl. f_equal. lia.
    - change (Z.of_nat (S k)) with (Z.pos (Pos.of_succ_nat k)). cbv beta iota.
      rewrite iter_pos_nat, SuccNat2Pos.id_succ, shr_shl. f_equal. lia. }
  simpl shr_m. simpl loc_of_shr_record. simpl round_nearest_even.
  assert (shr_fexp prec emax (Z.pos q) e' loc_Exact =
          (Build_shr_record (Z.pos q) false false, e')) as ->.
  { unfold shr_fexp, Zdigits2. rewrite Hq, fexp_53 by lia.
    replace (53 + e' - 53 - e') with 0 by lia. reflexivity. }
  simpl shr_m. destruct (Z.leb_spec e' (emax - prec)); [reflexivity|]. unfold emax, prec in *. lia.
Qed.

Lemma SFint_digits (p : positive) :
  Z.pos (digits2_pos p) <= 53 ->
  Z.pos (digits2_pos (shl (53 - Pos.to_nat (digits2_pos p)) p)) = 53.
Proof. intros Hd. rewrite digits_shl. lia. Qed.

Lemma normalize_int (p : positive) :
  Z.pos (digits2_pos p) <= 53 -> binary_normalize prec emax (Z.pos p) 0 false = SFint p.
Proof.
  intros Hd. unfold binary_normalize, binary_round.
  rewrite Z.add_0_r, fexp_53 by lia.
  assert (shl_align p 0 (Z.pos (digits2_pos p) - 53) =
          (shl (53 - Pos.to_nat (digits2_pos p)) p, Z.pos (digits2_pos p) - 53)) as ->.
  { unfold shl_align. rewrite Z.sub_0_r.
    destruct (Z.pos (digits2_pos p) - 53) as [|d|d] eqn:E; try lia.
    - replace (53 - Pos.to_nat (digits2_pos p))%nat with 0%nat by lia. reflexivity.
    - rewrite Pos_iter_shl. do 2 f_equal. lia. }
  pose proof (binary_round_aux_exact _ 0 (Z.pos (digits2_pos p) - 53) (SFint_digits p Hd)) as E.
  simpl Z.of_nat in E. rewrite Z.sub_0_r in E. unfold shl at 1 in E. simpl Nat.iter in E.
  apply E. lia.
Qed.

Lemma SFint_valid (p : positive) :
  Z.pos (digits2_pos p) <= 53 -> valid_binary (SFint p) = true.
Proof.
  intros Hd. unfold SFint. simpl. unfold bounded, canonical_mantissa.
  rewrite SFint_digits by assumption.
  replace (53 + (Z.pos (digits2_pos p) - 53)) with (Z.pos (digits2_pos p)) by lia.
  rewrite fexp_53 by lia. rewrite Z.eqb_refl. simpl. apply Z.leb_le. unfold emax, prec. lia.
Qed.

Lemma SFadd_int_le (p1 p2 : positive) :
  Z.pos (digits2_pos p1) <= Z.pos (digits2_pos p2) ->
  Z.pos (digits2_pos (p1 + p2)) <= 53 ->
  SF64add (SFint p1) (SFint p2) = SFint (p1 + p2).
Proof.
  intros H12 Hd.
  pose proof (digits_le p2 (p1 + p2) ltac:(lia)) as H2.
  set (d1 := digits2_pos p1) in *. set (d2 := digits2_pos p2) in *.
  set (d := digits2_pos (p1 + p2)) in *.
  unfold SF64add, SFadd, SFint. fold d1 d2 d.
  rewrite Z.min_l by lia.
  assert (shl_align (shl (53 - Pos.to_nat d1) p1) (Z.pos d1 - 53) (Z.pos d1 - 53) =
          (shl (53 - Pos.to_nat d1) p1, Z.pos d1 - 53)) as ->.
  { unfold shl_align. now rewrite Z.sub_diag. }
  assert ((shl_align (shl (53 - Pos.to_nat d2) p2) (Z.pos d2 - 53) (Z.pos d1 - 53)).1 =
          shl (53 - Pos.to_nat d1) p2) as ->.
  { unfold shl_align.
    destruct (Z.pos d1 - 53 - (Z.pos d2 - 53)) as [|k|k] eqn:E; try lia.
    - simpl. f_equal. lia.
    - simpl. rewrite Pos_iter_shl, shl_add. f_equal. lia. }
  simpl cond_Zopp. simpl fst. rewrite <- Pos2Z.inj_add, shl_plus.
  unfold binary_normalize, binary_round. rewrite digits_shl. fold d.
  replace (Z.pos d + Z.of_nat (53 - Pos.to_nat d1) + (Z.pos d1 - 53)) with (Z.pos d) by lia.
  rewrite fexp_53 by lia.
  assert (shl_align (shl (53 - Pos.to_nat d1) (p1 + p2)) (Z.pos d1 - 53) (Z.pos d - 53) =
          (shl (53 - Pos.to_nat d1) (p1 + p2), Z.pos d1 - 53)) as ->.
  { unfold shl_align. destruct (Z.pos d - 53 - (Z.pos d1 - 53)) eqn:E; try reflexivity. lia. }
  replace (53 - Pos.to_nat d1)%nat
    with ((Pos.to_nat d - Pos.to_nat d1) + (53 - Pos.to_nat d))%nat by lia.
  rewrite <- shl_add.
  replace (Z.pos d1 - 53) with ((Z.pos d - 53) - Z.of_nat (Pos.to_nat d - Pos.to_nat d1)) by lia.
  apply binary_round_aux_exact; [|lia].
  apply SFint_digits. exact Hd.
Qed.

Lemma SFadd_int (p1 p2 : positive) :
  Z.pos (p1 + p2) < 2 ^ 53 -> SF64add (SFint p1) (SFint p2) = SFint (p1 + p2).
Proof.
  intros Hs%digits_53.
  destruct (Z.le_ge_cases (Z.pos (digits2_pos p1)) (Z.pos (digits2_pos p2))) as [L|L].
  - now apply SFadd_int_le.
  - rewrite SFadd_comm, Pos.add_comm. apply SFadd_int_le; [lia|now rewrite Pos.add_comm].
Qed.

Lemma Prim2SF_double_of_N (n : N) : (n < 2 ^ 53)%N -> Prim2SF (double_of_N n) = SF_of_N n.
Proof.
  intros Hn. unfold double_of_N. destruct n as [|p]; [reflexivity|].
  assert (Z.pos (digits2_pos p) <= 53) as Hd by (apply digits_53; lia).
  simpl Z.of_N. rewrite normalize_int by assumption.
  apply Prim2SF_SF2Prim, SFint_valid, Hd.
Qed.

(** Adding in [double] two integers whose sum is below [2^53] is exact. *)
Lemma add_double_of_N (a b : N) :
  (a + b < 2 ^ 53)%N -> (double_of_N a + double_of_N b)%float = double_of_N (a + b).
Proof.
  intros Hab. apply Prim2SF_inj.
  rewrite add_spec, !Prim2SF_double_of_N by lia.
  destruct a as [|p1], b as [|p2]; try reflexivity.
  simpl N.add. unfold SF_of_N. apply SFadd_int. lia.
Qed.

(** Converting such a double back to [size_t] gives the integer. *)
Lemma size_t_of_double_of_N (n : N) :
  (n < 2 ^ 53)%N -> size_t_of_double (double_of_N n) = Some n.
Proof.
  intros Hn. unfold size_t_of_double. rewrite Prim2SF_double_of_N by assumption.
  destruct n as [|p]; [reflexivity|]. unfold SF_of_N, SFint.
  assert (Z.pos (digits2_pos p) <= 53) as Hd by (apply digits_53; lia).
  set (k := (53 - Pos.to_nat (digits2_pos p))%nat).
  assert (Z.pos (digits2_pos p) - 53 = - Z.of_nat k) as -> by lia.
  rewrite shl_Z.
  assert ((if 0 <=? - Z.of_nat k
           then Z.pos p * 2 ^ Z.of_nat k * 2 ^ (- Z.of_nat k)
           else Z.pos p * 2 ^ Z.of_nat k / 2 ^ (- - Z.of_nat k)) = Z.pos p) as ->.
  { destruct (Z.leb_spec 0 (- Z.of_nat k)).
    - replace (Z.of_nat k) with 0 by lia. simpl. lia.
    - rewrite Z.opp_involutive. apply Z.div_mul. apply Z.pow_nonzero; lia. }
  destruct (Z.ltb_spec (Z.pos p) (Z.of_N size_t_modulus)); [reflexivity|].
  unfold size_t_modulus in *. lia.
Qed.

End FloatIntegers.

(** ** Histogram: sequences of values, the boundaries, the accessors *)

Module HistogramRange.
Import Histogram.

(** [Add] finds the counter, then increments it. *)
Lemma Add_bump (h : t) (x : double) : Add h x = chosen h x ≫= (fun c => bump c h).
Proof.
  unfold Add, chosen. destruct (x <? Start h)%float; [reflexivity|].
  destruct (End h <? x)%float; [reflexivity|].
  destruct (size_t_of_double _) as [i|]; [|reflexivity]. simpl.
  destruct (incr_at _ _); reflexivity.
Qed.

Lemma chosen_selected (h : t) (x : double) : wf h -> chosen h x = selected_counter h x.
Proof.
  intros [_ Hn]. unfold chosen, selected_counter.
  now rewrite (HistogramFacts.last_bin_index _ Hn).
Qed.

Lemma incr_at_length (k : nat) (f f' : list N) : incr_at k f = Some f' -> length f' = length f.
Proof.
  unfold incr_at. destruct (f !! k); [|discriminate]. intros [= <-]. apply length_insert.
Qed.

Lemma bump_same_bins (c : Counter) (h h' : t) : bump c h = Some h' -> same_bins h h'.
Proof.
  destruct c as [| |k]; simpl.
  - intros [= <-]. repeat split.
  - intros [= <-]. repeat split.
  - destruct (incr_at k (freq h)) as [f|] eqn:E; [|discriminate]. simpl.
    intros [= <-]. repeat split. simpl. eapply incr_at_length, E.
Qed.

Lemma chosen_same_bins (h h' : t) (x : double) : same_bins h h' -> chosen h' x = chosen h x.
Proof. unfold chosen. intros (-> & -> & -> & -> & _). reflexivity. Qed.

Lemma selected_same_bins (h h' : t) (x : double) :
  same_bins h h' -> selected_counter h' x = selected_counter h x.
Proof. unfold selected_counter. intros (-> & -> & -> & -> & _). reflexivity. Qed.

Lemma same_bins_wf (h h' : t) : same_bins h h' -> wf h -> wf h'.
Proof. intros (_ & _ & _ & Hn & Hl) [H1 H2]. split; congruence. Qed.

Lemma same_bins_refl (h : t) : same_bins h h.
Proof. repeat split. Qed.

Lemma same_bins_trans (h1 h2 h3 : t) : same_bins h1 h2 -> same_bins h2 h3 -> same_bins h1 h3.
Proof.
  intros (? & ? & ? & ? & ?) (? & ? & ? & ? & ?). repeat split; congruence.
Qed.

(** Reading after an increment. *)
Lemma bump_read (c : Counter) (h h' : t) :
  bump c h = Some h' ->
  exists v, read c h = Some v /\ read c h' = Some (wrap_size_t (v + 1)) /\
    forall c', c' <> c -> read c' h' = read c' h.
Proof.
  destruct c as [| |k]; simpl.
  - intros [= <-]. eexists. repeat split. intros [| |k] Hc; [congruence|reflexivity..].
  - intros [= <-]. eexists. repeat split. intros [| |k] Hc; [reflexivity|congruence|reflexivity].
  - unfold incr_at. destruct (freq h !! k) as [v|] eqn:E; [|discriminate]. simpl.
    intros [= <-]. exists v. simpl. split; [reflexivity|]. split.
    + apply list_lookup_insert_eq. eapply lookup_lt_Some, E.
    + intros [| |k'] Hc; simpl; try reflexivity. apply list_lookup_insert_ne. congruence.
Qed.

(** Two increments commute, also when one of them is past the end of [freq]. *)
Lemma bump_bump (c1 c2 : Counter) (h : t) :
  bump c1 h ≫= bump c2 = bump c2 h ≫= bump c1.
Proof.
  destruct c1 as [| |k1], c2 as [| |k2]; simpl; try reflexivity.
  - destruct (incr_at k2 (freq h)); reflexivity.
  - destruct (incr_at k2 (freq h)); reflexivity.
  - destruct (incr_at k1 (freq h)); reflexivity.
  - destruct (incr_at k1 (freq h)); reflexivity.
  - destruct (decide (k1 = k2)) as [->|Hne]; [reflexivity|].
    unfold incr_at.
    destruct (freq h !! k1) as [v1|] eqn:E1, (freq h !! k2) as [v2|] eqn:E2; simpl.
    + unfold incr_at.
      rewrite list_lookup_insert_ne, E2 by done. rewrite list_lookup_insert_ne, E1 by done.
      simpl. unfold set_freq. simpl. f_equal. f_equal. apply list_insert_insert_ne; congruence.
    + unfold incr_at. rewrite list_lookup_insert_ne, E2 by done. reflexivity.
    + unfold incr_at. rewrite list_lookup_insert_ne, E1 by done. reflexivity.
    + reflexivity.
Qed.

Lemma Add_Add (h : t) (x y : double) :
  Add h x ≫= (fun h' => Add h' y) = Add h y ≫= (fun h' => Add h' x).
Proof.
  rewrite !Add_bump.
  destruct (chosen h x) as [c1|] eqn:E1, (chosen h y) as [c2|] eqn:E2; simpl.
  - pose proof (bump_bump c1 c2 h) as Hc.
    destruct (bump c1 h) as [h1|] eqn:B1, (bump c2 h) as [h2|] eqn:B2; simpl in *.
    + rewrite !Add_bump, (chosen_same_bins _ _ _ (bump_same_bins _ _ _ B1)),
        (chosen_same_bins _ _ _ (bump_same_bins _ _ _ B2)), E1, E2. exact Hc.
    + rewrite Add_bump, (chosen_same_bins _ _ _ (bump_same_bins _ _ _ B1)), E2. exact Hc.
    + rewrite Add_bump, (chosen_same_bins _ _ _ (bump_same_bins _ _ _ B2)), E1. exact Hc.
    + reflexivity.
  - destruct (bump c1 h) as [h1|] eqn:B1; simpl; [|reflexivity].
    now rewrite Add_bump, (chosen_same_bins _ _ _ (bump_same_bins _ _ _ B1)), E2.
  - destruct (bump c2 h) as [h2|] eqn:B2; simpl; [|reflexivity].
    now rewrite Add_bump, (chosen_same_bins _ _ _ (bump_same_bins _ _ _ B2)), E1.
  - reflexivity.
Qed.

(** The histogram of a sequence does not depend on the order of its values:
    [Add(begin, end)] on two sequences that are permutations of one another
    gives the same histogram, and is undefined on the one exactly when it is
    on the other. *)
Theorem Add_range_order_independent (h : t) (xs ys : list double) :
  xs ≡ₚ ys -> Add_range h xs = Add_range h ys.
Proof.
  intros Hp. revert h. induction Hp as [|x xs ys _ IH|x y xs|xs ys zs _ IH1 _ IH2]; intros h.
  - reflexivity.
  - simpl. destruct (Add h x); simpl; [apply IH|reflexivity].
  - simpl. pose proof (Add_Add h y x) as Hc.
    destruct (Add h y) as [h1|], (Add h x) as [h2|]; simpl in *.
    + destruct (Add h1 x), (Add h2 y); simpl; congruence.
    + destruct (Add h1 x); simpl; [discriminate|reflexivity].
    + destruct (Add h2 y); simpl; [discriminate|reflexivity].
    + reflexivity.
  - now rewrite IH1.
Qed.

Lemma hits_same_bins (h h' : t) (c : Counter) (xs : list double) :
  same_bins h h' -> hits h' c xs = hits h c xs.
Proof.
  intros Hs. unfold hits. induction xs as [|x xs IH]; [reflexivity|].
  rewrite !filter_cons, (selected_same_bins _ _ x Hs).
  destruct (decide _); simpl; congruence.
Qed.

Lemma hits_cons (h : t) (c : Counter) (x : double) (xs : list double) :
  hits h c (x :: xs) =
    ((if decide (selected_counter h x = Some c) then 1 else 0) + hits h c xs)%nat.
Proof. unfold hits. rewrite filter_cons. destruct (decide _); reflexivity. Qed.

Lemma hits_le_length (h : t) (c : Counter) (xs : list double) : (hits h c xs <= length xs)%nat.
Proof. apply length_filter. Qed.

(** What a defined [Add] does, for a histogram with [nBins] counters. *)
Lemma Add_effect (h h' : t) (x : double) :
  wf h -> Add h x = Some h' ->
  exists c v, selected_counter h x = Some c /\ bump c h = Some h' /\
    read c h = Some v /\ read c h' = Some (wrap_size_t (v + 1)) /\
    (forall c', c' <> c -> read c' h' = read c' h) /\ same_bins h h'.
Proof.
  intros Hwf. rewrite Add_bump, (chosen_selected _ _ Hwf).
  destruct (selected_counter h x) as [c|]; [|discriminate]. simpl. intros Hb.
  destruct (bump_read _ _ _ Hb) as (v & Hv & Hv' & Hother).
  exists c, v. repeat split; try assumption; eapply bump_same_bins, Hb.
Qed.

Lemma Add_is_Some (h : t) (x : double) :
  wf h -> is_Some (Add h x) <-> is_Some (selected_counter h x).
Proof.
  intros Hwf. unfold Add, selected_counter.
  destruct (x <? Start h)%float; [split; eauto|].
  destruct (End h <? x)%float; [split; eauto|].
  destruct (size_t_of_double _) as [i|]; [|split; intros [? ?]; discriminate].
  destruct (HistogramFacts.clamp_valid h i Hwf) as [-> Hlt].
  destruct (HistogramFacts.incr_at_Some _ _ Hlt) as (v & _ & ->). split; eauto.
Qed.

Lemma wrap_wrap_add (v n : N) : wrap_size_t (wrap_size_t (v + 1) + n) = wrap_size_t (v + (1 + n)).
Proof.
  unfold wrap_size_t. rewrite N.Div0.add_mod_idemp_l. f_equal. lia.
Qed.

Lemma Add_range_read (h h' : t) (xs : list double) (c : Counter) (v : N) :
  wf h -> Add_range h xs = Some h' -> read c h = Some v -> v < size_t_modulus ->
  read c h' = Some (wrap_size_t (v + N.of_nat (hits h c xs))).
Proof.
  revert h v. induction xs as [|x xs IH]; intros h v Hwf Hr Hv Hlt.
  - injection Hr as <-. rewrite Hv. f_equal. simpl. rewrite N.add_0_r.
    symmetry. now apply HistogramFacts.wrap_size_t_small.
  - simpl in Hr. destruct (Add h x) as [h1|] eqn:Ha; [|discriminate]. simpl in Hr.
    destruct (Add_effect _ _ _ Hwf Ha) as (c0 & v0 & Hsel & _ & Hv0 & Hv1 & Hother & Hs).
    pose proof (same_bins_wf _ _ Hs Hwf) as Hwf1.
    rewrite hits_cons, Hsel. destruct (decide (Some c0 = Some c)) as [[= ->]|Hne].
    + rewrite Hv in Hv0. injection Hv0 as <-.
      rewrite (IH h1 _ Hwf1 Hr Hv1 (HistogramFacts.wrap_size_t_lt _)).
      rewrite (hits_same_bins _ _ _ _ Hs), wrap_wrap_add. do 2 f_equal. lia.
    + rewrite (IH h1 v Hwf1 Hr); [|rewrite Hother; [assumption|congruence]|assumption].
      now rewrite (hits_same_bins _ _ _ _ Hs).
Qed.

Lemma sum_lookup_le (f : list N) (k : nat) (v : N) : f !! k = Some v -> v <= foldr N.add 0 f.
Proof.
  revert k. induction f as [|a f IH]; intros [|k] Hk; simpl in *; try discriminate.
  - injection Hk as ->. lia.
  - specialize (IH k Hk). lia.
Qed.

Lemma read_le_total (h : t) (c : Counter) (v : N) : read c h = Some v -> v <= total h.
Proof.
  unfold total. destruct c as [| |k]; simpl.
  - intros [= <-]. lia.
  - intros [= <-]. lia.
  - intros Hk%sum_lookup_le. lia.
Qed.

Lemma bump_total (c : Counter) (h h' : t) (v : N) :
  bump c h = Some h' -> read c h = Some v -> v < SIZE_MAX -> total h' = total h + 1.
Proof.
  destruct c as [| |k]; simpl.
  - intros [= <-] [= <-] Hv.
    pose proof (HistogramFacts.set_underflow_total h (wrap_size_t (underflow h + 1))) as E.
    rewrite (HistogramFacts.wrap_succ _ Hv) in *. lia.
  - intros [= <-] [= <-] Hv.
    pose proof (HistogramFacts.set_overflow_total h (wrap_size_t (overflow h + 1))) as E.
    rewrite (HistogramFacts.wrap_succ _ Hv) in *. lia.
  - unfold incr_at. intros Hb Hk Hv. rewrite Hk in Hb. simpl in Hb. injection Hb as <-.
    pose proof (HistogramFacts.set_freq_total h _ _ (wrap_size_t (v + 1)) Hk) as E.
    rewrite (HistogramFacts.wrap_succ _ Hv) in *. lia.
Qed.

Lemma Add_range_same_bins (h h' : t) (xs : list double) :
  wf h -> Add_range h xs = Some h' -> same_bins h h'.
Proof.
  revert h. induction xs as [|x xs IH]; intros h Hwf Hr.
  - injection Hr as <-. apply same_bins_refl.
  - simpl in Hr. destruct (Add h x) as [h1|] eqn:Ha; [|discriminate]. simpl in Hr.
    destruct (Add_effect _ _ _ Hwf Ha) as (c0 & v0 & _ & _ & _ & _ & _ & Hs).
    eapply same_bins_trans; [exact Hs|]. apply IH; [|exact Hr]. eapply same_bins_wf; eauto.
Qed.

Lemma Add_range_sum (h h' : t) (xs : list double) :
  wf h -> Add_range h xs = Some h' ->
  total h + N.of_nat (length xs) <= SIZE_MAX ->
  total h' = total h + N.of_nat (length xs).
Proof.
  revert h. induction xs as [|x xs IH]; intros h Hwf Hr Hle.
  - injection Hr as <-. simpl. lia.
  - simpl in Hr. destruct (Add h x) as [h1|] eqn:Ha; [|discriminate]. simpl in Hr.
    destruct (Add_effect _ _ _ Hwf Ha) as (c0 & v0 & _ & Hb & Hv0 & _ & _ & Hs).
    simpl length in *.
    assert (total h1 = total h + 1) as E.
    { apply (bump_total _ _ _ _ Hb Hv0). pose proof (read_le_total _ _ _ Hv0). lia. }
    rewrite (IH h1); [lia|eapply same_bins_wf; eauto|exact Hr|lia].
Qed.

Lemma Add_range_is_Some (h : t) (xs : list double) :
  wf h ->
  is_Some (Add_range h xs) <-> Forall (fun x => is_Some (selected_counter h x)) xs.
Proof.
  revert h. induction xs as [|x xs IH]; intros h Hwf.
  - split; [constructor|simpl; eauto].
  - rewrite Forall_cons, <- (Add_is_Some _ _ Hwf). simpl.
    destruct (Add h x) as [h1|] eqn:Ha; simpl.
    + destruct (Add_effect _ _ _ Hwf Ha) as (c0 & v0 & _ & _ & _ & _ & _ & Hs).
      rewrite (IH h1 (same_bins_wf _ _ Hs Hwf)).
      split; [intros Hf; split; [eauto|]|intros [_ Hf]];
        (eapply Forall_impl; [exact Hf|]); intros y; simpl;
        now rewrite (selected_same_bins _ _ y Hs).
    + split; [intros [? ?]; discriminate|intros [[? ?] _]; discriminate].
Qed.

(** Adding a sequence of values counts each of them once.  On a histogram
    with [nBins] counters, [Add(begin, end)] is defined exactly when every
    value of the sequence has a counter to go to (underflow for [x < Start],
    overflow for [x > End], the bin [min(i, nBins - 1)] otherwise); then the
    range and the number of bins are unchanged, every counter has grown,
    modulo [2^64], by the number of values that go to it, and
    underflow + overflow + the sum of the bins has grown by the length of the
    sequence as long as that stays below [2^64]. *)
Theorem Add_range_counts (h : t) (xs : list double) :
  wf h ->
  (is_Some (Add_range h xs) <-> Forall (fun x => is_Some (selected_counter h x)) xs) /\
  forall h', Add_range h xs = Some h' ->
    wf h' /\ Start h' = Start h /\ End h' = End h /\ nBins h' = nBins h /\
    (forall c v, read c h = Some v -> v < size_t_modulus ->
       read c h' = Some (wrap_size_t (v + N.of_nat (hits h c xs)))) /\
    (total h + N.of_nat (length xs) <= SIZE_MAX ->
       total h' = total h + N.of_nat (length xs)).
Proof.
  intros Hwf. split; [now apply Add_range_is_Some|]. intros h' Hr.
  pose proof (Add_range_same_bins _ _ _ Hwf Hr) as Hs.
  split; [eapply same_bins_wf; eauto|].
  destruct Hs as (HS & HE & _ & Hn & _). repeat split; try assumption.
  - intros c v. now apply Add_range_read.
  - now apply Add_range_sum.
Qed.

(** [GetXbinsValue] returns [nBins] values; for a histogram with a single bin
    the value is NaN whatever the range is: the step is
    [(End - Start) / double(nBins - 1)], a division by zero, and it is
    multiplied by the index 0. *)
Theorem GetXbinsValue_single_bin_is_nan (h : t) :
  length (GetXbinsValue h) = N.to_nat (nBins h) /\
  (nBins h = 1 -> exists v, GetXbinsValue h = [v] /\ PrimFloat.is_nan v = true).
Proof.
  split.
  - unfold GetXbinsValue. now rewrite length_fmap, length_seq.
  - intros Hn. unfold GetXbinsValue. rewrite Hn. eexists. split; [reflexivity|].
    apply is_nan_spec. change (wrap_size_t (1 + SIZE_MAX)) with 0.
    rewrite add_spec, mul_spec, div_spec.
    change (Prim2SF (double_of_N (N.of_nat 0))) with (S754_zero false).
    change (Prim2SF (double_of_N 0)) with (S754_zero false).
    pose proof (SFdiv_zero_r (Prim2SF (End h - Start h)) false) as Hd.
    destruct (SF64div _ _) as [| | |]; try contradiction; reflexivity.
Qed.

(** The lower bound of the range is inclusive.  On a histogram with [nBins]
    counters whose [Start] is finite and not above [End], [Add(Start)]
    increments the first bin and nothing else when [nBins_by_interval] is
    finite; when it is not (an infinity for [Start == End], a division by
    zero in the constructor, or NaN) the offset [0 * nBins_by_interval] is
    NaN and its conversion to [size_t] is undefined. *)
Theorem Add_Start_goes_to_first_bin (h : t) :
  wf h -> PrimFloat.is_finite (Start h) = true -> (End h <? Start h)%float = false ->
  (PrimFloat.is_finite (nBins_by_interval h) = true ->
     exists h' v, Add h (Start h) = Some h' /\ read (Bin 0) h = Some v /\
       read (Bin 0) h' = Some (wrap_size_t (v + 1)) /\
       forall c, c <> Bin 0 -> read c h' = read c h) /\
  (PrimFloat.is_finite (nBins_by_interval h) = false -> Add h (Start h) = None).
Proof.
  intros Hwf Hs He.
  assert (chosen h (Start h) =
          if PrimFloat.is_finite (nBins_by_interval h) then Some (Bin 0) else None) as Hc.
  { unfold chosen. rewrite ltb_irrefl, He.
    rewrite (is_finite_spec (nBins_by_interval h)).
    unfold size_t_of_double. rewrite mul_spec, (sub_self _ Hs), SFmul_zero_l.
    destruct (SF_is_finite _); [|reflexivity]. now rewrite N.min_0_l. }
  rewrite Add_bump, Hc. split; intros Hf; rewrite Hf; [|reflexivity].
  simpl. destruct Hwf as [Hlen Hn].
  destruct (HistogramFacts.incr_at_Some (freq h) 0) as (v & Hv & ->); [lia|].
  simpl. eexists _, v. split; [reflexivity|]. split; [exact Hv|]. simpl. split.
  - apply list_lookup_insert_eq. lia.
  - intros [| |k] Hk; try reflexivity. simpl. apply list_lookup_insert_ne. congruence.
Qed.

Lemma accumulate_exact (l : list N) (s : N) :
  s + foldr N.add 0 l < 2 ^ 53 ->
  foldl (fun acc c => (acc + double_of_N c)%float) (double_of_N s) l =
    double_of_N (s + foldr N.add 0 l).
Proof.
  revert s. induction l as [|c l IH]; intros s Hs; simpl in *.
  - now rewrite N.add_0_r.
  - rewrite add_double_of_N by lia. rewrite IH by lia. f_equal. lia.
Qed.

Lemma GetTotalCount_sum (h : t) :
  foldr N.add 0 (freq h) < 2 ^ 53 -> GetTotalCount h = Some (foldr N.add 0 (freq h)).
Proof.
  intros Hs. unfold GetTotalCount.
  change 0%float with (double_of_N 0). rewrite accumulate_exact by lia.
  rewrite N.add_0_l. now apply size_t_of_double_of_N.
Qed.

(** [GetTotalCount] adds the bin counters in [double] arithmetic and does not
    count underflow and overflow: it returns the exact sum of the bins
    whenever that sum is below [2^53]. *)
Theorem GetTotalCount_exact_below_2_53 (h : t) :
  foldr N.add 0 (freq h) < 2 ^ 53 ->
  GetTotalCount h = Some (foldr N.add 0 (freq h)) /\
  GetTotalCount h = Some (total h - GetUnderflow h - GetOverflow h).
Proof.
  intros Hs. rewrite (GetTotalCount_sum h Hs). split; [reflexivity|].
  f_equal. unfold total, GetUnderflow, GetOverflow. lia.
Qed.

Lemma make_wf (S E : double) (n : N) : 1 <= n <= SIZE_MAX -> wf (make S E n).
Proof. intros Hn. split; [|exact Hn]. simpl. apply length_replicate. Qed.

Lemma sum_replicate_0 (n : nat) : foldr N.add 0 (replicate n 0) = 0.
Proof. induction n as [|n IH]; simpl; [reflexivity|]. now rewrite IH. Qed.

Lemma make_read (S E : double) (n : N) (c : Counter) (v : N) :
  read c (make S E n) = Some v -> v = 0.
Proof.
  destruct c as [| |k]; simpl; try (now intros [= <-]).
  intros Hk%lookup_replicate. now destruct Hk.
Qed.

(** The histogram of a sequence.  After [Histogram(Start, End, nBins)] with at
    least one bin and [Add(begin, end)] on a sequence of fewer than [2^64]
    values, [GetUnderflow] is the number of values below [Start],
    [GetOverflow] the number of values above [End], [GetHist] has [nBins]
    counters and its counter [k] is the number of values that go to bin [k];
    and [GetTotalCount] is the number of values that were counted in a bin,
    when the sequence has fewer than [2^53] values. *)
Theorem make_then_Add_range (S E : double) (n : N) (xs : list double) (h' : t) :
  1 <= n <= SIZE_MAX -> N.of_nat (length xs) < size_t_modulus ->
  Add_range (make S E n) xs = Some h' ->
  GetUnderflow h' = N.of_nat (hits (make S E n) Underflow xs) /\
  GetOverflow h' = N.of_nat (hits (make S E n) Overflow xs) /\
  length (GetHist h') = N.to_nat n /\
  (forall k, (k < N.to_nat n)%nat ->
     GetHist h' !! k = Some (N.of_nat (hits (make S E n) (Bin k) xs))) /\
  (N.of_nat (length xs) < 2 ^ 53 ->
     GetTotalCount h' = Some (N.of_nat (length xs) - GetUnderflow h' - GetOverflow h')).
Proof.
  intros Hn Hlen Hr. pose proof (make_wf S E n Hn) as Hwf.
  assert (forall c, is_Some (read c (make S E n)) ->
            read c h' = Some (N.of_nat (hits (make S E n) c xs))) as Hread.
  { intros c [v Hv]. pose proof (make_read _ _ _ _ _ Hv) as ->.
    rewrite (Add_range_read _ _ _ _ _ Hwf Hr Hv) by (unfold size_t_modulus; lia).
    f_equal. apply HistogramFacts.wrap_size_t_small.
    pose proof (hits_le_length (make S E n) c xs). lia. }
  pose proof (Add_range_same_bins _ _ _ Hwf Hr) as (_ & _ & _ & _ & Hl).
  assert (total h' = N.of_nat (length xs)) as Ht.
  { rewrite (Add_range_sum _ _ _ Hwf Hr); unfold total; simpl; rewrite sum_replicate_0;
      unfold SIZE_MAX, size_t_modulus in *; lia. }
  split; [|split; [|split; [|split]]].
  - specialize (Hread Underflow (ltac:(simpl; eauto))). now injection Hread.
  - specialize (Hread Overflow (ltac:(simpl; eauto))). now injection Hread.
  - unfold GetHist. rewrite Hl. simpl. apply length_replicate.
  - intros k Hk. apply (Hread (Bin k)). simpl. apply lookup_lt_is_Some.
    now rewrite length_replicate.
  - intros H53. rewrite <- Ht. unfold total, GetUnderflow, GetOverflow in *.
    rewrite GetTotalCount_sum by lia. f_equal. lia.
Qed.

End HistogramRange.

(** ** Iteration over a std::map, continued *)

Section ItemsMore.
Context {A : Type}.

Lemma items_singleton (k : N) (x : A) : items ({[k := x]} : gmap N A) = [(k, x)].
Proof. unfold items. rewrite map_to_list_singleton. reflexivity. Qed.

Lemma length_items (m : gmap N A) : length (items m) = size m.
Proof. rewrite (Permutation_length (items_perm m)). apply length_map_to_list. Qed.

Lemma items_empty : items (∅ : gmap N A) = [].
Proof. unfold items. rewrite map_to_list_empty. reflexivity. Qed.

Lemma list_to_map_items (m : gmap N A) : list_to_map (items m) = m.
Proof.
  rewrite <- (list_to_map_to_list m) at 2.
  apply list_to_map_proper; [apply NoDup_fst_items|apply items_perm].
Qed.

Lemma items_eq_singleton (m : gmap N A) (k : N) (x : A) :
  items m = [(k, x)] -> m = {[k := x]}.
Proof.
  intros E. rewrite <- (list_to_map_items m), E. simpl. now rewrite insert_empty.
Qed.

End ItemsMore.

(** ** process_innerGrids: the failures before the loop *)

Section Early.
Context `{!Numerics, !Camera, !Multiview, !Refinement, !Algorithm}.

(** The failures of [process_innerGrids] before the loop over the boards.
    With a number of detection sets other than one it returns false and leaves
    the scene untouched.  With one detection set, for a view of the scene, it
    returns false when the intrinsic of the view is absent or is not a
    pinhole, or when the detection has no board; the landmarks and the poses
    of the scene have then been cleared, and nothing else has changed.  When
    the view of the detection set is not in the scene, the view pointer that
    is dereferenced is null. *)
Theorem innerGrids_early_failures (sfmData : SfMData)
    (boardsAllImages : gmap N CheckerDetector) (squareSize distance : double)
    (useSimplePinhole : bool) :
  let cleared := set_poses ∅ (set_landmarks ∅ sfmData) in
  let result :=
    process_innerGrids sfmData boardsAllImages squareSize distance useSimplePinhole in
  (size boardsAllImages <> 1%nat -> result = Some (false, sfmData)) /\
  (forall viewId detector view,
     boardsAllImages = {[viewId := detector]} -> views sfmData !! viewId = Some view ->
     pinhole_at sfmData (View.intrinsicId view) = None \/ getBoards detector = [] ->
     result = Some (false, cleared)) /\
  (forall viewId detector,
     boardsAllImages = {[viewId := detector]} -> views sfmData !! viewId = None ->
     result = None).
Proof.
  intros cleared result. subst result. unfold process_innerGrids. split; [|split].
  - intros Hs. rewrite <- length_items in Hs.
    destruct (items boardsAllImages) as [|[viewId detector] [|? ?]]; try reflexivity.
    now destruct Hs.
  - intros viewId detector view -> Hv Hfail. rewrite items_singleton. simpl.
    rewrite Hv. simpl. unfold pinhole_at in Hfail.
    destruct (intrinsics sfmData !! View.intrinsicId view) as [[p|]|]; try reflexivity.
    destruct Hfail as [Hfail|Hfail]; [discriminate|]. simpl. now rewrite Hfail.
  - intros viewId detector -> Hv. rewrite items_singleton. simpl. now rewrite Hv.
Qed.

End Early.

(** ** process_innerGrids: the views, poses and landmarks the loop builds *)

Section InnerGridsScene.
Context `{!Numerics, !Camera, !Multiview, !Refinement}.
Variables (view : View.t) (pinhole : Pinhole.t) (corners : list CheckerBoardCorner)
  (useSimplePinhole : bool).

Local Abbreviation step := (board_step view pinhole corners useSimplePinhole).
Local Abbreviation loop := (boards_loop view pinhole corners useSimplePinhole).
Local Abbreviation inliers_of := (board_inliers pinhole corners useSimplePinhole).

Lemma accept_board_views (st : LoopState) (lms : gmap N Landmark) (model : Mat34) :
  views (scene (accept_board view st lms model)) =
    <[wrap_IndexT (idx_checkerboard_valid st) :=
        View.setPoseId (wrap_IndexT (idx_checkerboard_valid st))
          (View.setViewId (wrap_IndexT (idx_checkerboard_valid st)) view)]>
      (views (scene st)).
Proof. unfold accept_board. destruct (KRt_from_P model) as [[K0 R] t]. reflexivity. Qed.

(** The views, poses and intrinsics during the loop, from a state in which
    [k] boards have been accepted. *)
Lemma boards_loop_scene_from (boards : list CheckerBoard) (k : nat) (st0 st : LoopState) :
  idx_checkerboard_valid st0 = N.of_nat k ->
  N.of_nat (k + length (List.filter accepted boards)) < IndexT_modulus ->
  loop boards st0 = Continue st ->
  idx_checkerboard_valid st = N.of_nat (k + length (List.filter accepted boards)) /\
  intrinsics (scene st) = intrinsics (scene st0) /\
  (forall i, i < N.of_nat k -> poses (scene st) !! i = poses (scene st0) !! i) /\
  (forall i, N.of_nat k <= i < N.of_nat (k + length (List.filter accepted boards)) ->
     is_Some (poses (scene st) !! i)) /\
  (forall i, N.of_nat (k + length (List.filter accepted boards)) <= i ->
     poses (scene st) !! i = poses (scene st0) !! i) /\
  (forall i, i < N.of_nat k -> views (scene st) !! i = views (scene st0) !! i) /\
  (forall i, N.of_nat k <= i < N.of_nat (k + length (List.filter accepted boards)) ->
     views (scene st) !! i = Some (View.setPoseId i (View.setViewId i view))) /\
  (forall i, N.of_nat (k + length (List.filter accepted boards)) <= i ->
     views (scene st) !! i = views (scene st0) !! i).
Proof.
  revert k st0. induction boards as [|b boards IH]; intros k st0 Hidx Hlt Hloop.
  - simpl in *. injection Hloop as <-. rewrite Nat.add_0_r.
    repeat split; auto; intros i Hi; lia.
  - apply boards_loop_cons in Hloop as (st1 & Hs & Hloop). simpl in Hlt |- *.
    destruct (accepted b) eqn:E.
    + destruct (board_step_Continue view pinhole corners useSimplePinhole st0 st1 b E Hs)
        as (lms & refpts & points & inl & model & _ & _ & _ & ->).
      destruct (accept_board_fields view st0 lms model) as (Hi & _ & _ & Hintr & _).
      simpl length in *.
      replace (k + S (length (List.filter accepted boards)))%nat
        with (S k + length (List.filter accepted boards))%nat in * by lia.
      assert (wrap_IndexT (N.of_nat k) = N.of_nat k) as Hw
        by (unfold wrap_IndexT; apply N.mod_small; lia).
      destruct (IH (S k) (accept_board view st0 lms model)) as (Hn & Hin & Hp1 & Hp2 & Hp3 & Hv1 & Hv2 & Hv3);
        try assumption.
      { rewrite Hi, Hidx. unfold wrap_size_t. rewrite N.mod_small; [lia|].
        unfold size_t_modulus, IndexT_modulus in *. lia. }
      rewrite accept_board_poses in Hp1, Hp3. rewrite accept_board_views in Hv1, Hv3.
      rewrite Hidx, Hw in *.
      split; [exact Hn|]. split; [congruence|]. repeat split.
      * intros i Hi'. rewrite Hp1 by lia. apply lookup_insert_ne. lia.
      * intros i Hi'. destruct (decide (i = N.of_nat k)) as [->|Hne].
        -- rewrite Hp1 by lia. rewrite lookup_insert_eq. eauto.
        -- apply Hp2. lia.
      * intros i Hi'. rewrite Hp3 by lia. apply lookup_insert_ne. lia.
      * intros i Hi'. rewrite Hv1 by lia. apply lookup_insert_ne. lia.
      * intros i Hi'. destruct (decide (i = N.of_nat k)) as [->|Hne].
        -- rewrite Hv1 by lia. now rewrite lookup_insert_eq.
        -- apply Hv2. lia.
      * intros i Hi'. rewrite Hv3 by lia. apply lookup_insert_ne. lia.
    + rewrite (board_step_skip _ _ _ _ _ _ E) in Hs. injection Hs as <-.
      now apply (IH k st0).
Qed.

(** The fake views and the poses are numbered by acceptance.  When the loop
    over the boards ends without failure, having started with no pose, and [n]
    boards were accepted ([n < 2^32]), the acceptance index is [n], the
    intrinsics are untouched, the poses are exactly those of the ids
    [0 .. n-1], the view stored under each id [i < n] is a copy of the
    original view with view id and pose id [i], and the views under the other
    ids are those of the scene the loop started with. *)
Theorem boards_loop_numbers_views_and_poses (s0 : SfMData) (boards : list CheckerBoard)
    (st : LoopState) :
  poses s0 = ∅ ->
  N.of_nat (length (List.filter accepted boards)) < IndexT_modulus ->
  loop boards (loop_start s0) = Continue st ->
  let n := N.of_nat (length (List.filter accepted boards)) in
  idx_checkerboard_valid st = n /\
  intrinsics (scene st) = intrinsics s0 /\
  (forall i, is_Some (poses (scene st) !! i) <-> i < n) /\
  (forall i, i < n -> views (scene st) !! i = Some (View.setPoseId i (View.setViewId i view))) /\
  (forall i, n <= i -> views (scene st) !! i = views s0 !! i).
Proof.
  intros Hp Hlt Hloop n.
  destruct (boards_loop_scene_from boards 0 (loop_start s0) st eq_refl Hlt Hloop)
    as (Hn & Hin & _ & Hp2 & Hp3 & _ & Hv2 & Hv3).
  simpl in *. fold n in Hn, Hp2, Hp3, Hv2, Hv3.
  split; [exact Hn|]. split; [exact Hin|]. split; [|split].
  - intros i. split.
    + intros Hs. destruct (N.lt_ge_cases i n) as [L|L]; [exact L|].
      rewrite Hp3, Hp, lookup_empty in Hs by exact L. now destruct Hs.
    + intros L. apply Hp2. lia.
  - intros i L. apply Hv2. lia.
  - exact Hv3.
Qed.

End InnerGridsScene.

Lemma dense_empty {A} : dense (∅ : gmap N A).
Proof. intros k. rewrite lookup_empty, map_size_empty. split; [intros [? ?]; discriminate|lia]. Qed.

Lemma dense_insert {A} (m : gmap N A) (x : A) :
  dense m -> dense (<[N.of_nat (size m) := x]> m) /\
             size (<[N.of_nat (size m) := x]> m) = S (size m).
Proof.
  intros Hd.
  assert (m !! N.of_nat (size m) = None) as Hnone.
  { apply eq_None_not_Some. rewrite (Hd (N.of_nat (size m))). lia. }
  split; [|now apply map_size_insert_None].
  intros k. rewrite map_size_insert_None by assumption.
  destruct (decide (k = N.of_nat (size m))) as [->|Hne].
  - rewrite lookup_insert_eq. split; [lia|eauto].
  - rewrite lookup_insert_ne by congruence. rewrite (Hd k). lia.
Qed.

Section Points.
Context `{!Numerics, !Camera, !Multiview, !Refinement}.
Variables (pinhole : Pinhole.t) (corners : list CheckerBoardCorner)
  (useSimplePinhole : bool).

Lemma count_cells (b : CheckerBoard) (l : list (nat * nat)) (c : N) :
  c + N.of_nat (length (filter (holds_corner b) l)) < size_t_modulus ->
  foldl (fun count '(i, j) =>
           if cell b i j =? UndefinedIndexT then count else wrap_size_t (count + 1)) c l
  = c + N.of_nat (length (filter (holds_corner b) l)).
Proof.
  revert c. induction l as [|[i j] l IH]; intros c Hc; simpl.
  - lia.
  - rewrite filter_cons in *.
    destruct (decide (holds_corner b (i, j))) as [Hh|Hh]; unfold holds_corner in Hh;
      simpl in Hh; destruct (N.eqb_spec (cell b i j) UndefinedIndexT) as [E|E]; try tauto.
    + simpl length in *. rewrite IH; unfold wrap_size_t; rewrite N.mod_small; lia.
    + now apply IH.
Qed.

(** The second loop over the cells, from any point of it. *)
Lemma add_corners_spec (b : CheckerBoard) (cx cy : double) (st : LoopState)
    (l : list (nat * nat)) (lms : gmap N Landmark) (refpts : list Vec3) (points : list Vec2) :
  dense lms ->
  N.of_nat (size lms + length (filter (holds_corner b) l)) < IndexT_modulus ->
  (forall ij, ij ∈ filter (holds_corner b) l ->
     is_Some (corner_at corners (cell b ij.1 ij.2))) ->
  exists lms' new_refpts new_points,
    fold_defined (add_corner pinhole corners useSimplePinhole b cx cy st)
      (lms, refpts, points) l
      = Some (lms', refpts ++ new_refpts, points ++ new_points) /\
    dense lms' /\
    size lms' = (size lms + length (filter (holds_corner b) l))%nat /\
    length new_refpts = length (filter (holds_corner b) l) /\
    length new_points = length (filter (holds_corner b) l) /\
    (forall k, k < N.of_nat (size lms) -> lms' !! k = lms !! k) /\
    (forall t i j, filter (holds_corner b) l !! t = Some (i, j) ->
       exists corner lm o,
         corner_at corners (cell b i j) = Some corner /\
         lms' !! N.of_nat (size lms + t) = Some lm /\
         X lm = ((double_of_N (N.of_nat j) - cx) * localSquareSize st,
                 (double_of_N (N.of_nat i) - cy) * localSquareSize st, 0)%float /\
         descType lm = SIFT /\
         observations lm = {[wrap_IndexT (idx_checkerboard_valid st) := o]} /\
         id_feat o = N.of_nat (size lms + t) /\
         obs_x o = (if useSimplePinhole then get_ud_pixel pinhole (corner_center corner)
                    else corner_center corner) /\
         new_refpts !! t = Some (X lm) /\
         new_points !! t = Some (get_ud_pixel pinhole (corner_center corner))).
Proof.
  revert lms refpts points.
  induction l as [|[i j] l IH]; intros lms refpts points Hd Hlt Hreads.
  - exists lms, [], []. simpl. rewrite !app_nil_r, Nat.add_0_r.
    split; [reflexivity|]. split; [exact Hd|]. do 3 (split; [reflexivity|]).
    split; [reflexivity|]. intros t i j Ht. discriminate.
  - rewrite filter_cons in *. cbn [fold_defined].
    destruct (decide (holds_corner b (i, j))) as [Hh|Hh].
    2: { assert (add_corner pinhole corners useSimplePinhole b cx cy st
                   (lms, refpts, points) (i, j) = Some (lms, refpts, points)) as ->.
         { unfold holds_corner in Hh. simpl in Hh. unfold add_corner.
           destruct (N.eqb_spec (cell b i j) UndefinedIndexT) as [E|E]; [reflexivity|tauto]. }
         cbn [mbind option_bind]. now apply IH. }
    destruct (Hreads (i, j) ltac:(left)) as [corner Hc]. simpl in Hc.
    simpl length in *.
    assert (wrap_IndexT (N.of_nat (size lms)) = N.of_nat (size lms)) as Hw
      by (unfold wrap_IndexT; apply N.mod_small; lia).
    assert (exists lm,
              add_corner pinhole corners useSimplePinhole b cx cy st (lms, refpts, points)
                (i, j)
              = Some (<[N.of_nat (size lms) := lm]> lms, refpts ++ [X lm],
                      points ++ [get_ud_pixel pinhole (corner_center corner)]) /\
              X lm = ((double_of_N (N.of_nat j) - cx) * localSquareSize st,
                      (double_of_N (N.of_nat i) - cy) * localSquareSize st, 0)%float /\
              descType lm = SIFT /\
              exists o, observations lm = {[wrap_IndexT (idx_checkerboard_valid st) := o]} /\
                id_feat o = N.of_nat (size lms) /\
                obs_x o = (if useSimplePinhole
                           then get_ud_pixel pinhole (corner_center corner)
                           else corner_center corner))
      as (lm & Hadd & HX & HT & o & Hobs & Hid & Hx).
    { unfold add_corner. unfold holds_corner in Hh. simpl in Hh.
      destruct (N.eqb_spec (cell b i j) UndefinedIndexT) as [E|E]; [tauto|].
      rewrite Hc. cbn [mbind option_bind]. rewrite Hw.
      match goal with |- context [<[_ := ?lm0]> lms] => exists lm0 end.
      split; [reflexivity|]. simpl. split; [reflexivity|]. split; [reflexivity|].
      eexists. rewrite insert_empty. split; [reflexivity|]. simpl. auto. }
    rewrite Hadd. cbn [mbind option_bind].
    destruct (dense_insert lms lm Hd) as [Hd1 Hs1].
    destruct (IH (<[N.of_nat (size lms) := lm]> lms) (refpts ++ [X lm])
                (points ++ [get_ud_pixel pinhole (corner_center corner)]) Hd1)
      as (lms' & nr & np & Hfold & Hd' & Hsz & Hlr & Hlp & Hkeep & Hnew).
    { rewrite Hs1. lia. }
    { intros ij Hij. apply Hreads. now right. }
    exists lms', (X lm :: nr), (get_ud_pixel pinhole (corner_center corner) :: np).
    split; [rewrite Hfold; now rewrite <- !app_assoc|].
    split; [exact Hd'|]. split; [rewrite Hsz, Hs1; lia|].
    split; [simpl; now rewrite Hlr|]. split; [simpl; now rewrite Hlp|]. split.
    + intros k Hk. rewrite Hkeep by (rewrite Hs1; lia). apply lookup_insert_ne. lia.
    + intros [|t] i' j' Ht.
      * injection Ht as <- <-. rewrite Nat.add_0_r.
        exists corner, lm, o. split; [exact Hc|]. split.
        { rewrite Hkeep by (rewrite Hs1; lia). apply lookup_insert_eq. }
        repeat split; assumption || reflexivity.
      * simpl in Ht.
        destruct (Hnew t i' j' Ht)
          as (c' & lm' & o' & E0 & E1 & E2 & E3 & E4 & E5 & E6 & E7 & E8).
        rewrite Hs1 in E1, E5.
        replace (size lms + S t)%nat with (S (size lms) + t)%nat by lia.
        exists c', lm', o'. repeat split; assumption.
Qed.

End Points.

Section Points2.
Context `{!Numerics, !Camera, !Multiview, !Refinement}.
Variables (view : View.t) (pinhole : Pinhole.t) (corners : list CheckerBoardCorner)
  (useSimplePinhole : bool).

Local Abbreviation loop := (boards_loop view pinhole corners useSimplePinhole).
Local Abbreviation points_of := (board_points pinhole corners useSimplePinhole).
Local Abbreviation inliers_of := (board_inliers pinhole corners useSimplePinhole).

(** The second loop over the cells of a board, whose corner ids are within
    the corner list, creates one landmark per defined corner.  When the
    landmark ids in use are [0 .. L-1] and fewer than [2^32] landmarks exist
    afterwards, the corner of the [t]-th defined cell [(i, j)] gets the
    landmark [L + t], at
    [((j - cx) * localSquareSize, (i - cy) * localSquareSize, 0)] with
    [cx = cols / 2] and [cy = rows / 2] (integer divisions), of type SIFT,
    with a single observation, under the acceptance index: of the feature
    [L + t], at the undistorted corner when [useSimplePinhole] is set and at
    the detected corner otherwise.  The earlier landmarks are kept, [refpts]
    and [points] get one entry per defined corner, in the same order, and
    [count_points] is the number of defined cells. *)
Theorem board_points_one_landmark_per_corner (st : LoopState) (b : CheckerBoard) :
  dense (landmarks (scene st)) ->
  N.of_nat (size (landmarks (scene st)) + length (defined_cells b)) < IndexT_modulus ->
  reads_defined corners b ->
  let lms := landmarks (scene st) in
  let cx := double_of_N (N.of_nat (cols b) / 2) in
  let cy := double_of_N (N.of_nat (rows b) / 2) in
  exists lms' refpts points,
    points_of st b = Some (lms', refpts, points) /\
    count_points b = N.of_nat (length (defined_cells b)) /\
    length refpts = length (defined_cells b) /\
    length points = length (defined_cells b) /\
    dense lms' /\
    size lms' = (size lms + length (defined_cells b))%nat /\
    (forall k, k < N.of_nat (size lms) -> lms' !! k = lms !! k) /\
    (forall t i j, defined_cells b !! t = Some (i, j) ->
       exists corner lm o,
         corner_at corners (cell b i j) = Some corner /\
         lms' !! N.of_nat (size lms + t) = Some lm /\
         X lm = ((double_of_N (N.of_nat j) - cx) * localSquareSize st,
                 (double_of_N (N.of_nat i) - cy) * localSquareSize st, 0)%float /\
         descType lm = SIFT /\
         observations lm = {[wrap_IndexT (idx_checkerboard_valid st) := o]} /\
         id_feat o = N.of_nat (size lms + t) /\
         obs_x o = (if useSimplePinhole then get_ud_pixel pinhole (corner_center corner)
                    else corner_center corner) /\
         refpts !! t = Some (X lm) /\
         points !! t = Some (get_ud_pixel pinhole (corner_center corner))).
Proof.
  intros Hd Hlt Hreads lms cx cy.
  destruct (add_corners_spec pinhole corners useSimplePinhole b cx cy st (cell_indices b)
              lms [] [] Hd Hlt Hreads)
    as (lms' & refpts & points & Hfold & Hd' & Hsz & Hlr & Hlp & Hkeep & Hnew).
  exists lms', refpts, points. split; [exact Hfold|]. split.
  - unfold count_points. rewrite count_cells; [reflexivity|].
    unfold defined_cells, size_t_modulus, IndexT_modulus in *. lia.
  - split; [exact Hlr|]. split; [exact Hlp|]. split; [exact Hd'|]. split; [exact Hsz|].
    split; [exact Hkeep|exact Hnew].
Qed.

Lemma observed_once_mono (n n' : N) (lms : gmap N Landmark) :
  n <= n' -> observed_once n lms -> observed_once n' lms.
Proof.
  intros Hn Ho k lm Hk. destruct (Ho k lm Hk) as (Hs & idx & o & E1 & E2 & E3).
  split; [exact Hs|]. exists idx, o. repeat split; try assumption. lia.
Qed.

Lemma lookup_lt_filter {A} (l : list A) (t : nat) :
  (t < length l)%nat -> exists x, l !! t = Some x.
Proof. intros Ht. now apply lookup_lt_is_Some_2. Qed.

Lemma boards_loop_landmarks_from (boards : list CheckerBoard) (k : nat) (st0 st : LoopState) :
  idx_checkerboard_valid st0 = N.of_nat k ->
  N.of_nat (k + length (List.filter accepted boards)) < IndexT_modulus ->
  dense (landmarks (scene st0)) -> observed_once (N.of_nat k) (landmarks (scene st0)) ->
  N.of_nat (size (landmarks (scene st0)) +
            length (List.filter accepted boards ≫= defined_cells)) < IndexT_modulus ->
  loop boards st0 = Continue st ->
  dense (landmarks (scene st)) /\
  size (landmarks (scene st)) =
    (size (landmarks (scene st0)) +
     length (List.filter accepted boards ≫= defined_cells))%nat /\
  observed_once (N.of_nat (k + length (List.filter accepted boards))) (landmarks (scene st)).
Proof.
  revert k st0. induction boards as [|b boards IH];
    intros k st0 Hidx Hacc Hd Ho Hlt Hloop.
  - simpl in *. injection Hloop as <-. rewrite !Nat.add_0_r. auto.
  - apply boards_loop_cons in Hloop as (st1 & Hs & Hloop). simpl in Hacc, Hlt |- *.
    destruct (accepted b) eqn:E.
    + simpl in Hlt. rewrite length_app in Hlt. simpl length in Hacc.
      destruct (board_step_Continue view pinhole corners useSimplePinhole st0 st1 b E Hs)
        as (lms' & refpts & points & inl & model & Hp & _ & _ & ->).
      destruct (add_corners_spec pinhole corners useSimplePinhole b
                  (double_of_N (N.of_nat (cols b) / 2)) (double_of_N (N.of_nat (rows b) / 2))
                  st0 (cell_indices b) (landmarks (scene st0)) [] [] Hd)
        as (lms2 & refpts2 & points2 & Hp2 & Hd' & Hsz & _ & _ & Hkeep & Hnew).
      { unfold defined_cells in Hlt. lia. }
      { apply (board_points_defined pinhole corners useSimplePinhole st0 b).
        rewrite Hp. eauto. }
      unfold board_points in Hp. rewrite Hp in Hp2. injection Hp2 as <- _ _.
      fold (defined_cells b) in Hsz, Hnew.
      destruct (accept_board_fields view st0 lms' model) as (Hi & _ & Hlm & _).
      assert (wrap_IndexT (N.of_nat k) = N.of_nat k) as Hw
        by (unfold wrap_IndexT; apply N.mod_small; lia).
      destruct (IH (S k) (accept_board view st0 lms' model)) as (Hd2 & Hsz2 & Ho2).
      * rewrite Hi, Hidx. unfold wrap_size_t. rewrite N.mod_small; [lia|].
        unfold size_t_modulus, IndexT_modulus in *. lia.
      * lia.
      * now rewrite Hlm.
      * rewrite Hlm. intros key lm Hkey.
        destruct (N.lt_ge_cases key (N.of_nat (size (landmarks (scene st0))))) as [L|L].
        -- rewrite Hkeep in Hkey by exact L.
           apply (observed_once_mono (N.of_nat k) (N.of_nat (S k)) _ ltac:(lia) Ho key lm Hkey).
        -- assert (is_Some (lms' !! key)) as Hsome by eauto.
           apply Hd' in Hsome. rewrite Hsz in Hsome.
           destruct (lookup_lt_filter (defined_cells b)
                       (N.to_nat key - size (landmarks (scene st0)))) as [[i j] Hij]; [lia|].
           destruct (Hnew _ i j Hij) as (c' & lm' & o & _ & E1 & _ & E3 & E4 & E5 & _).
           replace (N.of_nat (size (landmarks (scene st0)) +
                              (N.to_nat key - size (landmarks (scene st0))))) with key in * by lia.
           rewrite Hkey in E1. injection E1 as <-.
           split; [exact E3|]. exists (N.of_nat k), o.
           rewrite Hidx, Hw in E4. repeat split; try assumption. lia.
      * rewrite Hlm, Hsz, <- Nat.add_assoc. exact Hlt.
      * exact Hloop.
      * rewrite Hlm, Hsz in Hsz2. split; [exact Hd2|]. split.
        -- rewrite Hsz2.
           change ((b :: List.filter accepted boards) ≫= defined_cells)
             with (defined_cells b ++ (List.filter accepted boards ≫= defined_cells)).
           rewrite length_app. lia.
        -- simpl length. replace (k + S (length (List.filter accepted boards)))%nat
             with (S k + length (List.filter accepted boards))%nat by lia. exact Ho2.
    + rewrite (board_step_skip _ _ _ _ _ _ E) in Hs. injection Hs as <-.
      now apply (IH k st0).
Qed.

(** The landmarks at the end of the loop over the boards, which starts with
    none: their ids are [0 .. L-1], where [L] is the number of defined corners
    of the accepted boards (fewer than [2^32]); each has the type SIFT and
    exactly one observation, of the feature whose id is the landmark's id, in
    the fake view of an accepted board. *)
Theorem boards_loop_landmarks (s0 : SfMData) (boards : list CheckerBoard) (st : LoopState) :
  landmarks s0 = ∅ ->
  N.of_nat (length (List.filter accepted boards)) < IndexT_modulus ->
  N.of_nat (length (List.filter accepted boards ≫= defined_cells)) < IndexT_modulus ->
  loop boards (loop_start s0) = Continue st ->
  size (landmarks (scene st)) = length (List.filter accepted boards ≫= defined_cells) /\
  (forall k, is_Some (landmarks (scene st) !! k) <->
             k < N.of_nat (length (List.filter accepted boards ≫= defined_cells))) /\
  (forall k lm, landmarks (scene st) !! k = Some lm ->
     descType lm = SIFT /\
     exists idx o, observations lm = {[idx := o]} /\
       idx < N.of_nat (length (List.filter accepted boards)) /\ id_feat o = k).
Proof.
  intros Hl Hacc Hlt Hloop.
  destruct (boards_loop_landmarks_from boards 0 (loop_start s0) st eq_refl Hacc)
    as (Hd & Hsz & Ho); simpl; rewrite ?Hl, ?map_size_empty; try assumption.
  - apply dense_empty.
  - intros k lm Hk. rewrite lookup_empty in Hk. discriminate.
  - simpl in Hsz. rewrite Hl, map_size_empty in Hsz. simpl in Hsz.
    split; [exact Hsz|]. split; [|exact Ho].
    intros k. rewrite (Hd k), Hsz. reflexivity.
Qed.

End Points2.

(** ** process_basic: landmarks, homographies, poses *)

Lemma elem_of_cell_indices (b : CheckerBoard) (i j : nat) :
  (i, j) ∈ cell_indices b <-> (i < rows b)%nat /\ (j < cols b)%nat.
Proof.
  unfold cell_indices. rewrite list_elem_of_bind. split.
  - intros (i' & Hin & Hi'). apply list_elem_of_bind in Hin as (j' & Hin & Hj').
    apply list_elem_of_singleton in Hin. injection Hin as -> ->.
    apply elem_of_seq in Hi', Hj'. lia.
  - intros [Hi Hj]. exists i. split; [|apply elem_of_seq; lia].
    apply list_elem_of_bind. exists j. split; [apply list_elem_of_singleton; reflexivity|].
    apply elem_of_seq. lia.
Qed.

Lemma in_bounds_sized (ind : list (list N)) (h w : N) (i j : nat) :
  indices_sized ind h w -> (i < N.to_nat h)%nat -> (j < N.to_nat w)%nat -> in_bounds ind i j.
Proof.
  intros [Hl Hr] Hi Hj. destruct (lookup_lt_is_Some_2 ind i) as [r Hri]; [lia|].
  exists r. split; [exact Hri|]. rewrite Forall_forall in Hr.
  rewrite (Hr r); [exact Hj|]. eapply list_elem_of_lookup_2, Hri.
Qed.

Section Create.

Variables (squareSize : double) (max_h max_w : N).

Local Abbreviation idx := (fun i j : nat => wrap_IndexT (N.of_nat i * max_w + N.of_nat j)).
Local Abbreviation corner := (fun i j : nat =>
  mkLandmark ((squareSize * double_of_N (N.of_nat j))%float,
              (squareSize * double_of_N (N.of_nat i))%float, 0%float) SIFT ∅).
Local Abbreviation put := (fun (m : gmap N Landmark) '(i, j) => <[idx i j := corner i j]> m).

Lemma put_cells_other (l : list (nat * nat)) (m : gmap N Landmark) (k : N) :
  (forall i j, (i, j) ∈ l -> idx i j <> k) -> foldl put m l !! k = m !! k.
Proof.
  revert m. induction l as [|[i j] l IH]; intros m Hk; [reflexivity|].
  simpl. rewrite IH.
  - apply lookup_insert_ne. apply Hk. left.
  - intros i' j' Hin. apply Hk. now right.
Qed.

Lemma put_cells_in (l : list (nat * nat)) (m : gmap N Landmark) (i j : nat) :
  (i, j) ∈ l ->
  (forall i' j', (i', j') ∈ l -> idx i' j' = idx i j -> (i', j') = (i, j)) ->
  foldl put m l !! idx i j = Some (corner i j).
Proof.
  revert m. induction l as [|[i0 j0] l IH]; intros m Hin Hinj.
  - now apply elem_of_nil in Hin.
  - simpl. destruct (decide ((i, j) ∈ l)) as [Hl|Hl].
    + apply IH; [exact Hl|]. intros i' j' Hin'. apply Hinj. now right.
    + apply elem_of_cons in Hin as [[= -> ->]|Hin]; [|contradiction].
      rewrite put_cells_other; [apply lookup_insert_eq|].
      intros i' j' Hin' E. apply Hl. rewrite <- (Hinj i' j'); [exact Hin'|now right|exact E].
Qed.

Lemma idx_small (i j : nat) :
  max_h * max_w <= IndexT_modulus -> N.of_nat i < max_h -> N.of_nat j < max_w ->
  idx i j = N.of_nat i * max_w + N.of_nat j /\ N.of_nat i * max_w + N.of_nat j < max_h * max_w.
Proof.
  intros Hm Hi Hj.
  assert (N.of_nat i * max_w + N.of_nat j < max_h * max_w) by nia.
  split; [|assumption]. unfold wrap_IndexT. apply N.mod_small. lia.
Qed.

Lemma elem_of_grid (i j : nat) :
  (i, j) ∈ (i ← seq 0 (N.to_nat max_h); j ← seq 0 (N.to_nat max_w); [(i, j)])
  <-> N.of_nat i < max_h /\ N.of_nat j < max_w.
Proof.
  rewrite list_elem_of_bind. split.
  - intros (i' & Hin & Hi'). apply list_elem_of_bind in Hin as (j' & Hin & Hj').
    apply list_elem_of_singleton in Hin. injection Hin as -> ->.
    apply elem_of_seq in Hi', Hj'. lia.
  - intros [Hi Hj]. exists i. split; [|apply elem_of_seq; lia].
    apply list_elem_of_bind. exists j. split; [apply list_elem_of_singleton; reflexivity|].
    apply elem_of_seq. lia.
Qed.

(** "Create landmarks" of [process_basic].  For a largest board of
    [max_h] rows and [max_w] columns with [max_h * max_w <= 2^32], [indices]
    is a [max_h] x [max_w] matrix with [indices(i, j) = i * max_w + j], the
    landmark [i * max_w + j] is at [(squareSize * j, squareSize * i, 0)], of
    type SIFT and without observations (a landmark that had this id is
    replaced), and the landmarks with other ids are kept. *)
Theorem create_landmarks_grid (lms : gmap N Landmark) :
  max_h * max_w <= IndexT_modulus ->
  let ind := (create_landmarks squareSize max_h max_w lms).1 in
  let lms' := (create_landmarks squareSize max_h max_w lms).2 in
  indices_sized ind max_h max_w /\
  (forall i j, N.of_nat i < max_h -> N.of_nat j < max_w ->
     cell ind i j = N.of_nat i * max_w + N.of_nat j /\
     lms' !! (N.of_nat i * max_w + N.of_nat j) =
       Some (mkLandmark ((squareSize * double_of_N (N.of_nat j))%float,
                         (squareSize * double_of_N (N.of_nat i))%float, 0%float) SIFT ∅)) /\
  (forall k, max_h * max_w <= k -> lms' !! k = lms !! k).
Proof.
  intros Hm ind lms'. subst ind lms'. unfold create_landmarks. cbv zeta. cbn [fst snd].
  split; [|split].
  - split; [now rewrite length_fmap, length_seq|].
    apply Forall_forall. intros r Hr. apply list_elem_of_fmap in Hr as (i & -> & _).
    now rewrite length_fmap, length_seq.
  - intros i j Hi Hj. destruct (idx_small i j Hm Hi Hj) as [E Hlt]. split.
    + unfold cell, CheckerBoard. rewrite list_lookup_fmap, lookup_seq_lt by lia. simpl.
      rewrite list_lookup_fmap, lookup_seq_lt by lia. simpl. exact E.
    + rewrite <- E. apply put_cells_in; [now apply elem_of_grid|].
      intros i' j' Hin E'. apply elem_of_grid in Hin as [Hi' Hj'].
      destruct (idx_small i' j' Hm Hi' Hj') as [E2 _]. rewrite E, E2 in E'.
      destruct (N.div_mod_unique max_w (N.of_nat i') (N.of_nat i) (N.of_nat j') (N.of_nat j))
        as [Ei Ej]; [assumption|assumption|lia|].
      f_equal; lia.
  - intros k Hk. apply put_cells_other. intros i j Hin E.
    apply elem_of_grid in Hin as [Hi Hj]. destruct (idx_small i j Hm Hi Hj). lia.
Qed.

End Create.

Section Gather.
Context `{!Numerics, !Camera, !Multiview, !Refinement}.
Variables (cameraPinhole : Pinhole.t) (boardsAllImages : gmap N CheckerDetector)
  (squareSize : double) (intrinsicId : N).

Local Abbreviation gather := (gather_view cameraPinhole boardsAllImages squareSize intrinsicId).

Lemma gather_view_sizes (g g' : Gathered) (pv : N * View.t) :
  gather g pv = Some g' ->
  max_checkerboard_w g <= max_checkerboard_w g' /\
  max_checkerboard_h g <= max_checkerboard_h g' /\
  (forall b, View.intrinsicId pv.2 = intrinsicId ->
     getBoards (default default_CheckerDetector (boardsAllImages !! pv.1)) = [b] ->
     N.of_nat (cols b) <= max_checkerboard_w g' /\
     N.of_nat (rows b) <= max_checkerboard_h g').
Proof.
  unfold gather_view. destruct (decide (View.intrinsicId pv.2 = intrinsicId)) as [E|E].
  - destruct (getBoards (default default_CheckerDetector (boardsAllImages !! pv.1)))
      as [|b [|? ?]] eqn:Eb;
      try (intros [= <-]; split; [lia|]; split; [lia|]; intros b' _ Hb'; discriminate Hb').
    destruct (homography_points _ _ _ _) as [[refpts points]|]; [|discriminate].
    cbn [mbind option_bind].
    destruct (ACRANSAC_homography _ _ _ _) as [inl Hm].
    destruct (length inl <? 10)%nat; intros [= <-]; simpl;
      (split; [lia|]); (split; [lia|]); intros b' _ [= <-]; lia.
  - intros [= <-]. split; [lia|]. split; [lia|]. intros; contradiction.
Qed.

Lemma gather_fold_sizes (l : list (N * View.t)) (g g' : Gathered) :
  fold_defined gather g l = Some g' ->
  max_checkerboard_w g <= max_checkerboard_w g' /\
  max_checkerboard_h g <= max_checkerboard_h g' /\
  (forall v view b, (v, view) ∈ l -> View.intrinsicId view = intrinsicId ->
     getBoards (default default_CheckerDetector (boardsAllImages !! v)) = [b] ->
     N.of_nat (cols b) <= max_checkerboard_w g' /\
     N.of_nat (rows b) <= max_checkerboard_h g').
Proof.
  revert g. induction l as [|pv l IH]; intros g Hg.
  - injection Hg as <-. split; [lia|]. split; [lia|].
    intros v view b Hin. now apply elem_of_nil in Hin.
  - apply fold_defined_cons_Some in Hg as (g1 & Hg1 & Hg).
    destruct (IH g1 Hg) as (Hw & Hh & Hb).
    destruct (gather_view_sizes g g1 pv Hg1) as (Hw1 & Hh1 & Hb1).
    split; [lia|]. split; [lia|]. intros v view b Hin Hid Hbs.
    apply elem_of_cons in Hin as [<-|Hin]; [|eapply Hb; eauto].
    destruct (Hb1 b Hid Hbs). lia.
Qed.

End Gather.

Section BasicFacts.
Context `{!Numerics, !Camera, !Multiview, !Refinement}.

(** The homographies gathered for an intrinsic, when the loop over the views
    reads every corner within the corner lists.  A view has an entry exactly
    when it is a view of the scene with this intrinsic, its detection has
    exactly one board and the robust fit has at least 10 inliers; the entry is
    the fitted homography.  The recorded checkerboard size is at least the
    size of the board of every view of this intrinsic whose detection has
    exactly one board, whether its homography was kept or not. *)
Theorem homographies_of_the_views_that_fit (cameraPinhole : Pinhole.t) (sfmData : SfMData)
    (boardsAllImages : gmap N CheckerDetector) (squareSize : double) (intrinsicId : N)
    (g : Gathered) :
  gather_homographies cameraPinhole sfmData boardsAllImages squareSize intrinsicId
    = Some g ->
  (forall v Hm,
     homographies g !! v = Some Hm <->
     exists view vec_inliers,
       views sfmData !! v = Some view /\ View.intrinsicId view = intrinsicId /\
       view_fit cameraPinhole boardsAllImages squareSize v = Some (vec_inliers, Hm) /\
       (10 <= length vec_inliers)%nat) /\
  (forall v view b,
     views sfmData !! v = Some view -> View.intrinsicId view = intrinsicId ->
     getBoards (default default_CheckerDetector (boardsAllImages !! v)) = [b] ->
     N.of_nat (cols b) <= max_checkerboard_w g /\ N.of_nat (rows b) <= max_checkerboard_h g).
Proof.
  intros Hg. split.
  - intros v Hm. rewrite (gather_homographies_lookup _ _ _ _ _ _ v Hg).
    destruct (views sfmData !! v) as [view|] eqn:Hv.
    + unfold view_homography. simpl.
      destruct (decide (View.intrinsicId view = intrinsicId)) as [E|E].
      * destruct (view_fit _ _ _ v) as [[inl Hm']|].
        -- destruct (Nat.ltb_spec (length inl) 10) as [L|L].
           ++ split; [discriminate|]. intros (view' & inl' & [= <-] & _ & [= <- <-] & L'). lia.
           ++ split.
              ** intros [= <-]. exists view, inl. auto.
              ** intros (view' & inl' & [= <-] & _ & [= <- <-] & L'). reflexivity.
        -- split; [discriminate|]. intros (view' & inl' & _ & _ & ? & _). discriminate.
      * split; [discriminate|]. intros (view' & inl' & [= <-] & E' & _). contradiction.
    + split; [discriminate|]. intros (view' & inl' & ? & _). discriminate.
  - intros v view b Hv Hid Hb. unfold gather_homographies in Hg.
    eapply (gather_fold_sizes cameraPinhole boardsAllImages squareSize intrinsicId _ _ _ Hg);
      eauto.
    now apply elem_of_items.
Qed.

(** A view with a homography: its view, its board and the recorded size. *)
Lemma homographies_entries (cameraPinhole : Pinhole.t) (sfmData : SfMData)
    (boardsAllImages : gmap N CheckerDetector) (squareSize : double) (intrinsicId : N)
    (g : Gathered) (v : N) (Hm : Mat3) :
  gather_homographies cameraPinhole sfmData boardsAllImages squareSize intrinsicId
    = Some g ->
  homographies g !! v = Some Hm ->
  exists view b,
    views sfmData !! v = Some view /\ View.intrinsicId view = intrinsicId /\
    getBoards (default default_CheckerDetector (boardsAllImages !! v)) = [b] /\
    N.of_nat (cols b) <= max_checkerboard_w g /\
    N.of_nat (rows b) <= max_checkerboard_h g.
Proof.
  intros Hg Hv. rewrite (gather_homographies_lookup _ _ _ _ _ _ v Hg) in Hv.
  destruct (views sfmData !! v) as [view|] eqn:Hview; [|discriminate].
  destruct (view_homography_reads _ _ _ _ _ _ Hv) as (b & Hb & _). simpl in Hb.
  assert (View.intrinsicId view = intrinsicId) as Hid.
  { unfold view_homography in Hv. simpl in Hv. now destruct (decide _). }
  exists view, b. split; [reflexivity|]. split; [exact Hid|]. split; [exact Hb|].
  unfold gather_homographies in Hg.
  eapply (gather_fold_sizes cameraPinhole boardsAllImages squareSize intrinsicId _ _ _ Hg);
    eauto.
  now apply elem_of_items.
Qed.

Lemma view_homography_board (cameraPinhole : Pinhole.t)
    (boardsAllImages : gmap N CheckerDetector) (squareSize : double) (intrinsicId : N)
    (v : N) (view : View.t) (Hm : Mat3) :
  view_homography cameraPinhole boardsAllImages squareSize intrinsicId (v, view) = Some Hm ->
  View.intrinsicId view = intrinsicId /\
  exists b, getBoards (default default_CheckerDetector (boardsAllImages !! v)) = [b].
Proof.
  unfold view_homography, view_fit. simpl.
  destruct (decide (View.intrinsicId view = intrinsicId)) as [E|E]; [|discriminate].
  destruct (getBoards _) as [|b [|? ?]]; try discriminate. eauto.
Qed.

(** The matrix [indices] is never read out of bounds.  In an iteration of the
    loop over the intrinsics that starts from a state whose matrix has the
    recorded size, the matrix in use (built in the first iteration, and the
    recorded one later, when the size check passes) has the size of the
    largest board of this intrinsic, so that every read [indices(i, j)] of
    "Get residuals", for a cell [(i, j)] of the board of a view with a
    homography, is within it; and the state the iteration hands over records
    that size with the matrix. *)
Theorem indices_are_read_in_bounds (boardsAllImages : gmap N CheckerDetector)
    (squareSize : double) (st : BasicState) (intrinsicId : N) (cameraPinhole : Pinhole.t)
    (g : Gathered) :
  pinhole_at (basic_scene st) intrinsicId = Some cameraPinhole ->
  indices_recorded st ->
  gather_homographies cameraPinhole (basic_scene st) boardsAllImages squareSize
    intrinsicId = Some g ->
  (forall st',
     intrinsic_step boardsAllImages squareSize st intrinsicId = NextIntrinsic st' ->
     first st' = false /\ indices_recorded st' /\
     global_max_checkerboard_h st' = max_checkerboard_h g /\
     global_max_checkerboard_w st' = max_checkerboard_w g /\
     (first st = false -> indices st' = indices st)) /\
  (first st = true \/
   (global_max_checkerboard_h st = max_checkerboard_h g /\
    global_max_checkerboard_w st = max_checkerboard_w g) ->
   forall ind, ind = (if first st
                      then (create_landmarks squareSize (max_checkerboard_h g)
                              (max_checkerboard_w g) (landmarks (basic_scene st))).1
                      else indices st) ->
   forall v Hm b rest i j,
     homographies g !! v = Some Hm ->
     getBoards (default default_CheckerDetector (boardsAllImages !! v)) = b :: rest ->
     (i, j) ∈ cell_indices b -> in_bounds ind i j).
Proof.
  intros Hp Hrec Hg.
  assert (indices_sized
            (create_landmarks squareSize (max_checkerboard_h g) (max_checkerboard_w g)
               (landmarks (basic_scene st))).1
            (max_checkerboard_h g) (max_checkerboard_w g)) as Hnew.
  { unfold create_landmarks. cbv zeta. cbn [fst]. split; [now rewrite length_fmap, length_seq|].
    apply Forall_forall. intros r Hr. apply list_elem_of_fmap in Hr as (i & -> & _).
    now rewrite length_fmap, length_seq. }
  split.
  - intros st'. unfold intrinsic_step. rewrite Hp, Hg.
    unfold solve_intrinsic. cbv zeta.
    destruct (first st) eqn:Hf.
    + destruct (create_landmarks _ _ _ _) as [ind lms] eqn:Ec. simpl in Hnew.
      destruct (add_observations _ _ _ _) as [s3|]; [|discriminate].
      destruct (adjust _ _ _) as [[] s4]; simpl; [|discriminate].
      intros [= <-]. simpl. split; [reflexivity|]. split; [intros _; exact Hnew|].
      split; [reflexivity|]. split; [reflexivity|]. discriminate.
    + destruct (negb _ || negb _) eqn:Hsz; [discriminate|].
      apply orb_false_iff in Hsz as [Hh Hw].
      apply negb_false_iff, N.eqb_eq in Hh, Hw.
      destruct (add_observations _ _ _ _) as [s3|]; [|discriminate].
      destruct (adjust _ _ _) as [[] s4]; simpl; [|discriminate].
      intros [= <-]. simpl. split; [reflexivity|].
      split; [intros _; now apply Hrec|].
      split; [exact Hh|]. split; [exact Hw|]. reflexivity.
  - intros Hok ind -> v Hm b rest i j Hv Hb Hij.
    assert (indices_sized
              (if first st
               then (create_landmarks squareSize (max_checkerboard_h g)
                       (max_checkerboard_w g) (landmarks (basic_scene st))).1
               else indices st) (max_checkerboard_h g) (max_checkerboard_w g)) as Hsized.
    { destruct (first st) eqn:Hf; [exact Hnew|].
      destruct Hok as [?|[<- <-]]; [discriminate|]. now apply Hrec. }
    destruct (homographies_entries _ _ _ _ _ _ _ _ Hg Hv)
      as (view & b' & Hview & Hid & Hb' & Hc & Hr).
    rewrite Hb in Hb'. injection Hb' as <- ->.
    apply elem_of_cell_indices in Hij as [Hi Hj].
    eapply in_bounds_sized; [exact Hsized|lia|lia].
Qed.

End BasicFacts.

Section BasicMore.
Context `{!Numerics, !Camera, !Multiview, !Refinement}.

Lemma init_poses_fold (A : Mat3) (l : list (N * Mat3)) (s : SfMData) (k : N) :
  NoDup l.*1 -> (forall p, p ∈ l -> p.1 < IndexT_modulus) ->
  let s' := foldl (fun s pH =>
                     set_poses (<[wrap_IndexT pH.1 := linear_pose A pH.2]> (poses s)) s) s l in
  poses s' !! k =
    match (list_to_map l : gmap N Mat3) !! k with
    | Some Hm => Some (linear_pose A Hm)
    | None => poses s !! k
    end /\
  views s' = views s /\ intrinsics s' = intrinsics s /\ landmarks s' = landmarks s.
Proof.
  revert s. induction l as [|[v Hm] l IH]; intros s Hnd Hlt; simpl.
  - rewrite lookup_empty. auto.
  - apply NoDup_cons in Hnd as [Hv Hnd].
    destruct (IH (set_poses (<[wrap_IndexT v := linear_pose A Hm]> (poses s)) s) Hnd)
      as (Hp & Hvs & Hin & Hlm).
    { intros p Hp. apply Hlt. now right. }
    rewrite Hp, Hvs, Hin, Hlm. simpl. split; [|auto].
    assert (wrap_IndexT v = v) as ->.
    { unfold wrap_IndexT. apply N.mod_small. apply (Hlt (v, Hm)). left. }
    destruct (decide (k = v)) as [->|Hne].
    + rewrite (lookup_insert_eq (list_to_map l)).
      rewrite (not_elem_of_list_to_map_1 l v Hv). now rewrite lookup_insert_eq.
    + rewrite (lookup_insert_ne (list_to_map l)) by congruence.
      destruct (list_to_map l !! k); [reflexivity|]. apply lookup_insert_ne. congruence.
Qed.

(** "Initialize poses": every view with a homography (the view ids being
    below [2^32]) gets the pose computed from the matrix [A] and its
    homography, replacing a pose it had; the poses of the other ids, the
    views, the intrinsics and the landmarks are untouched. *)
Theorem init_poses_sets_the_poses_of_the_fitted_views (A : Mat3) (hs : gmap N Mat3)
    (s : SfMData) :
  (forall k, is_Some (hs !! k) -> k < IndexT_modulus) ->
  (forall k, poses (init_poses A hs s) !! k =
             match hs !! k with
             | Some Hm => Some (linear_pose A Hm)
             | None => poses s !! k
             end) /\
  views (init_poses A hs s) = views s /\
  intrinsics (init_poses A hs s) = intrinsics s /\
  landmarks (init_poses A hs s) = landmarks s.
Proof.
  intros Hlt. unfold init_poses.
  assert (forall p, p ∈ items hs -> p.1 < IndexT_modulus) as Hl.
  { intros [k Hm] Hin. apply Hlt. apply elem_of_items in Hin. simpl. eauto. }
  split.
  - intros k. destruct (init_poses_fold A (items hs) s k (NoDup_fst_items hs) Hl) as [Hp _].
    rewrite Hp, list_to_map_items. reflexivity.
  - destruct (init_poses_fold A (items hs) s 0 (NoDup_fst_items hs) Hl) as (_ & Hv & Hi & Hlm).
    auto.
Qed.

(** With at least two detection sets, [process_basic] returns true and leaves
    the scene untouched when the scene has no intrinsic at all, and returns
    false with the scene untouched when the intrinsic of least id is not a
    pinhole. *)
Theorem process_basic_without_pinhole_intrinsics (sfmData : SfMData)
    (boardsAllImages : gmap N CheckerDetector) (squareSize : double) :
  (2 <= size boardsAllImages)%nat ->
  (intrinsics sfmData = ∅ ->
     process_basic sfmData boardsAllImages squareSize = Some (true, sfmData)) /\
  (forall intrinsicId rest,
     items (intrinsics sfmData) = (intrinsicId, OtherCam) :: rest ->
     process_basic sfmData boardsAllImages squareSize = Some (false, sfmData)).
Proof.
  intros Hs. unfold process_basic.
  destruct (Nat.ltb_spec (size boardsAllImages) 2) as [L|_]; [lia|]. split.
  - intros ->. rewrite items_empty. reflexivity.
  - intros intrinsicId rest Hi. rewrite Hi. simpl. unfold intrinsic_step. simpl.
    unfold pinhole_at.
    assert (intrinsics sfmData !! intrinsicId = Some OtherCam) as ->.
    { apply elem_of_items. rewrite Hi. left. }
    reflexivity.
Qed.

(** [computeV(H, i, j)] is symmetric in [i] and [j], exactly, in double
    arithmetic: the products and the sums of two doubles commute. *)
Theorem computeV_symmetric (Hm : Mat3) (i j : nat) : computeV Hm i j = computeV Hm j i.
Proof.
  unfold computeV.
  rewrite (double_mul_comm (mat3_at Hm 0 i) (mat3_at Hm 0 j)).
  rewrite (double_mul_comm (mat3_at Hm 1 i) (mat3_at Hm 1 j)).
  rewrite (double_mul_comm (mat3_at Hm 2 i) (mat3_at Hm 2 j)).
  rewrite (double_add_comm (mat3_at Hm 0 i * mat3_at Hm 1 j) _).
  rewrite (double_add_comm (mat3_at Hm 2 i * mat3_at Hm 0 j) _).
  rewrite (double_add_comm (mat3_at Hm 2 i * mat3_at Hm 1 j) _).
  rewrite (double_mul_comm (mat3_at Hm 1 i) (mat3_at Hm 0 j)).
  rewrite (double_mul_comm (mat3_at Hm 0 i) (mat3_at Hm 1 j)).
  rewrite (double_mul_comm (mat3_at Hm 0 i) (mat3_at Hm 2 j)).
  rewrite (double_mul_comm (mat3_at Hm 2 i) (mat3_at Hm 0 j)).
  rewrite (double_mul_comm (mat3_at Hm 1 i) (mat3_at Hm 2 j)).
  rewrite (double_mul_comm (mat3_at Hm 2 i) (mat3_at Hm 1 j)).
  reflexivity.
Qed.

End BasicMore.

(** ** aliceVision_main of the calibration program *)

Section MainFacts.
Context `{!Numerics, !Camera, !Multiview, !Refinement, !Algorithm}.
Import IntrinsicsCalibration.

(** The loop that loads the checkerboards, from any point of it. *)
Lemma load_fold (read : N -> FileRead) (l : list (N * View.t))
    (m : gmap N CheckerDetector) :
  NoDup l.*1 ->
  match foldM (load_view read) m l with
  | Throws => exists v, v ∈ l.*1 /\ read v = ParseError
  | Undefined => False
  | Done m' =>
      (forall v, v ∈ l.*1 -> read v <> ParseError) /\
      (forall v, m' !! v =
                 if decide (v ∈ l.*1)
                 then match read v with Parsed d => Some d | _ => m !! v end
                 else m !! v)
  end.
Proof.
  revert m. induction l as [|[v0 view0] l IH]; intros m Hnd.
  - cbn [foldM]. split; [intros v Hv; now apply elem_of_nil in Hv|].
    intros v. destruct (decide _) as [Hin|_]; [now apply elem_of_nil in Hin|reflexivity].
  - simpl in Hnd. apply NoDup_cons in Hnd as [Hv0 Hnd]. cbn [foldM].
    assert (load_view read m (v0, view0) =
              match read v0 with
              | NotOpened => Done m
              | ParseError => Throws
              | Parsed d => Done (<[v0 := d]> m)
              end) as -> by reflexivity.
    destruct (read v0) as [| |d] eqn:Hr; cbn [mbind Run_bind].
    + specialize (IH m Hnd). destruct (foldM (load_view read) m l) as [m'| |].
      * destruct IH as [Hall Hl]. split.
        -- intros v [->|Hv]%elem_of_cons; [simpl; rewrite Hr; discriminate|now apply Hall].
        -- intros v. rewrite Hl. simpl.
           destruct (decide (v = v0)) as [->|Hne].
           ++ rewrite decide_False by exact Hv0. rewrite decide_True by left.
              now rewrite Hr.
           ++ destruct (decide (v ∈ l.*1)) as [Hin|Hin].
              ** rewrite decide_True by (now right). reflexivity.
              ** rewrite decide_False; [reflexivity|].
                 intros [?|?]%elem_of_cons; contradiction.
      * destruct IH as (v & Hv & E). exists v. split; [now right|exact E].
      * exact IH.
    + exists v0. split; [left|exact Hr].
    + specialize (IH (<[v0 := d]> m) Hnd).
      destruct (foldM (load_view read) (<[v0 := d]> m) l) as [m'| |].
      * destruct IH as [Hall Hl]. split.
        -- intros v [->|Hv]%elem_of_cons; [simpl; rewrite Hr; discriminate|now apply Hall].
        -- intros v. rewrite Hl. simpl.
           destruct (decide (v = v0)) as [->|Hne].
           ++ rewrite decide_False by exact Hv0. rewrite decide_True by left.
              now rewrite Hr, lookup_insert_eq.
           ++ rewrite lookup_insert_ne by congruence.
              destruct (decide (v ∈ l.*1)) as [Hin|Hin].
              ** rewrite decide_True by (now right). reflexivity.
              ** rewrite decide_False; [reflexivity|].
                 intros [?|?]%elem_of_cons; contradiction.
      * destruct IH as (v & Hv & E). exists v. split; [now right|exact E].
      * exact IH.
Qed.

Lemma elem_of_view_ids (sfmData : SfMData) (v : N) :
  v ∈ (items (views sfmData)).*1 <-> is_Some (views sfmData !! v).
Proof.
  rewrite list_elem_of_fmap. split.
  - intros ([v' view] & -> & Hin). apply elem_of_items in Hin. simpl. eauto.
  - intros [view Hv]. exists (v, view). split; [reflexivity|now apply elem_of_items].
Qed.

(** Loading the checkerboards throws exactly when the file of some view opens
    and does not parse; otherwise a view has a detection set exactly when its
    file could be read. *)
Lemma load_checkerboards_spec (read : N -> FileRead) (sfmData : SfMData) :
  match load_checkerboards read sfmData with
  | Throws => exists v, is_Some (views sfmData !! v) /\ read v = ParseError
  | Undefined => False
  | Done boardsAllImages =>
      (forall v, is_Some (views sfmData !! v) -> read v <> ParseError) /\
      (forall v, boardsAllImages !! v =
                 match views sfmData !! v, read v with
                 | Some _, Parsed d => Some d
                 | _, _ => None
                 end)
  end.
Proof.
  unfold load_checkerboards.
  pose proof (load_fold read (items (views sfmData)) ∅ (NoDup_fst_items _)) as Hl.
  destruct (foldM _ _ _) as [m'| |].
  - destruct Hl as [Hall Hl]. split.
    + intros v Hv. apply Hall. now apply elem_of_view_ids.
    + intros v. rewrite Hl, lookup_empty.
      destruct (decide (v ∈ (items (views sfmData)).*1)) as [Hin|Hin].
      * apply elem_of_view_ids in Hin as [view ->]. now destruct (read v).
      * destruct (views sfmData !! v) eqn:Hv; [|reflexivity].
        exfalso. apply Hin, elem_of_view_ids. rewrite Hv. eauto.
  - destruct Hl as (v & Hv & E). exists v. split; [now apply elem_of_view_ids|exact E].
  - exact Hl.
Qed.

(** A single detection set, as it was loaded. *)
Lemma loaded_singleton (read : N -> FileRead) (sfmData : SfMData)
    (boardsAllImages : gmap N CheckerDetector) (viewId : N) (detector : CheckerDetector) :
  (forall v, boardsAllImages !! v =
             match views sfmData !! v, read v with
             | Some _, Parsed d => Some d
             | _, _ => None
             end) ->
  items boardsAllImages = [(viewId, detector)] ->
  boardsAllImages = {[viewId := detector]} /\
  is_Some (views sfmData !! viewId) /\ read viewId = Parsed detector /\
  (forall v, is_Some (views sfmData !! v) -> v <> viewId -> read v = NotOpened \/
                                                            read v = ParseError).
Proof.
  intros Hl Hi. apply items_eq_singleton in Hi. split; [exact Hi|].
  pose proof (Hl viewId) as Hv. rewrite Hi, lookup_singleton_eq in Hv.
  destruct (views sfmData !! viewId) as [view|]; [|discriminate].
  split; [eauto|]. split.
  - destruct (read viewId); congruence.
  - intros v [view' Hv'] Hne. specialize (Hl v).
    rewrite Hi, lookup_singleton_ne, Hv' in Hl by congruence.
    destruct (read v); auto. discriminate.
Qed.

(** Where the behaviour of [process_innerGrids] is undefined. *)
Lemma innerGrids_undefined (sfmData : SfMData) (boardsAllImages : gmap N CheckerDetector)
    (squareSize distance : double) (useSimplePinhole : bool) :
  process_innerGrids sfmData boardsAllImages squareSize distance useSimplePinhole = None ->
  exists viewId detector,
    items boardsAllImages = [(viewId, detector)] /\
    (views sfmData !! viewId = None \/
     exists view pinhole,
       views sfmData !! viewId = Some view /\
       pinhole_at sfmData (View.intrinsicId view) = Some pinhole /\
       (sort_boards (getCorners detector) (image_center view) (getBoards detector) = None \/
        exists order,
          sort_boards (getCorners detector) (image_center view) (getBoards detector)
            = Some order /\
          boards_loop view pinhole (getCorners detector) useSimplePinhole order
            (loop_start (set_poses ∅ (set_landmarks ∅ sfmData))) = UndefinedRead)).
Proof.
  unfold process_innerGrids. intros Hp.
  destruct (items boardsAllImages) as [|[viewId detector] [|? ?]]; try discriminate.
  exists viewId, detector. split; [reflexivity|]. simpl in Hp.
  destruct (views sfmData !! viewId) as [view|] eqn:Hv; [|now left]. simpl in Hp.
  right. exists view. unfold pinhole_at.
  destruct (intrinsics sfmData !! View.intrinsicId view) as [[pinhole|]|] eqn:Hint;
    simpl in Hp; try discriminate.
  exists pinhole. split; [reflexivity|]. split; [reflexivity|].
  destruct (length (getBoards detector) <? 1)%nat; [discriminate|].
  destruct (sort_boards _ _ _) as [order|] eqn:Hsort; [|now left].
  right. exists order. split; [reflexivity|]. cbn [mbind option_bind] in Hp.
  destruct (boards_loop _ _ _ _ _ _) as [st| |]; try discriminate. reflexivity.
Qed.

(** The calibration program once the scene is loaded.  An exception leaves it
    exactly when the detection file of some view opens and does not parse.
    When it returns, its exit code is [EXIT_SUCCESS] or [EXIT_FAILURE], and it
    is [EXIT_SUCCESS] only if exactly one view of the scene has a detection
    file, which parses, [process_innerGrids] succeeds on it and the scene is
    saved.  Its behaviour is undefined only within [process_innerGrids], for a
    single detection set, of a view of the scene with a pinhole intrinsic:
    in the sort of the boards or in a read of a corner in the loop over the
    boards.  [process_basic] is never called, and the value of [squareSize]
    has no influence on the result. *)
Theorem main_succeeds_only_with_one_detection (sfmData : SfMData)
    (read : N -> FileRead) (save : SfMData -> bool)
    (squareSize distance : double) (useSimplePinhole : bool) :
  let run :=
    aliceVision_main (Some sfmData) read save squareSize distance useSimplePinhole in
  (run = Throws <-> exists v, is_Some (views sfmData !! v) /\ read v = ParseError) /\
  (forall code, run = Done code -> code = EXIT_SUCCESS \/ code = EXIT_FAILURE) /\
  (run = Done EXIT_SUCCESS ->
     exists viewId view detector final,
       views sfmData !! viewId = Some view /\ read viewId = Parsed detector /\
       (forall v, is_Some (views sfmData !! v) -> v <> viewId -> read v = NotOpened) /\
       process_innerGrids sfmData {[viewId := detector]} squareSize distance
         useSimplePinhole = Some (true, final) /\
       save final = true) /\
  (run = Undefined ->
     exists viewId view detector pinhole,
       views sfmData !! viewId = Some view /\ read viewId = Parsed detector /\
       (forall v, is_Some (views sfmData !! v) -> v <> viewId -> read v = NotOpened) /\
       pinhole_at sfmData (View.intrinsicId view) = Some pinhole /\
       (sort_boards (getCorners detector) (image_center view) (getBoards detector) = None \/
        exists order,
          sort_boards (getCorners detector) (image_center view) (getBoards detector)
            = Some order /\
          boards_loop view pinhole (getCorners detector) useSimplePinhole order
            (loop_start (set_poses ∅ (set_landmarks ∅ sfmData))) = UndefinedRead)) /\
  (forall squareSize',
     aliceVision_main (Some sfmData) read save squareSize' distance useSimplePinhole = run).
Proof.
  intros run. subst run. unfold aliceVision_main, useBetaFeatureInnerGrids.
  pose proof (load_checkerboards_spec read sfmData) as Hload.
  destruct (load_checkerboards read sfmData) as [boards| |]; cbn [mbind Run_bind].
  2: { split; [tauto|]. repeat split; discriminate || reflexivity. }
  2: { destruct Hload. }
  destruct Hload as [Hno Hl].
  assert (forall viewId detector,
            items boards = [(viewId, detector)] ->
            boards = {[viewId := detector]} /\
            is_Some (views sfmData !! viewId) /\ read viewId = Parsed detector /\
            (forall v, is_Some (views sfmData !! v) -> v <> viewId -> read v = NotOpened))
    as Hone.
  { intros viewId detector Hi.
    destruct (loaded_singleton read sfmData boards viewId detector Hl Hi)
      as (Hb & Hv & Hr & Hothers).
    repeat split; try assumption. intros v Hv' Hne.
    destruct (Hothers v Hv' Hne) as [E|E]; [exact E|]. now apply Hno in E. }
  assert (~ exists v, is_Some (views sfmData !! v) /\ read v = ParseError) as Hnone.
  { intros (v & Hv & E). now apply (Hno v Hv). }
  assert (forall sq, process_innerGrids sfmData boards sq distance useSimplePinhole
                     = process_innerGrids sfmData boards squareSize distance useSimplePinhole)
    as Hsq by reflexivity.
  destruct (process_innerGrids sfmData boards squareSize distance useSimplePinhole)
    as [[ok final]|] eqn:Hp; cbn [defined mbind Run_bind fst snd].
  - destruct ok; cbn [negb].
    + destruct (save final) eqn:Hs; cbn [negb].
      * split; [split; [discriminate|intros E; now destruct Hnone]|].
        split; [intros code [= <-]; now left|]. split; [|split; [discriminate|]].
        -- intros _.
           destruct (innerGrids_success _ _ _ _ _ _ Hp)
             as (viewId & detector & view & pinhole & order & st & Hi & Hv & _).
           destruct (Hone viewId detector Hi) as (Hb & _ & Hr & Hothers).
           exists viewId, view, detector, final. rewrite <- Hb. auto.
        -- intros sq. rewrite Hsq. cbn [defined mbind Run_bind fst snd negb].
           now rewrite Hs.
      * split; [split; [discriminate|intros E; now destruct Hnone]|].
        split; [intros code [= <-]; now right|].
        split; [discriminate|]. split; [discriminate|].
        intros sq. rewrite Hsq. cbn [defined mbind Run_bind fst snd negb]. now rewrite Hs.
    + split; [split; [discriminate|intros E; now destruct Hnone]|].
      split; [intros code [= <-]; now right|].
      split; [discriminate|]. split; [discriminate|].
      intros sq. now rewrite Hsq.
  - split; [split; [discriminate|intros E; now destruct Hnone]|].
    split; [discriminate|]. split; [discriminate|]. split; [|intros sq; now rewrite Hsq].
    intros _. destruct (innerGrids_undefined _ _ _ _ _ Hp)
      as (viewId & detector & Hi & Hcase).
    destruct (Hone viewId detector Hi) as (Hb & [view Hv] & Hr & Hothers).
    destruct Hcase as [Hnone'|(view' & pinhole & Hv' & Hpin & Hwhere)]; [congruence|].
    rewrite Hv in Hv'. injection Hv' as <-.
    exists viewId, view, detector, pinhole. auto.
Qed.

End MainFacts.

(** ** computeScore *)

Section ScoreFacts.
Context `{!Math}.

Lemma foldM_cons_Done {A B} (f : A -> B -> Run A) (a r : A) (b : B) (l : list B) :
  foldM f a (b :: l) = Done r -> exists a', f a b = Done a' /\ foldM f a' l = Done r.
Proof. simpl. destruct (f a b) as [a'| |]; try discriminate. eauto. Qed.

Lemma foldM_app {A B} (f : A -> B -> Run A) (a : A) (l1 l2 : list B) :
  foldM f a (l1 ++ l2) = (a' ← foldM f a l1; foldM f a' l2).
Proof.
  revert a. induction l1 as [|b l1 IH]; intros a; [reflexivity|].
  simpl. destruct (f a b); [apply IH|reflexivity|reflexivity].
Qed.

Lemma foldl_ext_in {A B} (f g : A -> B -> A) (a : A) (l : list B) :
  (forall a b, b ∈ l -> f a b = g a b) -> foldl f a l = foldl g a l.
Proof.
  revert a. induction l as [|b l IH]; intros a Hfg; [reflexivity|].
  simpl. rewrite Hfg by left. apply IH. intros a' b' Hb'. apply Hfg. now right.
Qed.

Lemma insert_cell_eq (ptx pty : N) (uniques : list (gset (N * N))) (shift : nat) :
  insert_cell ptx pty uniques shift
    = if (32 <=? shift)%nat then Undefined
      else Done (alter (fun s => {[cell_at shift (ptx, pty)]} ∪ s) (shift - 1)%nat uniques).
Proof. reflexivity. Qed.

(** Below level 32 no shift is undefined: the loop over [shift] alters one
    set per level. *)
Lemma insert_cells_Done (ptx pty : N) (n a : nat) (uniques : list (gset (N * N))) :
  (a + n <= 32)%nat ->
  foldM (insert_cell ptx pty) uniques (seq a n)
    = Done (foldl (fun u shift => alter (fun s => {[cell_at shift (ptx, pty)]} ∪ s)
                                    (shift - 1)%nat u) uniques (seq a n)).
Proof.
  revert a uniques. induction n as [|n IH]; intros a uniques Hle; [reflexivity|].
  cbn [seq foldM foldl]. rewrite insert_cell_eq.
  destruct (Nat.leb_spec 32 a) as [Hge|_]; [lia|]. cbn [mbind Run_bind]. apply IH. lia.
Qed.

Lemma insert_cells_lookup (f : nat -> gset (N * N) -> gset (N * N)) (n a i : nat)
    (uniques : list (gset (N * N))) :
  (1 <= a)%nat ->
  foldl (fun u shift => alter (f shift) (shift - 1)%nat u) uniques (seq a n) !! i
    = if decide (a - 1 <= i < a - 1 + n)%nat then f (S i) <$> uniques !! i
      else uniques !! i.
Proof.
  revert a uniques. induction n as [|n IH]; intros a uniques Ha.
  - simpl. destruct (decide _); [lia|reflexivity].
  - simpl. rewrite IH by lia.
    destruct (decide (i = a - 1)%nat) as [->|Hne].
    + rewrite list_lookup_alter.
      repeat case_decide; try lia.
      replace (S (a - 1)) with a by lia. reflexivity.
    + rewrite list_lookup_alter_ne by lia.
      repeat case_decide; try lia; reflexivity.
Qed.

(** A shift by 32 or more is reached as soon as [maxLevel] is above 32. *)
Lemma insert_cells_Undefined (ptx pty : N) (n a : nat) (uniques : list (gset (N * N))) :
  (a <= 32 < a + n)%nat ->
  foldM (insert_cell ptx pty) uniques (seq a n) = Undefined.
Proof.
  revert a uniques. induction n as [|n IH]; intros a uniques Hle; [lia|].
  cbn [seq foldM]. rewrite insert_cell_eq.
  destruct (Nat.leb_spec 32 a) as [Hge|Hlt]; [reflexivity|]. cbn [mbind Run_bind].
  apply IH. lia.
Qed.

Lemma track_pixel_point (tracksMap : gmap N Track) (viewId trackId : N) (p : N * N) :
  track_pixel tracksMap viewId trackId = Some p <->
  exists pt, track_point tracksMap trackId viewId = Done pt /\
    unsigned_of_double (fst pt) = Some p.1 /\ unsigned_of_double (snd pt) = Some p.2.
Proof.
  unfold track_pixel, track_point. destruct (tracksMap !! trackId) as [track|]; simpl.
  - destruct (featPerView track !! viewId) as [item|]; simpl.
    + split.
      * intros Hp. exists (coords item). split; [reflexivity|].
        destruct (unsigned_of_double (fst (coords item))); simpl in Hp; [|discriminate].
        destruct (unsigned_of_double (snd (coords item))); simpl in Hp; [|discriminate].
        injection Hp as <-. split; reflexivity.
      * intros (pt & [= <-] & -> & ->). simpl. now destruct p.
    + split; [discriminate|]. intros (pt & Hpt & _). discriminate.
  - split; [discriminate|]. intros (pt & Hpt & _). discriminate.
Qed.

(** One used track, below level 32: its cell is added at every level. *)
Lemma add_track_cells (tracksMap : gmap N Track) (viewId maxLevel trackId : N)
    (p : N * N) (S0 : nat -> gset (N * N)) :
  maxLevel <= 32 ->
  track_pixel tracksMap viewId trackId = Some p ->
  add_track tracksMap viewId maxLevel (S0 <$> levels maxLevel) trackId
    = Done ((fun shift => {[cell_at shift p]} ∪ S0 shift) <$> levels maxLevel).
Proof.
  intros HL (pt & Hpt & Hx & Hy)%track_pixel_point. unfold add_track.
  rewrite Hpt. simpl. rewrite Hx, Hy. unfold levels.
  rewrite insert_cells_Done by lia. f_equal. apply list_eq. intros i.
  rewrite (insert_cells_lookup (fun shift s => {[cell_at shift (p.1, p.2)]} ∪ s)) by lia.
  rewrite !list_lookup_fmap. destruct p as [x y]. simpl.
  destruct (decide _) as [Hi|Hi].
  - rewrite (lookup_seq_lt _ _ i) by lia. reflexivity.
  - rewrite (lookup_seq_ge _ _ i) by lia. reflexivity.
Qed.

Lemma cells_snoc (shift : nat) (pts : list (N * N)) (p : N * N) :
  cells shift (pts ++ [p]) = {[cell_at shift p]} ∪ cells shift pts.
Proof.
  unfold cells. rewrite fmap_app, list_to_set_app_L. simpl.
  rewrite union_empty_r_L. apply union_comm_L.
Qed.

Lemma pixels_snoc (tracksMap : gmap N Track) (viewId : N) (l : list N) (t : N) (p : N * N) :
  track_pixel tracksMap viewId t = Some p ->
  pixels tracksMap viewId (l ++ [t]) = pixels tracksMap viewId l ++ [p].
Proof. intros Hp. unfold pixels. rewrite omap_app. simpl. now rewrite Hp. Qed.

Lemma tracks_cells_from (tracksMap : gmap N Track) (viewId maxLevel : N)
    (usedTracks seen : list N) :
  maxLevel <= 32 ->
  (forall t, t ∈ usedTracks -> is_Some (track_pixel tracksMap viewId t)) ->
  foldM (add_track tracksMap viewId maxLevel)
    ((fun shift => cells shift (pixels tracksMap viewId seen)) <$> levels maxLevel)
    usedTracks
  = Done ((fun shift => cells shift (pixels tracksMap viewId (seen ++ usedTracks)))
            <$> levels maxLevel).
Proof.
  intros HL. revert seen. induction usedTracks as [|t l IH]; intros seen Hall.
  - now rewrite app_nil_r.
  - destruct (Hall t) as [p Hp]; [left|].
    simpl. rewrite (add_track_cells _ _ _ _ p) by assumption. simpl.
    replace (seen ++ t :: l) with ((seen ++ [t]) ++ l) by now rewrite <- app_assoc.
    rewrite <- IH by (intros t' Ht'; apply Hall; now right).
    f_equal. apply list_fmap_ext. intros i shift _.
    now rewrite (pixels_snoc _ _ _ _ p), cells_snoc.
Qed.

(** After the loop over the used tracks, [uniques] holds at every level the
    cells of the pixels of the used tracks. *)
Lemma tracks_cells (tracksMap : gmap N Track) (viewId maxLevel : N) (usedTracks : list N) :
  maxLevel <= 32 ->
  (forall t, t ∈ usedTracks -> is_Some (track_pixel tracksMap viewId t)) ->
  foldM (add_track tracksMap viewId maxLevel) (replicate (N.to_nat maxLevel - 1) ∅)
    usedTracks
  = Done ((fun shift => cells shift (pixels tracksMap viewId usedTracks))
            <$> levels maxLevel).
Proof.
  intros HL Hall.
  etrans; [|exact (tracks_cells_from tracksMap viewId maxLevel usedTracks [] HL Hall)].
  f_equal. apply list_eq. intros i. rewrite list_lookup_fmap. unfold levels.
  destruct (decide (i < N.to_nat maxLevel - 1)%nat) as [Hi|Hi].
  - rewrite lookup_replicate_2, lookup_seq_lt by lia. reflexivity.
  - rewrite (proj1 (lookup_replicate_None _ _ _)), lookup_seq_ge by lia. reflexivity.
Qed.

Lemma add_track_Done (tracksMap : gmap N Track) (viewId maxLevel trackId : N)
    (u u' : list (gset (N * N))) :
  add_track tracksMap viewId maxLevel u trackId = Done u' ->
  is_Some (track_pixel tracksMap viewId trackId) /\ maxLevel <= 32.
Proof.
  unfold add_track. destruct (track_point tracksMap trackId viewId) as [pt| |] eqn:Hpt;
    simpl; try discriminate.
  destruct (unsigned_of_double (fst pt)) as [ptx|] eqn:Hx; try discriminate.
  destruct (unsigned_of_double (snd pt)) as [pty|] eqn:Hy; try discriminate.
  intros Hd. split.
  - exists (ptx, pty). apply track_pixel_point. eauto.
  - destruct (N.le_gt_cases maxLevel 32) as [|Hgt]; [assumption|].
    unfold levels in Hd. rewrite insert_cells_Undefined in Hd by lia. discriminate.
Qed.

Lemma tracks_Done (tracksMap : gmap N Track) (viewId maxLevel : N) (usedTracks : list N)
    (u u' : list (gset (N * N))) :
  foldM (add_track tracksMap viewId maxLevel) u usedTracks = Done u' ->
  (forall t, t ∈ usedTracks -> is_Some (track_pixel tracksMap viewId t)) /\
  (usedTracks = [] \/ maxLevel <= 32).
Proof.
  revert u. induction usedTracks as [|t l IH]; intros u Hd.
  - split; [|now left]. intros t Ht. now apply elem_of_nil in Ht.
  - apply foldM_cons_Done in Hd as (u1 & H1 & Hd).
    apply add_track_Done in H1 as [Hp HL]. apply IH in Hd as [Hall _].
    split; [|now right]. intros t' [->|Ht']%elem_of_cons; auto.
Qed.

Lemma int_of_size_t_small (n : N) : n < 2 ^ 31 -> int_of_size_t n = Z.of_N n.
Proof.
  intros Hn. unfold int_of_size_t, IndexT_modulus.
  rewrite N.mod_small by (unfold IndexT_modulus; lia). cbv zeta.
  destruct (Z.ltb_spec (Z.of_N n) (2 ^ 31)); lia.
Qed.

Lemma size_cells_le (shift : nat) (pts : list (N * N)) :
  (size (cells shift pts) <= length pts)%nat.
Proof.
  unfold cells. induction pts as [|p pts IH].
  - rewrite fmap_nil, list_to_set_nil, size_empty. reflexivity.
  - rewrite fmap_cons, list_to_set_cons. cbn [length].
    rewrite size_union_alt, size_singleton.
    assert (size (list_to_set (cell_at shift <$> pts) ∖ ({[cell_at shift p]} : gset (N * N)))
            <= size (list_to_set (cell_at shift <$> pts) : gset (N * N)))%nat
      by (apply subseteq_size, subseteq_difference_l; reflexivity).
    lia.
Qed.

Lemma length_pixels_le (tracksMap : gmap N Track) (viewId : N) (l : list N) :
  (length (pixels tracksMap viewId l) <= length l)%nat.
Proof.
  unfold pixels. induction l as [|t l IH]; [reflexivity|].
  cbn [omap list_omap length].
  destruct (track_pixel tracksMap viewId t); cbn [length].
  - apply le_n_S, IH.
  - apply Nat.le_le_succ_r, IH.
Qed.

(** The second loop, on the sets the first loop has built. *)
Lemma add_levels_cells (maxLevel : N) (pts : list (N * N)) :
  N.of_nat (length pts) < 2 ^ 31 ->
  foldl (add_level maxLevel ((fun shift => cells shift pts) <$> levels maxLevel)) 0%float
    (levels maxLevel)
  = cell_score maxLevel pts.
Proof.
  intros Hlen. unfold cell_score. apply foldl_ext_in. intros sum shift Hs.
  unfold levels in Hs. apply elem_of_seq in Hs. unfold add_level.
  rewrite list_lookup_fmap. unfold levels. rewrite lookup_seq_lt by lia.
  cbn [fmap option_fmap option_map default]. unfold id.
  replace (1 + (shift - 1))%nat with shift by lia.
  pose proof (size_cells_le shift pts).
  rewrite int_of_size_t_small by lia.
  destruct (Z.leb_spec (Z.of_N (N.of_nat (size (cells shift pts)))) 1),
           (Nat.leb_spec (size (cells shift pts)) 1); try lia; try reflexivity.
  now rewrite N2Z.id.
Qed.

(** For [maxLevel] between 1 and 32, fewer than [2^31] used tracks and used
    tracks that all have a feature in the view with coordinates that convert
    to [unsigned int], [computeScore] returns the sum, over the levels
    [shift = 1 .. maxLevel - 1] in this order, of
    [pow(2, maxLevel - shift) * n], where [n] is the number of distinct cells
    [(x >> shift, y >> shift)] the pixels of the used tracks occupy, the
    levels with at most one occupied cell being left out. *)
Theorem computeScore_counts_cells (tracksMap : gmap N Track) (usedTracks : list N)
    (viewId maxLevel : N) :
  1 <= maxLevel <= 32 ->
  N.of_nat (length usedTracks) < 2 ^ 31 ->
  (forall t, t ∈ usedTracks -> is_Some (track_pixel tracksMap viewId t)) ->
  computeScore tracksMap usedTracks viewId maxLevel
    = Done (cell_score maxLevel (pixels tracksMap viewId usedTracks)).
Proof.
  intros [H1 H32] Hlen Hall. unfold computeScore.
  destruct (N.eqb_spec maxLevel 0) as [|_]; [lia|].
  rewrite tracks_cells by assumption. cbn [mbind Run_bind].
  destruct (N.leb_spec IndexT_modulus maxLevel) as [Hgt|_];
    [unfold IndexT_modulus in Hgt; lia|].
  f_equal. apply add_levels_cells.
  pose proof (length_pixels_le tracksMap viewId usedTracks). lia.
Qed.

Lemma add_levels_empty (maxLevel : N) (k : nat) (l : list nat) :
  foldl (add_level maxLevel (replicate k ∅)) 0%float l = 0%float.
Proof.
  induction l as [|shift l IH]; [reflexivity|]. simpl. unfold add_level at 2.
  assert (default ∅ (replicate k (∅ : gset (N * N)) !! (shift - 1)%nat) = ∅) as ->.
  { destruct (replicate k ∅ !! (shift - 1)%nat) eqn:E; [|reflexivity].
    apply lookup_replicate in E as [-> _]. reflexivity. }
  rewrite size_empty. exact IH.
Qed.

Lemma computeScore_Done (tracksMap : gmap N Track) (usedTracks : list N)
    (viewId maxLevel : N) (sum : double) :
  computeScore tracksMap usedTracks viewId maxLevel = Done sum ->
  1 <= maxLevel < 2 ^ 32 /\
  (forall t, t ∈ usedTracks -> is_Some (track_pixel tracksMap viewId t)) /\
  (usedTracks = [] \/ maxLevel <= 32).
Proof.
  unfold computeScore. intros Hd.
  destruct (N.eqb_spec maxLevel 0) as [|H0]; [discriminate|].
  destruct (foldM _ _ usedTracks) as [u| |] eqn:Hu; try discriminate.
  cbn [mbind Run_bind] in Hd.
  destruct (N.leb_spec IndexT_modulus maxLevel) as [|Hle]; [discriminate|].
  apply tracks_Done in Hu. unfold IndexT_modulus in Hle. split; [lia|exact Hu].
Qed.

(** [computeScore] returns a value exactly when [maxLevel] is at least 1
    and below [2^32], every used track is in [tracksMap] with a feature in
    the view whose coordinates convert to [unsigned int], and there is no
    used track or [maxLevel] is at most 32.  Otherwise it throws
    ([maxLevel == 0], a track or a feature that [at] does not find) or its
    behaviour is undefined (a coordinate out of range, a shift by 32 or more,
    the counter that wraps). *)
Theorem computeScore_returns_iff (tracksMap : gmap N Track) (usedTracks : list N)
    (viewId maxLevel : N) :
  (exists sum, computeScore tracksMap usedTracks viewId maxLevel = Done sum) <->
  1 <= maxLevel < 2 ^ 32 /\
  (forall t, t ∈ usedTracks -> is_Some (track_pixel tracksMap viewId t)) /\
  (usedTracks = [] \/ maxLevel <= 32).
Proof.
  split.
  - intros [sum Hd]. exact (computeScore_Done _ _ _ _ _ Hd).
  - unfold computeScore. intros ([H1 H2] & Hall & Hor).
    destruct (N.eqb_spec maxLevel 0) as [|_]; [lia|].
    destruct Hor as [->|H32]; [|rewrite tracks_cells by assumption];
      cbn [foldM mbind Run_bind];
      (destruct (N.leb_spec IndexT_modulus maxLevel) as [Hgt|_];
         [unfold IndexT_modulus in Hgt; lia|]); eauto.
Qed.

Lemma elem_of_pixels (tracksMap : gmap N Track) (viewId : N) (l : list N) (p : N * N) :
  p ∈ pixels tracksMap viewId l <->
  exists t, t ∈ l /\ track_pixel tracksMap viewId t = Some p.
Proof. unfold pixels. apply list_elem_of_omap. Qed.

Lemma elem_of_cells (shift : nat) (pts : list (N * N)) (c : N * N) :
  c ∈ cells shift pts <-> exists p, c = cell_at shift p /\ p ∈ pts.
Proof. unfold cells. rewrite elem_of_list_to_set. apply list_elem_of_fmap. Qed.

Lemma cells_pixels_ext (tracksMap : gmap N Track) (viewId : N) (l l' : list N)
    (shift : nat) :
  (forall t, t ∈ l <-> t ∈ l') ->
  cells shift (pixels tracksMap viewId l) = cells shift (pixels tracksMap viewId l').
Proof.
  intros Hll. apply set_eq. intros c. rewrite !elem_of_cells.
  split; intros (p & -> & (t & Ht & Hp)%elem_of_pixels); exists p;
    (split; [reflexivity|]); apply elem_of_pixels; exists t; split; try assumption;
    now apply Hll.
Qed.

(** The score depends on the set of the used tracks only: when
    [computeScore] returns a sum for a list of tracks, it returns the same
    sum, bit for bit, for every list with the same elements, whatever their
    order and their repetitions. *)
Theorem computeScore_order_independent (tracksMap : gmap N Track)
    (usedTracks usedTracks' : list N) (viewId maxLevel : N) (sum : double) :
  (forall t, t ∈ usedTracks <-> t ∈ usedTracks') ->
  computeScore tracksMap usedTracks viewId maxLevel = Done sum ->
  computeScore tracksMap usedTracks' viewId maxLevel = Done sum.
Proof.
  intros Hll. unfold computeScore.
  destruct (maxLevel =? 0); [discriminate|].
  destruct (foldM _ _ usedTracks) as [u| |] eqn:Hu; try discriminate.
  destruct (tracks_Done _ _ _ _ _ _ Hu) as [Hall [->|H32]].
  - assert (usedTracks' = []) as ->; [|now rewrite Hu].
    destruct usedTracks' as [|t l]; [reflexivity|].
    exfalso. apply (elem_of_nil t), Hll. left.
  - rewrite tracks_cells in Hu by assumption. injection Hu as <-.
    rewrite tracks_cells by (try assumption; intros t Ht; now apply Hall, Hll).
    cbn [mbind Run_bind]. destruct (IndexT_modulus <=? maxLevel); [discriminate|].
    intros [= <-]. do 3 f_equal. apply list_fmap_ext. intros i shift _.
    now apply cells_pixels_ext.
Qed.

Lemma cell_at_S (shift : nat) (p : N * N) :
  (1 <= shift)%nat -> cell_at shift p = cell_at (shift - 1) (cell_at 1 p).
Proof.
  intros Hs. unfold cell_at. cbn [fst snd]. rewrite !N.shiftr_shiftr.
  replace (N.of_nat 1 + N.of_nat (shift - 1)) with (N.of_nat shift) by lia. reflexivity.
Qed.

(** Pixels of one cell at level 1 share their cell at every level. *)
Lemma size_cells_one (shift : nat) (pts : list (N * N)) :
  (1 <= shift)%nat ->
  (forall p q, p ∈ pts -> q ∈ pts -> cell_at 1 p = cell_at 1 q) ->
  (size (cells shift pts) <= 1)%nat.
Proof.
  intros Hs Hone. destruct pts as [|p0 pts].
  - unfold cells. rewrite fmap_nil, list_to_set_nil, size_empty. lia.
  - rewrite <- (size_singleton (C:=gset (N * N)) (cell_at shift p0)).
    apply subseteq_size. intros c (q & -> & Hq)%elem_of_cells.
    apply elem_of_singleton. rewrite (cell_at_S shift q), (cell_at_S shift p0) by assumption.
    f_equal. apply Hone; [assumption|left].
Qed.

Lemma add_levels_skipped (maxLevel : N) (uniques : list (gset (N * N))) (l : list nat) :
  (forall shift, shift ∈ l -> (size (default ∅ (uniques !! (shift - 1)%nat)) <= 1)%nat) ->
  foldl (add_level maxLevel uniques) 0%float l = 0%float.
Proof.
  induction l as [|shift l IH]; intros Hl; [reflexivity|].
  simpl. unfold add_level at 2.
  pose proof (Hl shift (list_elem_of_here _ _)) as H1.
  rewrite int_of_size_t_small by lia.
  destruct (Z.leb_spec (Z.of_N (N.of_nat (size (default ∅ (uniques !! (shift - 1)%nat))))) 1);
    [|lia].
  apply IH. intros s' Hs'. apply Hl. now right.
Qed.

(** With the pixels in one cell of level 1, the second loop skips every level. *)
Lemma add_levels_one_cell (maxLevel : N) (pts : list (N * N)) :
  (forall p q, p ∈ pts -> q ∈ pts -> cell_at 1 p = cell_at 1 q) ->
  foldl (add_level maxLevel ((fun shift => cells shift pts) <$> levels maxLevel)) 0%float
    (levels maxLevel) = 0%float.
Proof.
  intros Hone. apply add_levels_skipped. intros shift Hs. unfold levels in Hs |- *.
  apply elem_of_seq in Hs. rewrite list_lookup_fmap, lookup_seq_lt by lia.
  cbn [fmap option_fmap option_map default]. apply size_cells_one; [lia|exact Hone].
Qed.

(** When the pixels of the used tracks all lie in one cell of level 1 (the
    same 2 x 2 block of pixels), which includes a single used track and no
    used track at all, the score is [+0]: no level has two occupied cells. *)
Theorem computeScore_zero_within_one_cell (tracksMap : gmap N Track)
    (usedTracks : list N) (viewId maxLevel : N) :
  1 <= maxLevel <= 32 ->
  (forall t, t ∈ usedTracks -> is_Some (track_pixel tracksMap viewId t)) ->
  (forall p q, p ∈ pixels tracksMap viewId usedTracks ->
     q ∈ pixels tracksMap viewId usedTracks -> cell_at 1 p = cell_at 1 q) ->
  computeScore tracksMap usedTracks viewId maxLevel = Done 0%float.
Proof.
  intros [H1 H32] Hall Hone. unfold computeScore.
  destruct (N.eqb_spec maxLevel 0) as [|_]; [lia|].
  rewrite tracks_cells by assumption. cbn [mbind Run_bind].
  destruct (N.leb_spec IndexT_modulus maxLevel) as [Hgt|_];
    [unfold IndexT_modulus in Hgt; lia|].
  f_equal. now apply add_levels_one_cell.
Qed.

(** A score for pixels of one cell of level 1 is [+0]. *)
Lemma score_one_cell (tracksMap : gmap N Track) (usedTracks : list N)
    (viewId maxLevel : N) (sum : double) :
  computeScore tracksMap usedTracks viewId maxLevel = Done sum ->
  (forall p q, p ∈ pixels tracksMap viewId usedTracks ->
     q ∈ pixels tracksMap viewId usedTracks -> cell_at 1 p = cell_at 1 q) ->
  sum = 0%float.
Proof.
  intros Hd Hone. destruct (computeScore_Done _ _ _ _ _ Hd) as (_ & Hall & Hor).
  unfold computeScore in Hd. destruct (maxLevel =? 0); [discriminate|].
  destruct Hor as [->|H32].
  - cbn [foldM mbind Run_bind] in Hd.
    destruct (IndexT_modulus <=? maxLevel); [discriminate|].
    injection Hd as <-. apply add_levels_empty.
  - rewrite tracks_cells in Hd by assumption. cbn [mbind Run_bind] in Hd.
    destruct (IndexT_modulus <=? maxLevel); [discriminate|].
    injection Hd as <-. now apply add_levels_one_cell.
Qed.

(** With at most one used track the score, when there is one, is [+0]. *)
Lemma score_of_one_track (tracksMap : gmap N Track) (usedTracks : list N)
    (viewId : N) (sum : double) :
  (length usedTracks <= 1)%nat ->
  computeScore tracksMap usedTracks viewId 16 = Done sum -> sum = 0%float.
Proof.
  intros Hlen Hd. apply (score_one_cell _ _ _ _ _ Hd).
  intros p q Hp Hq. pose proof (length_pixels_le tracksMap viewId usedTracks) as Hle.
  destruct (pixels tracksMap viewId usedTracks) as [|p0 [|p1 l]].
  - now apply elem_of_nil in Hp.
  - apply list_elem_of_singleton in Hp, Hq. congruence.
  - simpl in Hle. lia.
Qed.

End ScoreFacts.

(** ** Comparison of doubles, continued *)

Section FloatOrderMore.

Lemma ltb_true_numbers (x y : double) :
  (x <? y)%float = true -> PrimFloat.is_nan x = false /\ PrimFloat.is_nan y = false.
Proof.
  rewrite ltb_spec. intros Hlt. split.
  - destruct (PrimFloat.is_nan x) eqn:E; [|reflexivity].
    apply is_nan_spec in E. rewrite E in Hlt. discriminate.
  - destruct (PrimFloat.is_nan y) eqn:E; [|reflexivity].
    apply is_nan_spec in E. rewrite E, SFltb_nan_r in Hlt. discriminate.
Qed.

Lemma lex_le_lt_trans (a b c : Z * Z * Z) : ~ lex_lt b a -> lex_lt b c -> lex_lt a c.
Proof.
  destruct a as [[a1 a2] a3], b as [[b1 b2] b3], c as [[c1 c2] c3]. simpl. lia.
Qed.

(** [x <= y] and [y < z] give [x < z], for a number [x]. *)
Lemma ltb_le_lt_trans (x y z : double) :
  PrimFloat.is_nan x = false ->
  (y <? x)%float = false -> (y <? z)%float = true -> (x <? z)%float = true.
Proof.
  intros Hx Hyx Hyz. destruct (ltb_true_numbers _ _ Hyz) as [Hy Hz].
  apply Prim2SF_not_nan in Hx, Hy, Hz. rewrite ltb_spec in *.
  apply (SFltb_lex _ _ Hx Hz). apply (SFltb_lex _ _ Hy Hz) in Hyz.
  apply (lex_le_lt_trans _ (sf_rank (Prim2SF y))); [|assumption].
  intros L. apply (SFltb_lex _ _ Hy Hx) in L. congruence.
Qed.

(** Nothing that is not below zero is below a product with zero. *)
Lemma ltb_zero_mul (x d : double) :
  PrimFloat.is_nan x = false -> (x <? 0)%float = false -> (x <? 0 * d)%float = false.
Proof.
  intros Hx Hx0. apply Prim2SF_not_nan in Hx. rewrite ltb_spec in *.
  rewrite mul_spec. change (Prim2SF 0) with (S754_zero false) in *.
  rewrite SFmul_zero_l. destruct (SF_is_finite (Prim2SF d)); [|apply SFltb_nan_r].
  destruct (SFltb (Prim2SF x) (S754_zero _)) eqn:E; [|reflexivity].
  apply (SFltb_lex _ _ Hx) in E; [|discriminate].
  assert (lex_lt (sf_rank (Prim2SF x)) (sf_rank (S754_zero false))) as L by exact E.
  apply (SFltb_lex _ _ Hx) in L; [congruence|discriminate].
Qed.

End FloatOrderMore.

(** ** estimatePairAngle: the used tracks *)

Section UsedTracks.
Context `{!Numerics, !Camera, !Multiview, !Tracks}.

Lemma track_step_Some (g : PairGeometry) (pair : ReconstructedPair) (maxDistance : double)
    (acc acc' : list double * list N) (commonItem : N * Track) :
  track_step g pair maxDistance acc commonItem = Some acc' ->
  is_Some (featPerView commonItem.2 !! reference pair) /\
  is_Some (featPerView commonItem.2 !! next pair).
Proof.
  unfold track_step. destruct acc as [angles used].
  destruct (featPerView commonItem.2 !! reference pair); [|discriminate].
  destruct (featPerView commonItem.2 !! next pair); [|discriminate]. eauto.
Qed.

Lemma tracks_loop_Some (g : PairGeometry) (pair : ReconstructedPair) (maxDistance : double)
    (commons : list (N * Track)) (acc acc' : list double * list N) :
  tracks_loop g pair maxDistance commons acc = Some acc' ->
  forall commonItem, commonItem ∈ commons ->
    is_Some (featPerView commonItem.2 !! reference pair) /\
    is_Some (featPerView commonItem.2 !! next pair).
Proof.
  revert acc. induction commons as [|ci commons IH]; intros acc Hs c Hc.
  - now apply elem_of_nil in Hc.
  - simpl in Hs. destruct (track_step g pair maxDistance acc ci) as [acc1|] eqn:E1;
      [|discriminate].
    apply elem_of_cons in Hc as [->|Hc].
    + exact (track_step_Some _ _ _ _ _ _ E1).
    + exact (IH _ Hs c Hc).
Qed.

Lemma kept_ids_common (g : PairGeometry) (pair : ReconstructedPair) (maxDistance : double)
    (commons : list (N * Track)) (t : N) :
  t ∈ kept_ids g pair maxDistance commons -> t ∈ commons.*1.
Proof.
  intros (track & _ & _ & Hc & _)%elem_of_kept_ids.
  apply list_elem_of_fmap. now exists (t, track).
Qed.

Lemma kept_ids_sorted (g : PairGeometry) (pair : ReconstructedPair) (maxDistance : double)
    (commons : list (N * Track)) :
  StronglySorted N.lt commons.*1 ->
  StronglySorted N.lt (kept_ids g pair maxDistance commons).
Proof.
  induction commons as [|ci commons IH]; intros Hs; [constructor|].
  rewrite fmap_cons in Hs. apply StronglySorted_inv in Hs as [Hs Hlt].
  assert (kept_ids g pair maxDistance (ci :: commons)
          = kept_ids g pair maxDistance [ci] ++ kept_ids g pair maxDistance commons) as ->.
  { unfold kept_ids. simpl. now rewrite app_nil_r. }
  assert (kept_ids g pair maxDistance [ci] = [] \/ kept_ids g pair maxDistance [ci] = [ci.1])
    as [->| ->].
  { unfold kept_ids. simpl. rewrite app_nil_r.
    destruct (featPerView ci.2 !! reference pair); [|now left].
    destruct (featPerView ci.2 !! next pair); [|now left].
    destruct (kept _ _ _ _); [now right|now left]. }
  - simpl. now apply IH.
  - simpl. constructor; [now apply IH|].
    apply Forall_forall. intros t Ht%kept_ids_common.
    rewrite Forall_forall in Hlt. now apply Hlt.
Qed.

Lemma items_keys_increasing {A} (m : gmap N A) : StronglySorted N.lt (items m).*1.
Proof.
  pose proof (items_sorted m) as Hs. pose proof (NoDup_fst_items m) as Hn.
  induction (items m) as [|[k x] l IH]; [constructor|].
  rewrite fmap_cons in Hn |- *. apply NoDup_cons in Hn as [Hk Hn].
  apply StronglySorted_inv in Hs as [Hs Hle]. constructor; [now apply IH|].
  apply Forall_forall. intros k' Hk'. apply list_elem_of_fmap in Hk' as ([k2 x2] & -> & Hk2).
  rewrite Forall_forall in Hle. pose proof (Hle _ Hk2) as Hle2. unfold key_le in Hle2.
  simpl in *. assert (k <> k2); [|lia].
  intros ->. apply Hk. apply list_elem_of_fmap. now exists (k2, x2).
Qed.

(** What a return of true says about the loop over the common tracks. *)
Lemma estimate_true (sfmData : SfMData) (pair : ReconstructedPair)
    (tracksMap : gmap N Track) (tracksPerView : gmap N (list N))
    (maxDistance resultAngle0 : double) (resultAngle : option double) (used : list N) :
  estimatePairAngle sfmData pair tracksMap tracksPerView maxDistance resultAngle0
    = Returned true resultAngle used ->
  exists g angles,
    let commons := items (getCommonTracksInImagesFast [reference pair; next pair]
                            tracksMap tracksPerView) in
    (forall commonItem, commonItem ∈ commons ->
       is_Some (featPerView commonItem.2 !! reference pair) /\
       is_Some (featPerView commonItem.2 !! next pair)) /\
    used = wrap_IndexT <$> kept_ids g pair maxDistance commons /\
    length angles = length used /\
    resultAngle = nth_element_at angles (medianIndex angles).
Proof.
  unfold estimatePairAngle.
  destruct (views sfmData !! reference pair) as [refView|]; [|discriminate].
  destruct (views sfmData !! next pair) as [nextView|]; [|discriminate].
  destruct (pinhole_at sfmData (View.intrinsicId refView)) as [refPinhole|]; [|discriminate].
  destruct (pinhole_at sfmData (View.intrinsicId nextView)) as [nextPinhole|];
    [|discriminate].
  destruct (tracks_loop _ _ _ _ _) as [[angles used']|] eqn:E; [|discriminate].
  intros [= <- <-]. pose proof (tracks_loop_Some _ _ _ _ _ _ E) as Hall.
  destruct (tracks_loop_kept (pair_geometry refPinhole nextPinhole pair) pair maxDistance
              _ ([], []) Hall) as (angles' & E' & Hlen).
  rewrite E in E'. injection E' as -> ->.
  exists (pair_geometry refPinhole nextPinhole pair), angles'. cbv zeta.
  split; [exact Hall|]. split; [reflexivity|].
  split; [now rewrite length_fmap|reflexivity].
Qed.

Lemma wrap_IndexT_small_ids (ids : list N) :
  Forall (fun t => t < IndexT_modulus) ids -> wrap_IndexT <$> ids = ids.
Proof.
  induction 1 as [|t ids Ht _ IH]; [reflexivity|].
  rewrite fmap_cons, IH. unfold wrap_IndexT. now rewrite N.mod_small.
Qed.

(** When [estimatePairAngle] returns true, [usedTracks] holds, narrowed to
    [IndexT], the ids of a strictly increasing list of common tracks of the
    two views (the common tracks are visited by increasing id); it is that
    list itself, and strictly increasing, when the ids of the common tracks
    are below [2^32].  Every common track, used or not, has a feature in both
    views (otherwise [at] throws). *)
Theorem used_tracks_are_increasing_common_tracks (sfmData : SfMData)
    (pair : ReconstructedPair) (tracksMap : gmap N Track) (tracksPerView : gmap N (list N))
    (maxDistance resultAngle0 : double) (resultAngle : option double) (used : list N) :
  estimatePairAngle sfmData pair tracksMap tracksPerView maxDistance resultAngle0
    = Returned true resultAngle used ->
  let commons :=
    getCommonTracksInImagesFast [reference pair; next pair] tracksMap tracksPerView in
  (exists ids,
     used = wrap_IndexT <$> ids /\
     StronglySorted N.lt ids /\
     (forall t, t ∈ ids -> is_Some (commons !! t)) /\
     ((forall t, is_Some (commons !! t) -> t < IndexT_modulus) ->
        used = ids /\ StronglySorted N.lt used)) /\
  (forall t track,
     commons !! t = Some track ->
     is_Some (featPerView track !! reference pair) /\
     is_Some (featPerView track !! next pair)).
Proof.
  intros (g & angles & Hall & -> & _ & _)%estimate_true commons. split.
  - eexists. split; [reflexivity|].
    assert (forall t,
              t ∈ kept_ids g pair maxDistance (items commons) -> is_Some (commons !! t))
      as Hin.
    { intros t Ht%kept_ids_common. apply list_elem_of_fmap in Ht as ([k track] & -> & Hk).
      apply elem_of_items in Hk. eauto. }
    assert (StronglySorted N.lt (kept_ids g pair maxDistance (items commons))) as Hs
      by apply kept_ids_sorted, items_keys_increasing.
    split; [exact Hs|]. split; [exact Hin|].
    intros Hsmall. rewrite wrap_IndexT_small_ids; [auto|].
    apply Forall_forall. intros t Ht. now apply Hsmall, Hin.
  - intros t track Ht. apply (Hall (t, track)). now apply elem_of_items.
Qed.

End UsedTracks.

(** ** aliceVision_main of SfM bootstraping: the choice of the pair *)

Section SelectionFacts.
Context `{!Numerics, !Camera, !Multiview, !Tracks, !Math}.
Variables (sfmData : SfMData) (mapTracks : gmap N Track)
  (mapTracksPerView : gmap N (list N)).

Lemma best_of_not_negative (seen : list ReconstructedPair) (best : Best) :
  best_of sfmData mapTracks mapTracksPerView seen best -> (bestScore best <? 0)%float = false.
Proof.
  intros (_ & _ & Hb). destruct (bestPair best).
  - destruct Hb as (_ & _ & Hpos & _). now apply ltb_asym.
  - rewrite Hb. reflexivity.
Qed.

Lemma best_of_skip (seen : list ReconstructedPair) (best : Best) (pair : ReconstructedPair) :
  best_of sfmData mapTracks mapTracksPerView seen best ->
  (forall s, pair_score sfmData mapTracks mapTracksPerView pair = Some s ->
     (bestScore best <? s)%float = false) ->
  best_of sfmData mapTracks mapTracksPerView (seen ++ [pair]) best.
Proof.
  intros (Hn & Hmax & Hb) Hp. split; [exact Hn|]. split.
  - intros p s [Hp'|Hp']%elem_of_app; [now apply Hmax|].
    apply list_elem_of_singleton in Hp' as ->. apply Hp.
  - destruct (bestPair best); [|exact Hb].
    destruct Hb as (Hin & Hrest). split; [|exact Hrest]. apply elem_of_app. now left.
Qed.

Lemma select_step_best_of (seen : list ReconstructedPair) (best best' : Best)
    (pair : ReconstructedPair) :
  best_of sfmData mapTracks mapTracksPerView seen best ->
  select_step sfmData mapTracks mapTracksPerView best pair = Done best' ->
  best_of sfmData mapTracks mapTracksPerView (seen ++ [pair]) best'.
Proof.
  intros Hb. unfold select_step.
  destruct (estimatePairAngle sfmData pair mapTracks mapTracksPerView
              maxEpipolarDistance 0) as [|[] [angle|] used] eqn:E; try discriminate.
  - destruct (radianToDegree angle <? minAngle)%float eqn:Ha.
    + intros [= <-]. apply best_of_skip; [exact Hb|].
      unfold pair_score. rewrite E, Ha. discriminate.
    + destruct (computeScore mapTracks used (reference pair) 16) as [r| |] eqn:Er;
        try discriminate.
      destruct (computeScore mapTracks used (next pair) 16) as [n| |] eqn:En;
        try discriminate.
      cbn [mbind Run_bind].
      assert (pair_score sfmData mapTracks mapTracksPerView pair
              = Some (std_min r n * radianToDegree angle)%float) as Hs
        by (unfold pair_score; now rewrite E, Ha, Er, En).
      destruct (bestScore best <? std_min r n * radianToDegree angle)%float eqn:Hlt.
      * intros [= <-]. destruct (ltb_true_numbers _ _ Hlt) as [Hn1 Hn2].
        pose proof (best_of_not_negative _ _ Hb) as Hge.
        destruct Hb as (_ & Hmax & _). split; [exact Hn2|]. split.
        -- cbn [bestScore]. intros p s [Hp|Hp]%elem_of_app Hps.
           ++ apply (ltb_not_after_trans s (bestScore best)); [exact Hn1| |].
              ** now apply Hmax with p.
              ** now apply ltb_asym.
           ++ apply list_elem_of_singleton in Hp as ->. rewrite Hs in Hps.
              injection Hps as <-. apply ltb_irrefl.
        -- cbn [bestPair bestScore bestUsedTracks]. split; [|split; [exact Hs|split]].
           ++ apply elem_of_app. right. now apply list_elem_of_singleton.
           ++ apply (ltb_le_lt_trans 0 (bestScore best)); [reflexivity|exact Hge|exact Hlt].
           ++ now exists angle.
      * intros [= <-]. apply best_of_skip; [exact Hb|].
        intros s. rewrite Hs. now intros [= <-].
  - intros [= <-]. apply best_of_skip; [exact Hb|]. unfold pair_score. rewrite E. discriminate.
  - intros [= <-]. apply best_of_skip; [exact Hb|]. unfold pair_score. rewrite E. discriminate.
Qed.

Lemma select_loop_best_of (pairs seen : list ReconstructedPair) (best best' : Best) :
  best_of sfmData mapTracks mapTracksPerView seen best ->
  foldM (select_step sfmData mapTracks mapTracksPerView) best pairs = Done best' ->
  best_of sfmData mapTracks mapTracksPerView (seen ++ pairs) best'.
Proof.
  revert seen best. induction pairs as [|pair pairs IH]; intros seen best Hb Hd.
  - injection Hd as <-. now rewrite app_nil_r.
  - apply foldM_cons_Done in Hd as (b1 & Hstep & Hd).
    replace (seen ++ pair :: pairs) with ((seen ++ [pair]) ++ pairs)
      by now rewrite <- app_assoc.
    apply (IH _ b1); [|exact Hd]. now apply select_step_best_of with best.
Qed.

Lemma select_pair_best_of (pairs : list ReconstructedPair) (best : Best) :
  select_pair sfmData mapTracks mapTracksPerView pairs = Done best -> best_of sfmData mapTracks mapTracksPerView pairs best.
Proof.
  intros Hd. apply (select_loop_best_of pairs [] no_best); [|exact Hd].
  split; [reflexivity|]. split; [|reflexivity].
  intros p s Hp. now apply elem_of_nil in Hp.
Qed.

(** When the loop over the reconstructed pairs ends normally, no pair of
    the list for which a score is computed has a score above [bestScore].
    Either no pair was chosen, [bestScore] is still 0 and [bestUsedTracks] is
    empty, or the chosen pair is a pair of the list, [bestScore] is its
    score, which is above 0 (so not NaN), and [bestUsedTracks] are the used
    tracks [estimatePairAngle] gives for it. *)
Theorem select_pair_takes_the_best_score (reconstructedPairs : list ReconstructedPair)
    (best : Best) :
  select_pair sfmData mapTracks mapTracksPerView reconstructedPairs = Done best ->
  (forall pair s, pair ∈ reconstructedPairs ->
     pair_score sfmData mapTracks mapTracksPerView pair = Some s ->
     (bestScore best <? s)%float = false) /\
  match bestPair best with
  | None => bestScore best = 0%float /\ bestUsedTracks best = []
  | Some chosen =>
      chosen ∈ reconstructedPairs /\
      pair_score sfmData mapTracks mapTracksPerView chosen = Some (bestScore best) /\
      (0 <? bestScore best)%float = true /\
      exists angle,
        estimatePairAngle sfmData chosen mapTracks mapTracksPerView maxEpipolarDistance 0
          = Returned true (Some angle) (bestUsedTracks best)
  end.
Proof.
  intros (_ & Hmax & Hb)%select_pair_best_of. split; [exact Hmax|].
  destruct (bestPair best); [exact Hb|]. rewrite Hb. split; reflexivity.
Qed.

(** A pair the loop chooses has at least two used tracks: with fewer, both
    scores are [+0], their product with the angle is a zero or NaN, and the
    test [score > bestScore] fails. *)
Theorem selected_pair_has_two_used_tracks (reconstructedPairs : list ReconstructedPair)
    (best : Best) (pair : ReconstructedPair) :
  select_pair sfmData mapTracks mapTracksPerView reconstructedPairs = Done best ->
  bestPair best = Some pair ->
  (2 <= length (bestUsedTracks best))%nat.
Proof.
  intros Hd Hp. pose proof (select_pair_best_of _ _ Hd) as Hb.
  destruct Hb as (_ & _ & Hb). rewrite Hp in Hb.
  destruct Hb as (_ & Hs & Hpos & angle & E).
  destruct (Nat.le_gt_cases 2 (length (bestUsedTracks best))) as [|Hlt]; [assumption|].
  exfalso. unfold pair_score in Hs. rewrite E in Hs.
  destruct (radianToDegree angle <? minAngle)%float; [discriminate|].
  destruct (computeScore mapTracks (bestUsedTracks best) (reference pair) 16)
    as [r| |] eqn:Er; try discriminate.
  destruct (computeScore mapTracks (bestUsedTracks best) (next pair) 16)
    as [n| |] eqn:En; try discriminate.
  apply score_of_one_track in Er; [|lia]. apply score_of_one_track in En; [|lia].
  subst r n. injection Hs as Hs. rewrite <- Hs in Hpos.
  change (std_min 0 0) with 0%float in Hpos.
  rewrite (ltb_zero_mul 0 (radianToDegree angle)) in Hpos by reflexivity. discriminate.
Qed.

(** When the loop reaches a pair for which [estimatePairAngle] returns true
    without any used track (the two views have pinhole intrinsics and no
    common track passes the tests), the angle it compares was read past the
    end of [angles]: the behaviour of the loop is undefined, whatever the
    pairs before and after. *)
Theorem select_pair_undefined_without_used_track
    (before after : list ReconstructedPair) (pair : ReconstructedPair) (best : Best)
    (angle : option double) :
  select_pair sfmData mapTracks mapTracksPerView before = Done best ->
  estimatePairAngle sfmData pair mapTracks mapTracksPerView maxEpipolarDistance 0
    = Returned true angle [] ->
  select_pair sfmData mapTracks mapTracksPerView (before ++ pair :: after) = Undefined.
Proof.
  unfold select_pair. intros Hd E. rewrite foldM_app, Hd. cbn [mbind Run_bind foldM].
  assert (select_step sfmData mapTracks mapTracksPerView best pair = Undefined) as ->;
    [|reflexivity].
  unfold select_step. rewrite E.
  destruct (estimate_true _ _ _ _ _ _ _ _ E) as (g & angles & _ & _ & Hlen & ->).
  destruct angles; [|discriminate]. reflexivity.
Qed.

End SelectionFacts.

(** ** Concrete runs *)

Lemma make_wf_default : Histogram.wf (Histogram.make 0 1 10).
Proof. split; [reflexivity|]. split; discriminate. Qed.

(** C10, a run: a value in range of the histogram [0, 1] with 10 bins. *)
Lemma Add_increments_exactly_one_witness :
  exists h' v,
    Histogram.Add (Histogram.make 0 1 10) 0.375 = Some h' /\
    Histogram.read (Histogram.Bin 3) (Histogram.make 0 1 10) = Some v /\
    Histogram.read (Histogram.Bin 3) h' = Some (wrap_size_t (v + 1)) /\
    (forall c', c' <> Histogram.Bin 3 ->
       Histogram.read c' h' = Histogram.read c' (Histogram.make 0 1 10)) /\
    (3 < N.to_nat 10)%nat /\
    Histogram.wf h' /\
    (v < SIZE_MAX -> Histogram.total h' = Histogram.total (Histogram.make 0 1 10) + 1).
Proof.
  apply (HistogramFacts.Add_increments_exactly_one
           (Histogram.make 0 1 10) 0.375 (Histogram.Bin 3)).
  - exact make_wf_default.
  - vm_compute. reflexivity.
Defined.

(** C10 as stated fails: for the histogram [0, 1] with 10 bins and [x] NaN,
    neither [x < Start] nor [x > End] holds and the conversion of NaN to
    [size_t] is undefined, so no counter is incremented by a defined [Add]. *)
Lemma Add_nan_counterexample :
  Histogram.wf (Histogram.make 0 1 10) /\
  (0 <? 1)%float = true /\
  ~ exists h', Histogram.Add (Histogram.make 0 1 10) nan = Some h'.
Proof.
  split; [exact make_wf_default|]. split; [reflexivity|].
  intros [h' H]. vm_compute in H. discriminate.
Qed.



(** *** Histogram: the last value of the range *)

Example Add_End_goes_to_last_bin :
  Histogram.selected_counter (Histogram.make 0 10 10) 10 = Some (Histogram.Bin 9).
Proof. reflexivity. Qed.

(** The bin is chosen in double arithmetic: for the double nearest to 0.3,
    which is below 0.3, the exact product by 10 has integer part 2, and its
    rounding to a double is 3, the bin [Add] selects. *)
Example bin_follows_double_rounding :
  Prim2SF 0x1.3333333333333p-2 = S754_finite false 5404319552844595 (-54) /\
  (5404319552844595 * 10 / 2 ^ 54 = 2)%Z /\
  Histogram.selected_counter (Histogram.make 0 1 10) 0x1.3333333333333p-2 = Some (Histogram.Bin 3).
Proof. repeat split; vm_compute; reflexivity. Qed.

(** *** The sample image: three boards of 30 corners *)

Example sample_boards_sorted :
  @sort_boards Sample.numerics Sample.algorithm (getCorners Sample.detector)
    (image_center Sample.view7) (getBoards Sample.detector)
  = Some [Sample.board 5 6 0; Sample.board 5 6 30; Sample.board 5 6 60].
Proof. vm_compute. reflexivity. Qed.

Lemma sample_items : items Sample.image_boards = [(7, Sample.detector)].
Proof. vm_compute. reflexivity. Qed.

(** C4, a run: the three boards of the sample image. *)
Lemma boards_processed_nearest_first_witness :
  exists (order : list CheckerBoard) (least : CheckerBoard -> double),
    order ≡ₚ getBoards Sample.detector /\
    (forall b, b ∈ getBoards Sample.detector ->
       @mindist Sample.numerics (getCorners Sample.detector) (image_center Sample.view7) b
         = Some (least b)) /\
    (forall (i j : nat) (a b : CheckerBoard),
       order !! i = Some a -> order !! j = Some b ->
       (least a <? least b)%float = true -> (i < j)%nat).
Proof.
  destruct (@detection_checked Sample.numerics (getCorners Sample.detector)
              (image_center Sample.view7) (getBoards Sample.detector)
              ltac:(vm_compute; reflexivity)) as [Hreads Hnan].
  destruct (@boards_processed_nearest_first Sample.numerics Sample.camera Sample.accepting
              Sample.refinement Sample.algorithm Sample.scene Sample.image_boards
              0.125%float 1%float false 7 Sample.detector Sample.view7 Sample.pinhole
              sample_items ltac:(vm_compute; reflexivity) ltac:(vm_compute; reflexivity)
              ltac:(discriminate) Hreads Hnan)
    as (order & least & _ & Hperm & Hleast & Horder & _).
  exists order, least. split; [exact Hperm|]. split; [|exact Horder].
  intros b Hb. now destruct (Hleast b Hb).
Defined.

Lemma nan_items : items Sample.nan_boards = [(7, Sample.nan_detector)].
Proof. vm_compute. reflexivity. Qed.

(** C4 as stated fails.  In a 640 x 480 image the board [near_board] has a
    corner at (316, 236), nearer to the image center than every corner of
    [far_board], whose least distance is that of (330, 250).  The last but one
    corner of [near_board] has a NaN distance: [std::min(dist, mindist)]
    returns the NaN there, and the distance of the last corner, (340, 252),
    after it.  With this computed minimal distance every [std::sort] puts
    [far_board] first, and the loop over the boards runs on [far_board], then
    [near_board]. *)
Lemma nan_distance_counterexample :
  (forall alg : Algorithm,
     @sort_boards Sample.numerics alg (getCorners Sample.nan_detector)
       (image_center Sample.view7) (getBoards Sample.nan_detector)
     = Some [Sample.far_board; Sample.near_board] /\
     @process_innerGrids Sample.numerics Sample.camera Sample.accepting Sample.refinement
       alg Sample.scene Sample.nan_boards 0.125 1 false
     = @after_boards Sample.camera Sample.refinement 7 Sample.view7 0 Sample.pinhole 1 false
         (@boards_loop Sample.numerics Sample.camera Sample.accepting Sample.view7
            Sample.pinhole (getCorners Sample.nan_detector) false
            [Sample.far_board; Sample.near_board]
            (loop_start (set_poses ∅ (set_landmarks ∅ Sample.scene))))) /\
  image_center Sample.view7 = (320, 240)%float /\
  (exists m,
     @mindist Sample.numerics (getCorners Sample.nan_detector) (320, 240)%float
       Sample.far_board = Some m /\
     @least_distance Sample.numerics (getCorners Sample.nan_detector) (320, 240)%float
       Sample.far_board m /\
     exists ij c,
       ij ∈ defined_cells Sample.near_board /\
       corner_at (getCorners Sample.nan_detector) (cell Sample.near_board ij.1 ij.2)
         = Some c /\
       (@norm2 Sample.numerics (vec2_sub (corner_center c) (320, 240)%float) <? m)%float
         = true) /\
  (exists m,
     @mindist Sample.numerics (getCorners Sample.nan_detector) (320, 240)%float
       Sample.near_board = Some m /\
     corner_at (getCorners Sample.nan_detector) (cell Sample.near_board 4 5)
       = Some (mkCorner (340, 252)%float) /\
     m = @norm2 Sample.numerics (vec2_sub (340, 252)%float (320, 240)%float)).
Proof.
  assert (forall alg : Algorithm,
            @sort_boards Sample.numerics alg (getCorners Sample.nan_detector)
              (image_center Sample.view7) (getBoards Sample.nan_detector)
            = Some [Sample.far_board; Sample.near_board]) as Hsort.
  { intros alg. unfold sort_boards. cbn [length Nat.ltb Nat.leb getBoards Sample.nan_detector].
    rewrite decide_True by (apply (bool_decide_unpack _); vm_compute; exact I).
    rewrite decide_True by (apply (bool_decide_unpack _); vm_compute; exact I).
    f_equal. apply std_sort_two.
    - apply (bool_decide_unpack _). vm_compute. exact I.
    - vm_compute. reflexivity. }
  split; [|split; [vm_compute; reflexivity|split]].
  - intros alg. split; [apply Hsort|].
    rewrite (@process_innerGrids_from_sort Sample.numerics Sample.camera Sample.accepting
               Sample.refinement alg Sample.scene Sample.nan_boards 0.125%float 1%float
               false 7 Sample.nan_detector Sample.view7 Sample.pinhole nan_items
               ltac:(vm_compute; reflexivity) ltac:(vm_compute; reflexivity)
               ltac:(discriminate)).
    now rewrite Hsort.
  - destruct (@detection_checked Sample.numerics (getCorners Sample.nan_detector)
                (320, 240)%float [Sample.far_board] ltac:(vm_compute; reflexivity))
      as [Hreads Hnan].
    destruct (@mindist_least Sample.numerics (getCorners Sample.nan_detector)
                (320, 240)%float Sample.far_board (Hreads _ ltac:(left))
                (fun ij c => Hnan _ ij c ltac:(left)))
      as (m & Hm & _ & Hleast).
    exists m. split; [exact Hm|]. split; [exact Hleast|].
    exists (2, 2)%nat. eexists. split; [|split; [vm_compute; reflexivity|]].
    + apply list_elem_of_In. vm_compute. tauto.
    + vm_compute in Hm. injection Hm as <-. vm_compute. reflexivity.
  - eexists. split; [vm_compute; reflexivity|]. split; vm_compute; reflexivity.
Qed.

(** C3, a run: the state after the three boards of the sample image. *)
Lemma square_size_doubles_twice_witness :
  let pre := getBoards Sample.detector in
  idx_checkerboard_valid (Sample.state_after pre) = N.of_nat (length (List.filter accepted pre)) /\
  localSquareSize (Sample.state_after pre) = size_after (length (List.filter accepted pre)) /\
  size_after 0 = 0.25%float /\ size_after 1 = 0.5%float /\
  (forall n, (2 <= n)%nat -> size_after n = 1%float).
Proof.
  apply (@square_size_doubles_twice Sample.numerics Sample.camera Sample.accepting
           Sample.view7 Sample.pinhole (getCorners Sample.detector) false Sample.scene).
  - vm_compute. reflexivity.
  - vm_compute. reflexivity.
Defined.

(** C3 as stated fails: the second accepted board does not get the size of the
    first.  After one accepted board of the sample image the acceptance index
    is 1 and the square size is 0.5, twice the 0.25 applied to the first board;
    after two it is 1 (four times, not twice), and after three it is still 1. *)
Lemma second_board_size_counterexample :
  localSquareSize (loop_start Sample.scene) = 0.25%float /\
  idx_checkerboard_valid (Sample.state_after [Sample.board 5 6 0]) = 1 /\
  localSquareSize (Sample.state_after [Sample.board 5 6 0]) = 0.5%float /\
  localSquareSize (Sample.state_after [Sample.board 5 6 0])
    <> localSquareSize (loop_start Sample.scene) /\
  idx_checkerboard_valid (Sample.state_after [Sample.board 5 6 0; Sample.board 5 6 30]) = 2 /\
  localSquareSize (Sample.state_after [Sample.board 5 6 0; Sample.board 5 6 30]) = 1%float /\
  idx_checkerboard_valid
    (Sample.state_after [Sample.board 5 6 0; Sample.board 5 6 30; Sample.board 5 6 60]) = 3 /\
  localSquareSize
    (Sample.state_after [Sample.board 5 6 0; Sample.board 5 6 30; Sample.board 5 6 60])
    = 1%float.
Proof.
  repeat split; try (vm_compute; reflexivity).
  intros E. apply (f_equal Prim2SF) in E. vm_compute in E. discriminate.
Qed.

(** A run: the pose under index 0 after a skipped board and the three boards
    of the sample image in sorted order is the one estimated for the first
    accepted board. *)
Lemma first_accepted_board_pose_witness :
  is_Some (@estimated_pose Sample.numerics Sample.camera Sample.accepting Sample.pinhole
             (getCorners Sample.detector) false (loop_start Sample.scene)
             (Sample.board 5 6 0)) /\
  poses (scene (Sample.state_after
                  ([Sample.sparse_board] ++
                   Sample.board 5 6 0 :: [Sample.board 5 6 30; Sample.board 5 6 60])))
    !! 0
  = @estimated_pose Sample.numerics Sample.camera Sample.accepting Sample.pinhole
      (getCorners Sample.detector) false (loop_start Sample.scene)
      (Sample.board 5 6 0).
Proof.
  apply (@first_accepted_board_pose_at_0 Sample.numerics Sample.camera Sample.accepting
           Sample.view7 Sample.pinhole (getCorners Sample.detector) false Sample.scene
           [Sample.sparse_board] [Sample.board 5 6 30; Sample.board 5 6 60]
           (Sample.board 5 6 0)).
  - constructor; [vm_compute; reflexivity|constructor].
  - vm_compute. reflexivity.
  - vm_compute. reflexivity.
  - vm_compute. reflexivity.
Defined.

(** A run: [Add] is defined on the default histogram for a value in range. *)
Lemma Add_defined_witness :
  is_Some (Histogram.Add (Histogram.make 0 1 10) 0.375)
  <-> is_Some (Histogram.selected_counter (Histogram.make 0 1 10) 0.375).
Proof. exact (HistogramFacts.Add_defined_iff _ 0.375%float make_wf_default). Defined.


(** A board with a corner id past the end of the corner list: the read in the
    second loop over the cells is undefined. *)
Example dangling_corner_id_is_undefined :
  @board_step Sample.numerics Sample.camera Sample.accepting Sample.view7 Sample.pinhole
    (getCorners Sample.detector) false (loop_start Sample.scene) (Sample.board 5 6 1000)
  = UndefinedRead.
Proof. vm_compute. reflexivity. Qed.

(** C5, a run: the sample image with an estimator that keeps no point; two
    views with such an estimator, and with one that keeps every point; and
    two views whose intrinsic is not a pinhole. *)
Lemma too_few_inliers_witness :
  (exists s,
     @process_innerGrids Sample.numerics Sample.camera Sample.rejecting Sample.refinement
       Sample.algorithm Sample.scene Sample.image_boards 0.125 1 false = Some (false, s)) /\
  (exists g,
     @gather_homographies Sample.camera Sample.rejecting Sample.pinhole Sample.two_views
       Sample.two_detections 0.125 0 = Some g /\
     homographies g !! 7 = None) /\
  (exists g,
     @gather_homographies Sample.camera Sample.accepting Sample.pinhole Sample.two_views
       Sample.two_detections 0.125 0 = Some g /\
     homographies g !! 7 = Some Identity3) /\
  (exists st intrinsicId,
     @intrinsic_step Sample.numerics Sample.camera Sample.rejecting Sample.refinement
       Sample.two_detections 0.125 st intrinsicId
     = BasicReturnFalse Sample.two_views_other).
Proof.
  split; [|split; [|split]].
  - destruct (@board_points Sample.camera Sample.pinhole (getCorners Sample.detector) false
                (loop_start (set_poses ∅ (set_landmarks ∅ Sample.scene)))
                (Sample.board 5 6 0)) as [[[lms refpts] points]|] eqn:Hp;
      [|vm_compute in Hp; discriminate Hp].
    eexists.
    apply (proj1 (@too_few_inliers_fails_single_image_and_skips_in_multi_view
                    Sample.numerics Sample.camera Sample.rejecting Sample.refinement
                    Sample.algorithm)
             Sample.scene Sample.image_boards 0.125%float 1%float false
             7 Sample.detector Sample.view7 Sample.pinhole
             [] (Sample.board 5 6 0) [Sample.board 5 6 30; Sample.board 5 6 60]
             (loop_start (set_poses ∅ (set_landmarks ∅ Sample.scene)))
             lms refpts points).
    + exact sample_items.
    + vm_compute. reflexivity.
    + vm_compute. reflexivity.
    + vm_compute. reflexivity.
    + reflexivity.
    + vm_compute. discriminate.
    + exact Hp.
    + simpl. lia.
  - destruct (@gather_homographies Sample.camera Sample.rejecting Sample.pinhole
                Sample.two_views Sample.two_detections 0.125 0) as [g|] eqn:Hg;
      [|vm_compute in Hg; discriminate Hg].
    exists g. split; [reflexivity|].
    apply (proj1 (proj2 (@too_few_inliers_fails_single_image_and_skips_in_multi_view
                           Sample.numerics Sample.camera Sample.rejecting Sample.refinement
                           Sample.algorithm))
             Sample.pinhole Sample.two_views Sample.two_detections 0.125%float 0
             7 Sample.view7 [] Identity3 g);
      [vm_compute; reflexivity|vm_compute; reflexivity|vm_compute; reflexivity|exact Hg].
  - destruct (@gather_homographies Sample.camera Sample.accepting Sample.pinhole
                Sample.two_views Sample.two_detections 0.125 0) as [g|] eqn:Hg;
      [|vm_compute in Hg; discriminate Hg].
    exists g. split; [reflexivity|].
    apply (proj1 (proj2 (@too_few_inliers_fails_single_image_and_skips_in_multi_view
                           Sample.numerics Sample.camera Sample.accepting Sample.refinement
                           Sample.algorithm))
             Sample.pinhole Sample.two_views Sample.two_detections 0.125%float 0
             7 Sample.view7 (seq 0 30) Identity3 g);
      [vm_compute; reflexivity|vm_compute; reflexivity|vm_compute; reflexivity|exact Hg].
  - destruct (proj2 (proj2 (@too_few_inliers_fails_single_image_and_skips_in_multi_view
                              Sample.numerics Sample.camera Sample.rejecting
                              Sample.refinement Sample.algorithm))
                Sample.two_views_other Sample.two_detections 0.125%float
                Sample.two_views_other ltac:(vm_compute; reflexivity))
      as (st & intrinsicId & _ & Hs & _).
    exists st, intrinsicId. exact Hs.
Defined.

(** Two views whose homography fits have no inlier: both views are skipped and
    [process_basic] returns true. *)
Example multi_view_run_without_inliers_returns_true :
  exists s,
    @process_basic Sample.numerics Sample.camera Sample.rejecting Sample.refinement
      Sample.two_views Sample.two_detections 0.125 = Some (true, s).
Proof. eexists. vm_compute. reflexivity. Qed.



(** C8, a run: the sample camera, whose two scales are equal. *)
Lemma equalize_vertical_scale_witness :
  Pinhole.scale (@equalize_vertical_scale Sample.camera Sample.pinhole Sample.one_landmark).1
  = Pinhole.scale Sample.pinhole.
Proof.
  apply (proj1 (proj2 (@equalize_vertical_scale_idempotent_on_scale Sample.camera
                         Sample.pinhole Sample.one_landmark))).
  reflexivity.
Defined.

(** C8 as stated fails: the sample camera has equal scales (1000, 1000) and its
    principal point is at y = 240; an observation at y = 0.1 is rewritten to
    [(0.1 - 240) / 1000 * 1000 + 240], which is 0.099999999999994316 in double
    arithmetic.  (With both scales 0 the rewritten coordinate is NaN.) *)
Lemma observation_y_changes_counterexample :
  snd (Pinhole.scale Sample.pinhole) = fst (Pinhole.scale Sample.pinhole) /\
  (exists l o,
     (@equalize_vertical_scale Sample.camera Sample.pinhole Sample.one_landmark).2 !! 0
       = Some l /\
     observations l !! 0 = Some o /\
     snd (obs_x o) = 0x1.99999999998p-4%float /\
     snd (obs_x o) <> 0x1.999999999999ap-4%float) /\
  PrimFloat.is_nan
    (snd (obs_x (@equalize_observation Sample.camera Sample.pinhole (0, 0)%float
                   (mkObservation (100, 0x1.999999999999ap-4)%float 0 1)))) = true.
Proof.
  split; [reflexivity|]. split; [|vm_compute; reflexivity].
  eexists. eexists. split; [vm_compute; reflexivity|].
  split; [vm_compute; reflexivity|]. split; [vm_compute; reflexivity|].
  intros E. apply (f_equal Prim2SF) in E. vm_compute in E. discriminate.
Qed.

(** C1, a run: one detection set only. *)
Lemma process_basic_too_few_views_witness :
  @process_basic Sample.numerics Sample.camera Sample.accepting Sample.refinement
    Sample.scene Sample.image_boards 0.125 = Some (true, Sample.scene).
Proof.
  apply (@process_basic_too_few_views_returns_true Sample.numerics Sample.camera
           Sample.accepting Sample.refinement Sample.scene Sample.image_boards 0.125%float).
  vm_compute. lia.
Defined.

(** C2 as stated fails.  For [B = diag(0, 0, 1)] (its vector
    [n = (0, 0, 0, 0, 0, 1)] is in the null space of [V] whenever every
    homography is affine) B(0,0)*B(1,1) - B(0,1)^2 is 0 and the matrix [A] has
    NaN entries; for [B = diag(1, -1, 1)] it is -1 and [beta] is NaN.
    [solve_intrinsic] stores the matrix in the intrinsic without reporting
    anything. *)
Lemma zhang_degenerate_counterexample :
  (let B := zhang_B (0, 0, 0, 0, 0, 1)%float in
   (mat3_at B 0 0 * mat3_at B 1 1 - mat3_at B 0 1 * mat3_at B 0 1 <=? 0)%float = true /\
   mat3_has_nan (zhang_A B) = true) /\
  (let B := zhang_B (1, 0, -1, 0, 0, 1)%float in
   (mat3_at B 0 0 * mat3_at B 1 1 - mat3_at B 0 1 * mat3_at B 0 1 <=? 0)%float = true /\
   PrimFloat.is_nan (mat3_at (zhang_A B) 1 1) = true) /\
  (let '(A, p, s) :=
     @solve_intrinsic Sample.numerics 0 Sample.pinhole ∅ Sample.two_views in
   mat3_has_nan (Pinhole.K p) = true /\ pinhole_at s 0 = Some p).
Proof. vm_compute. auto. Qed.

(** C2, a run: the first intrinsic of two views, with the stand-in SVD that
    returns (0, 0, 0, 0, 0, 1): the refinement is called on a scene whose
    intrinsic holds a matrix with NaN entries. *)
Lemma zhang_matrix_is_always_written_witness :
  exists s_in ok s_out,
    (exists p, pinhole_at s_in 0 = Some p /\ mat3_has_nan (Pinhole.K p) = true) /\
    @adjust Sample.refinement None basic_boptions s_in = (ok, s_out).
Proof.
  pose proof (proj2 (@zhang_matrix_is_always_written Sample.numerics Sample.camera
                       Sample.accepting Sample.refinement Sample.two_detections
                       0.125%float (mkBasic Sample.two_views [] 0 0 true) 0
                       Sample.pinhole) eq_refl) as Hm.
  destruct (gather_homographies _ _ _ _ _) as [g|] eqn:Hg in Hm;
    [|vm_compute in Hg; discriminate Hg].
  destruct Hm as [(Hf & _)|(s_in & ok & s_out & st' & Hp & Ha & _)].
  - discriminate Hf.
  - exists s_in, ok, s_out. split; [|exact Ha].
    eexists. split; [exact Hp|]. vm_compute. reflexivity.
Defined.

Lemma one_track_items :
  items (@getCommonTracksInImagesFast Sample.tracks [7; 8] Sample.one_track ∅)
  = [(3, mkTrack {[7 := mkTrackItem 0 (320, 240)%float;
                   8 := mkTrackItem 0 (330, 240)%float]})].
Proof. vm_compute. reflexivity. Qed.

(** C9, two runs: two views and one common track, which is kept, and the same
    views without any track. *)
Lemma median_angle_witness :
  (exists resultAngle,
     @estimatePairAngle Sample.numerics Sample.camera Sample.accepting Sample.tracks
       Sample.two_views Sample.pair78 Sample.one_track ∅ 4 0
       = Returned true resultAngle [3] /\
     is_Some resultAngle) /\
  @estimatePairAngle Sample.numerics Sample.camera Sample.accepting Sample.tracks
    Sample.two_views Sample.pair78 ∅ ∅ 4 0 = Returned true None [].
Proof.
  split.
  - destruct (@median_angle_defined_iff_some_track_kept Sample.numerics Sample.camera
                Sample.accepting Sample.tracks Sample.two_views Sample.pair78
                Sample.one_track ∅ 4%float 0%float Sample.view7 (View.mk 8 8 0 640 480)
                Sample.pinhole Sample.pinhole
                ltac:(vm_compute; reflexivity) ltac:(vm_compute; reflexivity)
                ltac:(vm_compute; reflexivity) ltac:(vm_compute; reflexivity))
      as (resultAngle & Hr & _ & Hsome & _).
    + intros commonItem Hc. change (reference Sample.pair78) with 7 in *.
      change (next Sample.pair78) with 8 in *. rewrite one_track_items in Hc.
      apply list_elem_of_singleton in Hc as ->. split; vm_compute; eauto.
    + exists resultAngle. split; [exact Hr|]. apply Hsome. vm_compute. discriminate.
  - destruct (@median_angle_defined_iff_some_track_kept Sample.numerics Sample.camera
                Sample.accepting Sample.tracks Sample.two_views Sample.pair78
                ∅ ∅ 4%float 0%float Sample.view7 (View.mk 8 8 0 640 480)
                Sample.pinhole Sample.pinhole
                ltac:(vm_compute; reflexivity) ltac:(vm_compute; reflexivity)
                ltac:(vm_compute; reflexivity) ltac:(vm_compute; reflexivity))
      as (resultAngle & Hr & Hnone & _).
    + intros commonItem Hc. vm_compute in Hc. now apply elem_of_nil in Hc.
    + rewrite Hr. f_equal. now apply Hnone.
Defined.

(** C9 as stated fails: for a pair without translation the fundamental matrix
    is zero, the epipolar line cannot be normalized and the distance of the
    track is a NaN.  [distance <= maxDistance] is false, so that no common
    track passes the two tests as the specification words them; but
    [distance > maxDistance] is false too: the track is kept, [usedTracks] is
    not empty and the median angle is read within [angles]. *)
Lemma nan_distance_track_counterexample :
  let g := @pair_geometry Sample.numerics Sample.accepting Sample.pinhole Sample.pinhole
             Sample.pair_rotation in
  (forall commonItem refItem nextItem,
     commonItem ∈ items (@getCommonTracksInImagesFast Sample.tracks [7; 8]
                           Sample.one_track ∅) ->
     featPerView commonItem.2 !! 7 = Some refItem ->
     featPerView commonItem.2 !! 8 = Some nextItem ->
     PrimFloat.is_nan (@epipolar_distance Sample.numerics Sample.camera g refItem nextItem)
       = true /\
     @passes_filters Sample.numerics Sample.camera Sample.accepting g 4 refItem nextItem
       = false /\
     @kept Sample.numerics Sample.camera Sample.accepting g 4 refItem nextItem = true) /\
  exists angle,
    @estimatePairAngle Sample.numerics Sample.camera Sample.accepting Sample.tracks
      Sample.two_views Sample.pair_rotation Sample.one_track ∅ 4 0
    = Returned true (Some angle) [3].
Proof.
  split.
  - intros commonItem refItem nextItem Hc. rewrite one_track_items in Hc.
    apply list_elem_of_singleton in Hc as ->. simpl.
    intros Hr Hn. vm_compute in Hr, Hn. injection Hr as <-. injection Hn as <-.
    repeat split; vm_compute; reflexivity.
  - eexists. vm_compute. reflexivity.
Qed.

(** *** Histogram: sequences, boundaries and accessors *)

(** A run: two orders of the same three values. *)
Lemma Add_range_order_independent_witness :
  Histogram.Add_range (Histogram.make 0 1 10) [0.375; 2; -1]%float =
  Histogram.Add_range (Histogram.make 0 1 10) [2; 0.375; -1]%float.
Proof. apply HistogramRange.Add_range_order_independent. apply Permutation_swap. Defined.

(** A run: four values on the histogram [0, 1] with 10 bins, two of them in
    bin 3. *)
Lemma Add_range_counts_witness :
  exists h',
    Histogram.Add_range (Histogram.make 0 1 10) [0.375; 2; -1; 0.375]%float = Some h' /\
    Histogram.read (Histogram.Bin 3) h' =
      Some (wrap_size_t (0 + N.of_nat (Histogram.hits (Histogram.make 0 1 10) (Histogram.Bin 3)
                                         [0.375; 2; -1; 0.375]%float))) /\
    Histogram.hits (Histogram.make 0 1 10) (Histogram.Bin 3) [0.375; 2; -1; 0.375]%float = 2%nat /\
    Histogram.total h' = 4.
Proof.
  destruct (HistogramRange.Add_range_counts (Histogram.make 0 1 10)
              [0.375; 2; -1; 0.375]%float make_wf_default) as [Hd Hc].
  destruct (proj2 Hd) as [h' Hh'].
  { repeat constructor; vm_compute; eauto. }
  exists h'. split; [exact Hh'|].
  destruct (Hc h' Hh') as (_ & _ & _ & _ & Hread & Htotal).
  split; [|split].
  - apply Hread; [reflexivity|vm_compute; reflexivity].
  - vm_compute. reflexivity.
  - rewrite Htotal; [reflexivity|vm_compute; discriminate].
Defined.

(** A run: the histogram with a single bin over [0, 1]. *)
Lemma GetXbinsValue_single_bin_witness :
  exists v, Histogram.GetXbinsValue (Histogram.make 0 1 1) = [v] /\ PrimFloat.is_nan v = true.
Proof.
  apply (proj2 (HistogramRange.GetXbinsValue_single_bin_is_nan (Histogram.make 0 1 1))).
  reflexivity.
Defined.

Lemma make_wf_degenerate : Histogram.wf (Histogram.make 1 1 10).
Proof. split; [reflexivity|]. split; discriminate. Qed.

(** A run: [Add(Start)] on the histogram [0, 1] with 10 bins, and on the
    histogram whose range is the single point 1. *)
Lemma Add_Start_witness :
  (exists h' v,
     Histogram.Add (Histogram.make 0 1 10) 0 = Some h' /\
     Histogram.read (Histogram.Bin 0) (Histogram.make 0 1 10) = Some v /\
     Histogram.read (Histogram.Bin 0) h' = Some (wrap_size_t (v + 1)) /\
     forall c, c <> Histogram.Bin 0 ->
       Histogram.read c h' = Histogram.read c (Histogram.make 0 1 10)) /\
  Histogram.Add (Histogram.make 1 1 10) 1 = None.
Proof.
  split.
  - apply (proj1 (HistogramRange.Add_Start_goes_to_first_bin (Histogram.make 0 1 10)
                    make_wf_default eq_refl eq_refl)).
    reflexivity.
  - apply (proj2 (HistogramRange.Add_Start_goes_to_first_bin (Histogram.make 1 1 10)
                    make_wf_degenerate eq_refl eq_refl)).
    reflexivity.
Defined.

(** A run: a histogram whose bins hold 3, 0 and 4. *)
Lemma GetTotalCount_witness :
  Histogram.GetTotalCount (Histogram.mk 0 1 3 3 [3; 0; 4] 5 6) = Some 7.
Proof.
  apply (proj1 (HistogramRange.GetTotalCount_exact_below_2_53
                  (Histogram.mk 0 1 3 3 [3; 0; 4] 5 6) ltac:(vm_compute; reflexivity))).
Defined.

(** Above [2^53] the sum in [double] is no longer exact: with the bins
    [2^53] and 1 the total returned is [2^53]. *)
Example GetTotalCount_rounds_above_2_53 :
  Histogram.GetTotalCount (Histogram.mk 0 1 2 2 [2 ^ 53; 1] 0 0) = Some (2 ^ 53) /\
  foldr N.add 0 [2 ^ 53; 1] = 2 ^ 53 + 1.
Proof. split; vm_compute; reflexivity. Qed.

(** A run: the histogram of five values over [0, 1] with 10 bins. *)
Lemma make_then_Add_range_witness :
  exists h',
    Histogram.Add_range (Histogram.make 0 1 10) [0.375; 2; -1; 0.375; 1]%float = Some h' /\
    Histogram.GetUnderflow h' = 1 /\ Histogram.GetOverflow h' = 1 /\
    Histogram.GetHist h' = [0; 0; 0; 2; 0; 0; 0; 0; 0; 1] /\
    Histogram.GetTotalCount h' = Some 3.
Proof.
  eexists. split; [vm_compute; reflexivity|].
  match goal with |- Histogram.GetUnderflow ?h = _ /\ _ =>
    pose proof (HistogramRange.make_then_Add_range 0 1 10 [0.375; 2; -1; 0.375; 1]%float h
                  ltac:(split; discriminate) ltac:(vm_compute; reflexivity)
                  ltac:(vm_compute; reflexivity)) as (Hu & Ho & _ & _ & Ht)
  end.
  split; [exact Hu|]. split; [exact Ho|]. split; [reflexivity|].
  apply Ht. vm_compute. reflexivity.
Defined.

(** *** The calibration functions *)

(** A run: the three boards of the sample image are accepted. *)
Lemma boards_loop_numbers_views_and_poses_witness :
  let st := Sample.state_after (getBoards Sample.detector) in
  idx_checkerboard_valid st = 3 /\
  intrinsics (scene st) = intrinsics Sample.scene /\
  (forall i, is_Some (poses (scene st) !! i) <-> i < 3) /\
  (forall i, i < 3 ->
     views (scene st) !! i = Some (View.setPoseId i (View.setViewId i Sample.view7))) /\
  (forall i, 3 <= i -> views (scene st) !! i = views Sample.scene !! i).
Proof.
  apply (@boards_loop_numbers_views_and_poses Sample.numerics Sample.camera Sample.accepting
           Sample.view7 Sample.pinhole (getCorners Sample.detector) false Sample.scene
           (getBoards Sample.detector)).
  - reflexivity.
  - vm_compute. reflexivity.
  - vm_compute. reflexivity.
Defined.

Lemma sparse_board_reads : reads_defined (getCorners Sample.detector) Sample.sparse_board.
Proof.
  apply (proj1 (@detection_checked Sample.numerics (getCorners Sample.detector)
                  (image_center Sample.view7) [Sample.sparse_board]
                  ltac:(vm_compute; reflexivity))).
  left.
Qed.

(** A run: the board with 29 defined corners, from the start of the loop. *)
Lemma board_points_witness :
  exists lms' refpts points,
    @board_points Sample.camera Sample.pinhole (getCorners Sample.detector) false
      (loop_start Sample.scene) Sample.sparse_board = Some (lms', refpts, points) /\
    count_points Sample.sparse_board = 29 /\
    length refpts = 29%nat /\ length points = 29%nat /\ size lms' = 29%nat.
Proof.
  destruct (@board_points_one_landmark_per_corner Sample.camera Sample.pinhole
              (getCorners Sample.detector) false (loop_start Sample.scene) Sample.sparse_board
              dense_empty ltac:(vm_compute; reflexivity) sparse_board_reads)
    as (lms' & refpts & points & Hp & Hc & Hr & Hpt & _ & Hs & _).
  exists lms', refpts, points. split; [exact Hp|]. split; [exact Hc|].
  split; [exact Hr|]. split; [exact Hpt|]. exact Hs.
Defined.

(** A run: the three boards of the sample image give 90 landmarks. *)
Lemma boards_loop_landmarks_witness :
  size (landmarks (scene (Sample.state_after (getBoards Sample.detector)))) = 90%nat /\
  (forall k, is_Some (landmarks (scene (Sample.state_after (getBoards Sample.detector))) !! k)
             <-> k < 90).
Proof.
  destruct (@boards_loop_landmarks Sample.numerics Sample.camera Sample.accepting
              Sample.view7 Sample.pinhole (getCorners Sample.detector) false Sample.scene
              (getBoards Sample.detector) (Sample.state_after (getBoards Sample.detector))
              eq_refl ltac:(vm_compute; reflexivity) ltac:(vm_compute; reflexivity)
              ltac:(vm_compute; reflexivity))
    as (Hs & Hd & _).
  split; [exact Hs|exact Hd].
Defined.

(** A run: the landmarks of a board of 5 rows and 6 columns. *)
Lemma create_landmarks_grid_witness :
  cell (create_landmarks 0.125 5 6 ∅).1 1 2 = 8 /\
  (create_landmarks 0.125 5 6 ∅).2 !! 8 = Some (mkLandmark (0.25, 0.125, 0)%float SIFT ∅).
Proof.
  apply (proj1 (proj2 (create_landmarks_grid 0.125 5 6 ∅ ltac:(vm_compute; discriminate)))
           1%nat 2%nat); reflexivity.
Defined.

Lemma two_views_gathered :
  @gather_homographies Sample.camera Sample.accepting Sample.pinhole Sample.two_views
    Sample.two_detections 0.125 0
  = Some (mkGathered 6 5 {[7 := Identity3; 8 := Identity3]}).
Proof. vm_compute. reflexivity. Qed.

(** A run: the two sample views, whose fits keep every point. *)
Lemma homographies_of_the_views_that_fit_witness :
  ({[7 := Identity3; 8 := Identity3]} : gmap N Mat3) !! 7 = Some Identity3 <->
  exists view vec_inliers,
    views Sample.two_views !! 7 = Some view /\ View.intrinsicId view = 0 /\
    @view_fit Sample.camera Sample.accepting Sample.pinhole Sample.two_detections 0.125 7
      = Some (vec_inliers, Identity3) /\
    (10 <= length vec_inliers)%nat.
Proof.
  exact (proj1 (@homographies_of_the_views_that_fit Sample.camera
                  Sample.accepting Sample.pinhole Sample.two_views
                  Sample.two_detections 0.125%float 0
                  (mkGathered 6 5 {[7 := Identity3; 8 := Identity3]}) two_views_gathered)
           7 Identity3).
Defined.

(** A run: the first intrinsic of the two sample views. *)
Lemma indices_are_read_in_bounds_witness :
  in_bounds
    (create_landmarks 0.125 5 6 (landmarks Sample.two_views)).1 4 5.
Proof.
  refine (proj2 (@indices_are_read_in_bounds Sample.numerics Sample.camera Sample.accepting
                   Sample.refinement Sample.two_detections 0.125
                   (mkBasic Sample.two_views [] 0 0 true)
                   0 Sample.pinhole (mkGathered 6 5 {[7 := Identity3; 8 := Identity3]})
                   eq_refl ltac:(intros E; discriminate E) two_views_gathered)
            (or_introl eq_refl) _ ltac:(vm_compute; reflexivity)
            7 Identity3 (Sample.board 5 6 0) [] 4%nat 5%nat
            ltac:(vm_compute; reflexivity) ltac:(vm_compute; reflexivity) _).
  apply elem_of_cell_indices. vm_compute. lia.
Defined.

Lemma one_homography_ids (k : N) :
  is_Some (({[7 := Identity3]} : gmap N Mat3) !! k) -> k < IndexT_modulus.
Proof.
  intros [x Hk]. apply lookup_singleton_Some in Hk as [<- _]. reflexivity.
Qed.

(** A run: one view with a homography, in the scene of the two sample views. *)
Lemma init_poses_witness :
  poses (@init_poses Sample.numerics Sample.accepting Identity3 {[7 := Identity3]}
           Sample.two_views) !! 7
    = Some (@linear_pose Sample.numerics Sample.accepting Identity3 Identity3) /\
  poses (@init_poses Sample.numerics Sample.accepting Identity3 {[7 := Identity3]}
           Sample.two_views) !! 8 = None.
Proof.
  pose proof (proj1 (@init_poses_sets_the_poses_of_the_fitted_views Sample.numerics
                       Sample.accepting Identity3 {[7 := Identity3]} Sample.two_views
                       one_homography_ids)) as Hp.
  split; [exact (Hp 7)|exact (Hp 8)].
Defined.

(** A run: two detection sets and a scene without intrinsics. *)
Lemma process_basic_without_intrinsics_witness :
  @process_basic Sample.numerics Sample.camera Sample.accepting Sample.refinement
    (mkSfMData (views Sample.two_views) ∅ ∅ ∅) Sample.two_detections 0.125
  = Some (true, mkSfMData (views Sample.two_views) ∅ ∅ ∅).
Proof.
  apply (proj1 (@process_basic_without_pinhole_intrinsics Sample.numerics Sample.camera
                  Sample.accepting Sample.refinement (mkSfMData (views Sample.two_views) ∅ ∅ ∅)
                  Sample.two_detections 0.125 ltac:(vm_compute; lia))).
  reflexivity.
Defined.

(** Runs of the program: the sample scene with one detection file; with a
    file that opens and does not parse; and with a detection whose board has
    corner ids past the end of the corner list. *)
Example main_sample_runs :
  @IntrinsicsCalibration.aliceVision_main Sample.numerics Sample.camera Sample.accepting
    Sample.refinement Sample.algorithm (Some Sample.scene)
    (fun v => if v =? 7 then IntrinsicsCalibration.Parsed Sample.detector
              else IntrinsicsCalibration.NotOpened)
    (fun _ => true) 0.125 1 false
  = Done IntrinsicsCalibration.EXIT_SUCCESS /\
  @IntrinsicsCalibration.aliceVision_main Sample.numerics Sample.camera Sample.accepting
    Sample.refinement Sample.algorithm (Some Sample.scene)
    (fun _ => IntrinsicsCalibration.ParseError) (fun _ => true) 0.125 1 false
  = Throws /\
  @IntrinsicsCalibration.aliceVision_main Sample.numerics Sample.camera Sample.accepting
    Sample.refinement Sample.algorithm (Some Sample.scene)
    (fun _ => IntrinsicsCalibration.Parsed
                (mkDetector [Sample.board 5 6 1000] (getCorners Sample.detector)))
    (fun _ => true) 0.125 1 false
  = Undefined.
Proof. vm_compute. auto. Qed.

(** *** SfM bootstraping: the score and the choice of the pair *)

(** Two tracks at (320, 240) and (100, 60) of the view 7, 16 levels: the
    levels 1 to 8 have two cells, the score is 2 * (2^15 + ... + 2^8). *)
Lemma computeScore_counts_cells_witness :
  @computeScore Sample.math Sample.two_tracks [3; 5] 7 16
    = Done (@cell_score Sample.math 16 (pixels Sample.two_tracks 7 [3; 5])) /\
  @cell_score Sample.math 16 (pixels Sample.two_tracks 7 [3; 5]) = 130560%float.
Proof.
  split; [|vm_compute; reflexivity].
  apply (@computeScore_counts_cells Sample.math Sample.two_tracks [3; 5] 7 16).
  - lia.
  - vm_compute. reflexivity.
  - intros t Ht. apply elem_of_cons in Ht as [->|Ht]; [vm_compute; eauto|].
    apply elem_of_cons in Ht as [->|Ht]; [vm_compute; eauto|].
    apply elem_of_nil in Ht. destruct Ht.
Defined.

Lemma computeScore_order_independent_witness :
  @computeScore Sample.math Sample.two_tracks [5; 3; 3] 7 16 = Done 130560%float.
Proof.
  apply (@computeScore_order_independent Sample.math Sample.two_tracks [3; 5] [5; 3; 3]
           7 16 130560%float).
  - intros t. rewrite !elem_of_cons, !elem_of_nil. tauto.
  - vm_compute. reflexivity.
Defined.

(** The pixels (320, 240) and (321, 241) share the cell (160, 120). *)
Lemma computeScore_zero_witness :
  @computeScore Sample.math Sample.close_tracks [3; 5] 7 16 = Done 0%float.
Proof.
  apply (@computeScore_zero_within_one_cell Sample.math Sample.close_tracks [3; 5] 7 16).
  - lia.
  - intros t Ht. apply elem_of_cons in Ht as [->|Ht]; [vm_compute; eauto|].
    apply elem_of_cons in Ht as [->|Ht]; [vm_compute; eauto|].
    apply elem_of_nil in Ht. destruct Ht.
  - assert (pixels Sample.close_tracks 7 [3; 5] = [(320, 240); (321, 241)]) as ->
      by (vm_compute; reflexivity).
    intros p q Hp Hq.
    assert (forall r, r ∈ [(320, 240); (321, 241)] -> cell_at 1 r = (160, 120)) as Hc.
    { intros r Hr. apply elem_of_cons in Hr as [->|Hr]; [reflexivity|].
      apply elem_of_cons in Hr as [->|Hr]; [reflexivity|].
      apply elem_of_nil in Hr. destruct Hr. }
    now rewrite (Hc p Hp), (Hc q Hq).
Defined.

(** A level above 32 with a used track, a missing track and [maxLevel == 0]. *)
Example computeScore_failures :
  @computeScore Sample.math Sample.two_tracks [3] 7 33 = Undefined /\
  @computeScore Sample.math Sample.two_tracks [4] 7 16 = Throws /\
  @computeScore Sample.math Sample.two_tracks [3] 9 16 = Throws /\
  @computeScore Sample.math Sample.two_tracks [] 7 0 = Throws.
Proof. vm_compute. auto. Qed.

(** The pair of the views 7 and 8 with the two tracks: both are used. *)
Lemma used_tracks_witness :
  exists ids,
    [3; 5] = wrap_IndexT <$> ids /\
    StronglySorted N.lt ids /\
    (forall t, t ∈ ids ->
       is_Some (@getCommonTracksInImagesFast Sample.tracks
                  [reference Sample.pair78; next Sample.pair78] Sample.two_tracks ∅ !! t)).
Proof.
  assert (exists angle,
            @estimatePairAngle Sample.numerics Sample.camera Sample.accepting Sample.tracks
              Sample.two_views Sample.pair78 Sample.two_tracks ∅ 4 0
            = Returned true angle [3; 5]) as [angle Ha]
    by (eexists; vm_compute; reflexivity).
  destruct (@used_tracks_are_increasing_common_tracks Sample.numerics Sample.camera
              Sample.accepting Sample.tracks Sample.two_views Sample.pair78
              Sample.two_tracks ∅ 4%float 0%float angle [3; 5] Ha)
    as [(ids & Hu & Hs & Hin & _) _].
  exists ids. auto.
Defined.

(** Track ids that differ by [2^32] are the same in [usedTracks]. *)
Example used_tracks_are_narrowed :
  exists angle,
    @estimatePairAngle Sample.numerics Sample.camera Sample.accepting Sample.tracks
      Sample.two_views Sample.pair78
      {[3 := mkTrack {[7 := mkTrackItem 0 (320, 240)%float;
                       8 := mkTrackItem 0 (330, 240)%float]};
        4294967299 := mkTrack {[7 := mkTrackItem 1 (100, 60)%float;
                                8 := mkTrackItem 1 (110, 60)%float]}]} ∅ 4 0
    = Returned true angle [3; 3].
Proof. eexists. vm_compute. reflexivity. Qed.

(** The loop over the single pair of the views 7 and 8: it is chosen. *)
Lemma select_pair_witness :
  exists best,
    @select_pair Sample.numerics Sample.camera Sample.accepting Sample.tracks Sample.math
      Sample.two_views Sample.two_tracks ∅ [Sample.pair78] = Done best /\
    bestPair best = Some Sample.pair78 /\
    (forall p s, p ∈ [Sample.pair78] ->
       @pair_score Sample.numerics Sample.camera Sample.accepting Sample.tracks Sample.math
         Sample.two_views Sample.two_tracks ∅ p = Some s ->
       (bestScore best <? s)%float = false).
Proof.
  destruct (@select_pair Sample.numerics Sample.camera Sample.accepting Sample.tracks
              Sample.math Sample.two_views Sample.two_tracks ∅ [Sample.pair78])
    as [best| |] eqn:E; try (vm_compute in E; discriminate E).
  exists best. split; [reflexivity|].
  destruct (@select_pair_takes_the_best_score Sample.numerics Sample.camera Sample.accepting
              Sample.tracks Sample.math Sample.two_views Sample.two_tracks ∅
              [Sample.pair78] best E) as [Hmax _].
  split; [|exact Hmax]. vm_compute in E. injection E as <-. reflexivity.
Defined.

Lemma selected_pair_has_two_used_tracks_witness :
  exists best,
    @select_pair Sample.numerics Sample.camera Sample.accepting Sample.tracks Sample.math
      Sample.two_views Sample.two_tracks ∅ [Sample.pair78] = Done best /\
    (2 <= length (bestUsedTracks best))%nat.
Proof.
  destruct (@select_pair Sample.numerics Sample.camera Sample.accepting Sample.tracks
              Sample.math Sample.two_views Sample.two_tracks ∅ [Sample.pair78])
    as [best| |] eqn:E; try (vm_compute in E; discriminate E).
  exists best. split; [reflexivity|].
  apply (@selected_pair_has_two_used_tracks Sample.numerics Sample.camera Sample.accepting
           Sample.tracks Sample.math Sample.two_views Sample.two_tracks ∅
           [Sample.pair78] best Sample.pair78 E).
  vm_compute in E. injection E as <-. reflexivity.
Defined.

(** With one track only the pair is not chosen. *)
Example one_track_pair_is_not_chosen :
  @select_pair Sample.numerics Sample.camera Sample.accepting Sample.tracks Sample.math
    Sample.two_views Sample.one_track ∅ [Sample.pair78] = Done no_best.
Proof. vm_compute. reflexivity. Qed.

(** Without any track the loop is undefined at the pair of the views 7 and 8. *)
Lemma select_pair_undefined_witness :
  @select_pair Sample.numerics Sample.camera Sample.accepting Sample.tracks Sample.math
    Sample.two_views ∅ ∅ ([] ++ Sample.pair78 :: [Sample.pair78]) = Undefined.
Proof.
  apply (@select_pair_undefined_without_used_track Sample.numerics Sample.camera
           Sample.accepting Sample.tracks Sample.math Sample.two_views ∅ ∅
           [] [Sample.pair78] Sample.pair78 no_best None).
  - reflexivity.
  - vm_compute. reflexivity.
Defined.
